(** * The thermal logo effect: a shallow embedding of its frame loop

    The development follows the TypeScript sources of the demo:

    - [utils/math.ts]                      -> module [MathUtils]
    - [config/constants.ts]                -> module [Constants]
    - [renderer/DrawRenderer.ts]           -> module [DrawRenderer]
    - [shaders/thermal.frag]               -> module [ThermalShader]
    - [components/ThermalMaterial.ts]      -> module [ThermalMaterial]
    - [components/ParameterController.ts]  -> module [ParameterController]
    - [components/InteractionManager.ts]   -> module [InteractionManager]
    - the component based [AppScene]       -> module [Scene]
    - the monolithic [scenes/AppScene.ts]  -> module [LegacyScene]

    ** Numbers

    A TypeScript [number] is read as the exact rational it denotes: a
    literal such as [0.95] is the rational 95/100, and [+ - * /],
    [Math.min], [Math.max] and the comparisons are those of [Q].
    Rounding, infinities and NaN of IEEE doubles are outside the model.
    Equality of numbers is [Qeq] (written [==]).

    ** State

    Every class is a record and every method a function from the
    record to the updated record.  Objects whose identity matters (the
    textures of the two render targets) carry an identifier handed out
    by an allocation counter.  Values produced by the environment
    (bounding rectangles, [Math.random()], the video clock) are
    arguments of the method or event that reads them. *)

From Stdlib Require Import QArith Qminmax Qround Qabs Qfield Lqa ZArith Lia
  List Bool.
Import ListNotations.
Local Open Scope Q_scope.

(* ================================================================= *)
(** * Part I: the model *)
(* ================================================================= *)

(** ** JavaScript number primitives *)

Module JS.

(** [a < b], [a > b] and [a >= b] as tests. *)
Definition lt (a b : Q) : bool := negb (Qle_bool b a).
Definition gt (a b : Q) : bool := lt b a.
Definition ge (a b : Q) : bool := Qle_bool b a.

(** [Math.max] and [Math.min] on two numbers. *)
Definition Math_max (a b : Q) : Q := Qmax a b.
Definition Math_min (a b : Q) : Q := Qmin a b.

(** [a ?? b] on a possibly undefined number. *)
Definition nullish (a : option Q) (b : Q) : Q :=
  match a with Some v => v | None => b end.

End JS.

(** ** The vector classes of three.js that the sources use *)

Module Three.

Record Vector2 := mkVector2 { x2 : Q; y2 : Q }.
Record Vector3 := mkVector3 { x3 : Q; y3 : Q; z3 : Q }.
Record Vector4 := mkVector4 { x4 : Q; y4 : Q; z4 : Q; w4 : Q }.

(** [Vector3.lerp(v, alpha)]: every component moves by
    [(v - this) * alpha]. *)
Definition Vector3_lerp (this v : Vector3) (alpha : Q) : Vector3 :=
  {| x3 := x3 this + (x3 v - x3 this) * alpha;
     y3 := y3 this + (y3 v - y3 this) * alpha;
     z3 := z3 this + (z3 v - z3 this) * alpha |}.

(** Identity of a [THREE.Texture] object. *)
Definition TextureId := nat.

End Three.

(** ** utils/math.ts *)

Module MathUtils.

(** [lerp(a, b, t)] *)
Definition lerp (a b t : Q) : Q := a + (b - a) * t.

(** [lerpSpeed(base, deltaTime)]:
    [n > 1 ? 1 : n < 0 ? 0 : n] with [n = base * deltaTime * 60]. *)
Definition lerpSpeed (base deltaTime : Q) : Q :=
  let n := base * deltaTime * 60 in
  if JS.gt n 1 then 1 else if JS.lt n 0 then 0 else n.

(** [clamp(value, min, max)] *)
Definition clamp (value min max : Q) : Q :=
  JS.Math_min (JS.Math_max value min) max.

(** The four fields of a [DOMRect] that the code reads. *)
Record DOMRect := mkDOMRect
  { left : Q; top : Q; width : Q; height : Q }.

(** [screenToNDC(screenX, screenY, bounds)] *)
Definition screenToNDC (screenX screenY : Q) (bounds : DOMRect)
  : Three.Vector2 :=
  let nx := if JS.gt (width bounds) 0
            then (screenX - left bounds) / width bounds else 0.5 in
  let ny := if JS.gt (height bounds) 0
            then (screenY - top bounds) / height bounds else 0.5 in
  let x := 2 * (nx - 0.5) in
  let y := 2 * - (ny - 0.5) in
  Three.mkVector2 x y.

(** [calculateMovementDelta(currentX, currentY, lastX, lastY, bounds)] *)
Definition calculateMovementDelta
  (currentX currentY lastX lastY : Q) (bounds : DOMRect)
  : Three.Vector2 :=
  let nx := if JS.gt (width bounds) 0
            then (currentX - left bounds) / width bounds else 0.5 in
  let ny := if JS.gt (height bounds) 0
            then (currentY - top bounds) / height bounds else 0.5 in
  let ndx := nx - lastX in
  let ndy := ny - lastY in
  Three.mkVector2 ndx ndy.

End MathUtils.

(** ** config/constants.ts *)

Module Constants.

(** [EffectParameters]: the nine named numbers. *)
Record EffectParameters := mkEffectParameters
  { effectIntensity : Q;
    contrastPower : Q;
    colorSaturation : Q;
    heatSensitivity : Q;
    videoBlendAmount : Q;
    gradientShift : Q;
    heatDecay : Q;
    interactionRadius : Q;
    reactivity : Q }.

(** [keyof EffectParameters] *)
Inductive ParamName :=
| EffectIntensity | ContrastPower | ColorSaturation | HeatSensitivity
| VideoBlendAmount | GradientShift | HeatDecay | InteractionRadius
| Reactivity.

Definition ParamName_eq_dec (a b : ParamName) : {a = b} + {a <> b}.
Proof. decide equality. Defined.

Definition all_names : list ParamName :=
  [EffectIntensity; ContrastPower; ColorSaturation; HeatSensitivity;
   VideoBlendAmount; GradientShift; HeatDecay; InteractionRadius;
   Reactivity].

(** [parameters[name]] *)
Definition get (name : ParamName) (p : EffectParameters) : Q :=
  match name with
  | EffectIntensity => effectIntensity p
  | ContrastPower => contrastPower p
  | ColorSaturation => colorSaturation p
  | HeatSensitivity => heatSensitivity p
  | VideoBlendAmount => videoBlendAmount p
  | GradientShift => gradientShift p
  | HeatDecay => heatDecay p
  | InteractionRadius => interactionRadius p
  | Reactivity => reactivity p
  end.

(** [parameters[name] = value] *)
Definition set (name : ParamName) (v : Q) (p : EffectParameters)
  : EffectParameters :=
  let 'mkEffectParameters a b c d e f g h i := p in
  match name with
  | EffectIntensity => mkEffectParameters v b c d e f g h i
  | ContrastPower => mkEffectParameters a v c d e f g h i
  | ColorSaturation => mkEffectParameters a b v d e f g h i
  | HeatSensitivity => mkEffectParameters a b c v e f g h i
  | VideoBlendAmount => mkEffectParameters a b c d v f g h i
  | GradientShift => mkEffectParameters a b c d e v g h i
  | HeatDecay => mkEffectParameters a b c d e f v h i
  | InteractionRadius => mkEffectParameters a b c d e f g v i
  | Reactivity => mkEffectParameters a b c d e f g h v
  end.

Definition DEFAULT_PARAMETERS : EffectParameters :=
  {| effectIntensity := 1.0;
     contrastPower := 0.8;
     colorSaturation := 1.3;
     heatSensitivity := 0.5;
     videoBlendAmount := 1.0;
     gradientShift := 0.0;
     heatDecay := 0.95;
     interactionRadius := 1.0;
     reactivity := 1.0 |}.

(** [VIDEO_CONFIG] *)
Definition LOOP_START_TIME : Q := 2.95.
Definition LOOP_END_TIME : Q := 11.95.

(** [ANIMATION] *)
Definition FADE_IN_SPEED : Q := 0.1.
Definition MOUSE_INTERPOLATION_SPEED : Q := 0.8.
Definition SCROLL_INTERPOLATION_SPEED : Q := 0.2.
Definition MOVEMENT_INTERPOLATION_SPEED : Q := 0.01.
Definition POWER_INTERPOLATION_SPEED : Q := 0.01.
Definition VIDEO_BLEND_SPEED : Q := 0.1.
Definition HEAT_MAX_VALUE : Q := 1.3.
Definition TARGET_FPS : Q := 60.
Definition POWER_MIN : Q := 0.8.
Definition POWER_MAX : Q := 1.0.

(** [DRAW_RENDERER] *)
Definition TEXTURE_SIZE : Q := 256.
Definition RADIUS_RATIO : Q := 1000.
Definition MOBILE_RADIUS : Q := 350.
Definition DESKTOP_RADIUS : Q := 220.
Definition RADIUS_VECTOR : Three.Vector3 := Three.mkVector3 (-8) 0.9 150.
Definition SIZE_DAMPING : Q := 0.8.
Definition FADE_DAMPING : Q := 0.98.
Definition DIRECTION_MULTIPLIER : Q := 100.

(** [GRADIENT_CONFIG] *)
Definition BLEND_POINTS : Three.Vector4 := Three.mkVector4 0.4 0.7 0.81 0.91.
Definition FADE_RANGES : Three.Vector4 := Three.mkVector4 1 1 0.72 0.52.
Definition MAX_BLEND : Three.Vector4 := Three.mkVector4 0.8 0.87 0.5 0.27.

(** [INTERACTION] *)
Definition HOLD_MOVE_TARGET : Q := 0.95.
Definition RELEASE_MOVE_TARGET : Q := 1.0.
Definition HOLD_POWER_TARGET : Q := 1.0.
Definition RELEASE_POWER_TARGET : Q := 0.8.
Definition HEAT_CLEANUP_THRESHOLD : Q := 0.001.

(** One entry of [PARAMETER_RANGES]. *)
Record Range := mkRange { min : Q; max : Q; step : Q }.

(** [PARAMETER_RANGES[name]]; the lookup of a key may be undefined in
    general, which the caller tests, so the result is an option. *)
Definition PARAMETER_RANGES (name : ParamName) : option Range :=
  match name with
  | EffectIntensity => Some (mkRange 0 2 0.1)
  | ContrastPower => Some (mkRange 0.1 2 0.1)
  | ColorSaturation => Some (mkRange 0.5 3 0.1)
  | HeatSensitivity => Some (mkRange 0.1 2 0.1)
  | VideoBlendAmount => Some (mkRange 0 1 0.1)
  | GradientShift => Some (mkRange (-0.5) 0.5 0.05)
  | HeatDecay => Some (mkRange 0.8 0.99 0.01)
  | InteractionRadius => Some (mkRange 0.1 3 0.1)
  | Reactivity => Some (mkRange 0.1 3 0.1)
  end.

End Constants.

(** ** GLSL built-ins used by the fragment shaders

  [clamp], [mix] and [smoothstep] as the GLSL ES specification
  defines them on floats, and [mix] lifted to [vec3]. *)

Module Glsl.

Definition clamp (x minVal maxVal : Q) : Q := Qmin (Qmax x minVal) maxVal.

Definition mix (x y a : Q) : Q := x * (1 - a) + y * a.

Definition smoothstep (edge0 edge1 x : Q) : Q :=
  let t := clamp ((x - edge0) / (edge1 - edge0)) 0 1 in
  t * t * (3 - 2 * t).

Definition vec3 := Three.Vector3.

Definition mix3 (x y : vec3) (a : Q) : vec3 :=
  {| Three.x3 := mix (Three.x3 x) (Three.x3 y) a;
     Three.y3 := mix (Three.y3 x) (Three.y3 y) a;
     Three.z3 := mix (Three.z3 x) (Three.z3 y) a |}.

(** Component-wise equality of colours. *)
Definition veq (a b : vec3) : Prop :=
  Three.x3 a == Three.x3 b /\ Three.y3 a == Three.y3 b
  /\ Three.z3 a == Three.z3 b.

End Glsl.

(** ** components/ThermalMaterial.ts *)

Module ThermalMaterial.

Import Three.

(** [ThermalShaderUniforms] of [types/index.ts]; a texture uniform
    holds the identity of the texture object, and the video texture
    is undefined until the video has loaded. *)
Record ThermalShaderUniforms := mkUniforms
  { blendVideo : Q;
    drawMap : TextureId;
    textureMap : option TextureId;
    maskMap : TextureId;
    scale : Vector2;
    offset : Vector2;
    opacity : Q;
    amount : Q;
    color1 : Vector3; color2 : Vector3; color3 : Vector3;
    color4 : Vector3; color5 : Vector3; color6 : Vector3;
    color7 : Vector3;
    blend : Vector4;
    fade : Vector4;
    maxBlend : Vector4;
    power : Q;
    rnd : Q;
    heat : Vector4;
    stretch : Vector4;
    effectIntensity : Q;
    colorSaturation : Q;
    gradientShift : Q;
    interactionSize : Q }.

(** The value [hexToRGB] returns on a six digit string [rrggbb]:
    each pair of digits, read in base 16, divided by 255. *)
Definition rgb (r g b : Z) : Vector3 :=
  mkVector3 (inject_Z r / 255) (inject_Z g / 255) (inject_Z b / 255).

(** [THERMAL_PALETTE.map(hexToRGB)] *)
Definition THERMAL_PALETTE : list Vector3 :=
  [ rgb 0x00 0x00 0x00;   (* 000000 black *)
    rgb 0x07 0x3d 0xff;   (* 073dff deep blue *)
    rgb 0x53 0xd5 0xfd;   (* 53d5fd cyan *)
    rgb 0xfe 0xfc 0xdd;   (* fefcdd light yellow *)
    rgb 0xff 0xec 0x6a;   (* ffec6a yellow *)
    rgb 0xf9 0xd4 0x00;   (* f9d400 orange *)
    rgb 0xa6 0x19 0x04 ]. (* a61904 red *)

Definition colors (i : nat) : Vector3 :=
  nth i THERMAL_PALETTE (mkVector3 0 0 0).

Record ThermalMaterialConfig := mkConfig
  { drawTexture : TextureId;
    videoTexture : option TextureId;
    maskTexture : TextureId }.

(** [createUniforms(config)] *)
Definition createUniforms (config : ThermalMaterialConfig)
  : ThermalShaderUniforms :=
  {| blendVideo := 0;
     drawMap := drawTexture config;
     textureMap := videoTexture config;
     maskMap := maskTexture config;
     scale := mkVector2 1 1;
     offset := mkVector2 0 0;
     opacity := 1;
     amount := 0;
     color1 := colors 0; color2 := colors 1; color3 := colors 2;
     color4 := colors 3; color5 := colors 4; color6 := colors 5;
     color7 := colors 6;
     blend := Constants.BLEND_POINTS;
     fade := Constants.FADE_RANGES;
     maxBlend := Constants.MAX_BLEND;
     power := 0.8;
     rnd := 0;
     heat := mkVector4 0 0 0 1.02;
     stretch := mkVector4 1 1 0 0;
     effectIntensity := 1.0;
     colorSaturation := 1.3;
     gradientShift := 0.0;
     interactionSize := 1.0 |}.

(** The argument object of [updateUniforms]: every field optional. *)
Record Updates := mkUpdates
  { upd_opacity : option Q;
    upd_amount : option Q;
    upd_power : option Q;
    upd_blendVideo : option Q;
    upd_effectIntensity : option Q;
    upd_colorSaturation : option Q;
    upd_gradientShift : option Q;
    upd_interactionSize : option Q;
    upd_randomValue : option Q }.

(** [if (updates.f !== undefined) this.uniforms.f.value = updates.f] *)
Definition assign (new : option Q) (old : Q) : Q :=
  match new with Some v => v | None => old end.

(** [updateUniforms(updates)] *)
Definition updateUniforms (updates : Updates) (u : ThermalShaderUniforms)
  : ThermalShaderUniforms :=
  {| blendVideo := assign (upd_blendVideo updates) (blendVideo u);
     drawMap := drawMap u;
     textureMap := textureMap u;
     maskMap := maskMap u;
     scale := scale u;
     offset := offset u;
     opacity := assign (upd_opacity updates) (opacity u);
     amount := assign (upd_amount updates) (amount u);
     color1 := color1 u; color2 := color2 u; color3 := color3 u;
     color4 := color4 u; color5 := color5 u; color6 := color6 u;
     color7 := color7 u;
     blend := blend u;
     fade := fade u;
     maxBlend := maxBlend u;
     power := assign (upd_power updates) (power u);
     rnd := assign (upd_randomValue updates) (rnd u);
     heat := heat u;
     stretch := stretch u;
     effectIntensity :=
       assign (upd_effectIntensity updates) (effectIntensity u);
     colorSaturation :=
       assign (upd_colorSaturation updates) (colorSaturation u);
     gradientShift := assign (upd_gradientShift updates) (gradientShift u);
     interactionSize :=
       assign (upd_interactionSize updates) (interactionSize u) |}.

(** [updateTextures({ videoTexture })], the only call the scene makes. *)
Definition updateTextures_video (v : TextureId) (u : ThermalShaderUniforms)
  : ThermalShaderUniforms :=
  {| blendVideo := blendVideo u;
     drawMap := drawMap u;
     textureMap := Some v;
     maskMap := maskMap u;
     scale := scale u;
     offset := offset u;
     opacity := opacity u;
     amount := amount u;
     color1 := color1 u; color2 := color2 u; color3 := color3 u;
     color4 := color4 u; color5 := color5 u; color6 := color6 u;
     color7 := color7 u;
     blend := blend u;
     fade := fade u;
     maxBlend := maxBlend u;
     power := power u;
     rnd := rnd u;
     heat := heat u;
     stretch := stretch u;
     effectIntensity := effectIntensity u;
     colorSaturation := colorSaturation u;
     gradientShift := gradientShift u;
     interactionSize := interactionSize u |}.

(** [updateFromParameters(parameters)] *)
Definition updateFromParameters (parameters : Constants.EffectParameters)
  (u : ThermalShaderUniforms) : ThermalShaderUniforms :=
  updateUniforms
    {| upd_opacity := None;
       upd_amount := None;
       upd_power := Some (Constants.contrastPower parameters);
       upd_blendVideo := Some (Constants.videoBlendAmount parameters);
       upd_effectIntensity := Some (Constants.effectIntensity parameters);
       upd_colorSaturation := Some (Constants.colorSaturation parameters);
       upd_gradientShift := Some (Constants.gradientShift parameters);
       upd_interactionSize :=
         Some (Constants.interactionRadius parameters);
       upd_randomValue := None |}
    u.

End ThermalMaterial.

(** ** shaders/thermal.frag: the colour ramp

  The same function is inlined as a string in the monolithic
  [AppScene.addHeat]. *)

Module ThermalShader.

Import Three Glsl ThermalMaterial.

(** [vec3 gradient(float t)] *)
Definition gradient (u : ThermalShaderUniforms) (t : Q) : vec3 :=
  let t := clamp (t + gradientShift u) 0.0 1.0 in
  let p1 := x4 (blend u) in
  let p2 := y4 (blend u) in
  let p3 := z4 (blend u) in
  let p4 := w4 (blend u) in
  let p5 := x4 (maxBlend u) in
  let p6 := y4 (maxBlend u) in
  let f1 := x4 (fade u) in
  let f2 := y4 (fade u) in
  let f3 := z4 (fade u) in
  let f4 := w4 (fade u) in
  let f5 := z4 (maxBlend u) in
  let f6 := w4 (maxBlend u) in
  let b1 := smoothstep (p1 - f1 * 0.5) (p1 + f1 * 0.5) t in
  let b2 := smoothstep (p2 - f2 * 0.5) (p2 + f2 * 0.5) t in
  let b3 := smoothstep (p3 - f3 * 0.5) (p3 + f3 * 0.5) t in
  let b4 := smoothstep (p4 - f4 * 0.5) (p4 + f4 * 0.5) t in
  let b5 := smoothstep (p5 - f5 * 0.5) (p5 + f5 * 0.5) t in
  let b6 := smoothstep (p6 - f6 * 0.5) (p6 + f6 * 0.5) t in
  let col := color1 u in
  let col := mix3 col (color2 u) b1 in
  let col := mix3 col (color3 u) b2 in
  let col := mix3 col (color4 u) b3 in
  let col := mix3 col (color5 u) b4 in
  let col := mix3 col (color6 u) b5 in
  let col := mix3 col (color7 u) b6 in
  col.

(** The gradient as the data model words it: an ordered list of the
    stops after the first, each with its blend midpoint and its fade
    width, folded from the first stop over one effective input. *)
Record Stop := mkStop { stop_color : vec3; midpoint : Q; fade_width : Q }.

Definition ordered_stops (u : ThermalShaderUniforms) : list Stop :=
  [ mkStop (color2 u) (x4 (blend u)) (x4 (fade u));
    mkStop (color3 u) (y4 (blend u)) (y4 (fade u));
    mkStop (color4 u) (z4 (blend u)) (z4 (fade u));
    mkStop (color5 u) (w4 (blend u)) (w4 (fade u));
    mkStop (color6 u) (x4 (maxBlend u)) (z4 (maxBlend u));
    mkStop (color7 u) (y4 (maxBlend u)) (w4 (maxBlend u)) ].

Definition blend_stop (e : Q) (col : vec3) (s : Stop) : vec3 :=
  mix3 col (stop_color s)
    (smoothstep (midpoint s - fade_width s * 0.5)
                (midpoint s + fade_width s * 0.5) e).

(** Lookup at an effective input that is used as it is. *)
Definition gradient_at (u : ThermalShaderUniforms) (e : Q) : vec3 :=
  fold_left (blend_stop e) (ordered_stops u) (color1 u).

(** The effective input of the data model: shift, then saturate. *)
Definition effective_input (u : ThermalShaderUniforms) (t : Q) : Q :=
  Qmin (Qmax (t + gradientShift u) 0) 1.

(** The alternative the data model rules out: shift, then wrap the
    result modulo 1 (GLSL [fract]). *)
Definition wrapped_input (u : ThermalShaderUniforms) (t : Q) : Q :=
  let s := t + gradientShift u in
  s - inject_Z (Qfloor s).

End ThermalShader.

(** ** renderer/DrawRenderer.ts: the heat-trail accumulator

  The component version reads its constants from [Constants]; the
  copy under [src/renderer] has the same numbers inlined. *)

Module DrawRenderer.

Import Three.

Record DrawRendererOptions := mkOptions
  { radiusRatio : option Q; isMobile : option bool }.

(** A [THREE.WebGLRenderTarget]: its side and the texture object it
    owns. *)
Record WebGLRenderTarget := mkTarget { rt_size : Q; texture : TextureId }.

Record DrawRendererUniforms := mkUniforms
  { uRadius : Vector3;
    uPosition : Vector2;
    uDirection : Vector4;
    uResolution : Vector3;
    uTexture : option TextureId;
    uSizeDamping : Q;
    uFadeDamping : Q;
    uDraw : Q }.

Record t := mk
  { renderTargetA : WebGLRenderTarget;
    renderTargetB : WebGLRenderTarget;
    uniforms : DrawRendererUniforms;
    options : DrawRendererOptions }.

(** What a pass asks of the GPU: clearing a target and drawing the
    full-screen quad into it with a snapshot of the uniforms.  The
    target [None] is the canvas. *)
Inductive GpuCommand :=
| Clear (target : option TextureId)
| DrawPass (target : option TextureId) (u : DrawRendererUniforms)
| DrawScene (target : option TextureId).

(** The part of [THREE.WebGLRenderer] that [render] touches. *)
Record WebGLRenderer := mkRenderer
  { currentRenderTarget : option WebGLRenderTarget;
    autoClear : bool;
    commands : list GpuCommand }.

Definition target_texture (rt : option WebGLRenderTarget)
  : option TextureId := option_map texture rt.

(** [new THREE.WebGLRenderTarget(size, size, rtOpts)]: a new object
    with a texture of its own; [next] counts the textures made so
    far. *)
Definition new_target (size : Q) (next : TextureId)
  : WebGLRenderTarget * TextureId :=
  (mkTarget size next, S next).

(** [createUniforms()] *)
Definition createUniforms : DrawRendererUniforms :=
  {| uRadius := Constants.RADIUS_VECTOR;
     uPosition := mkVector2 0 0;
     uDirection := mkVector4 0 0 0 0;
     uResolution := mkVector3 0 0 0;
     uTexture := None;
     uSizeDamping := Constants.SIZE_DAMPING;
     uFadeDamping := Constants.FADE_DAMPING;
     uDraw := 0 |}.

(** [constructor(size, options)] *)
Definition new (size : Q) (opts : DrawRendererOptions) (next : TextureId)
  : t * TextureId :=
  let (a, next1) := new_target size next in
  let (b, next2) := new_target size next1 in
  (mk a b createUniforms opts, next2).

Definition with_uniforms (u : DrawRendererUniforms) (dr : t) : t :=
  mk (renderTargetA dr) (renderTargetB dr) u (options dr).

(** [updateRadius(px)] *)
Definition updateRadius (px : Q) (dr : t) : t :=
  let u := uniforms dr in
  with_uniforms
    (mkUniforms (mkVector3 (x3 (uRadius u)) (y3 (uRadius u)) px)
       (uPosition u) (uDirection u) (uResolution u) (uTexture u)
       (uSizeDamping u) (uFadeDamping u) (uDraw u)) dr.

(** [updateDraw(value)] *)
Definition updateDraw (value : Q) (dr : t) : t :=
  let u := uniforms dr in
  with_uniforms
    (mkUniforms (uRadius u) (uPosition u) (uDirection u) (uResolution u)
       (uTexture u) (uSizeDamping u) (uFadeDamping u) value) dr.

(** [updatePosition(position, normalized)] *)
Definition updatePosition (px py : Q) (normalized : bool) (dr : t) : t :=
  let x := if normalized then 0.5 * px + 0.5 else px in
  let y := if normalized then 0.5 * py + 0.5 else py in
  let u := uniforms dr in
  with_uniforms
    (mkUniforms (uRadius u) (mkVector2 x y) (uDirection u) (uResolution u)
       (uTexture u) (uSizeDamping u) (uFadeDamping u) (uDraw u)) dr.

(** [updateDirection(direction)] *)
Definition updateDirection (direction : Vector2) (dr : t) : t :=
  let u := uniforms dr in
  with_uniforms
    (mkUniforms (uRadius u) (uPosition u)
       (mkVector4 (x2 direction) (y2 direction) 0
          Constants.DIRECTION_MULTIPLIER)
       (uResolution u) (uTexture u) (uSizeDamping u) (uFadeDamping u)
       (uDraw u)) dr.

(** [resize(width, height)] *)
Definition resize (width height : Q) (dr : t) : t :=
  let ratio :=
    height / JS.nullish (radiusRatio (options dr)) Constants.RADIUS_RATIO in
  let baseRadius :=
    match isMobile (options dr) with
    | Some true => Constants.MOBILE_RADIUS
    | _ => Constants.DESKTOP_RADIUS
    end in
  let radius := baseRadius * ratio in
  let dr := updateRadius radius dr in
  let u := uniforms dr in
  with_uniforms
    (mkUniforms (uRadius u) (uPosition u) (uDirection u)
       (mkVector3 width height 1) (uTexture u) (uSizeDamping u)
       (uFadeDamping u) (uDraw u)) dr.

(** [getTexture()] *)
Definition getTexture (dr : t) : TextureId := texture (renderTargetB dr).

(** [render(renderer)] *)
Definition render (dr : t) (renderer : WebGLRenderer)
  : t * WebGLRenderer :=
  let u := uniforms dr in
  let u := mkUniforms (uRadius u) (uPosition u) (uDirection u)
             (uResolution u) (Some (texture (renderTargetB dr)))
             (uSizeDamping u) (uFadeDamping u) (uDraw u) in
  let previousTarget := currentRenderTarget renderer in
  let target := Some (renderTargetA dr) in
  let cmds := commands renderer in
  let cmds := if autoClear renderer
              then cmds ++ [Clear (target_texture target)] else cmds in
  let cmds := cmds ++ [DrawPass (target_texture target) u] in
  let renderer := mkRenderer previousTarget (autoClear renderer) cmds in
  let temp := renderTargetA dr in
  (mk (renderTargetB dr) temp u (options dr), renderer).

(** The methods as a datatype, to speak of arbitrary call sequences. *)
Inductive Call :=
| CUpdateRadius (px : Q)
| CUpdateDraw (value : Q)
| CUpdatePosition (px py : Q) (normalized : bool)
| CUpdateDirection (direction : Vector2)
| CResize (width height : Q)
| CRender.

Definition call (c : Call) (s : t * WebGLRenderer) : t * WebGLRenderer :=
  let (dr, r) := s in
  match c with
  | CUpdateRadius px => (updateRadius px dr, r)
  | CUpdateDraw v => (updateDraw v dr, r)
  | CUpdatePosition px py n => (updatePosition px py n dr, r)
  | CUpdateDirection d => (updateDirection d dr, r)
  | CResize w h => (resize w h dr, r)
  | CRender => render dr r
  end.

Definition calls (cs : list Call) (s : t * WebGLRenderer)
  : t * WebGLRenderer :=
  fold_left (fun s c => call c s) cs s.

End DrawRenderer.

(** ** components/ParameterController.ts

  The two callbacks of the configuration object act on the state of
  whoever built the controller (the scene); they are parameters of
  the section, and they are handed the controller as it is at the
  moment of the call, which is what the closures read. *)

Module ParameterController.

Import Constants.

Record t := mk
  { parameters : EffectParameters;
    (** keys of the [parameterControls] map, in insertion order *)
    parameterControls : list ParamName;
    (** the number each slider element shows *)
    sliders : EffectParameters }.

(** [constructor(config)]: the parameters are a copy of the defaults,
    one control per parameter, each slider set to its parameter. *)
Definition new : t :=
  mk DEFAULT_PARAMETERS all_names DEFAULT_PARAMETERS.

(** [getParameter(name)] *)
Definition getParameter (name : ParamName) (pc : t) : Q :=
  get name (parameters pc).

(** [getAllParameters()] *)
Definition getAllParameters (pc : t) : EffectParameters := parameters pc.

(** [control.setValue(value)] of the control of [name] *)
Definition setValue (name : ParamName) (value : Q) (pc : t) : t :=
  mk (parameters pc) (parameterControls pc) (set name value (sliders pc)).

Section Callbacks.

Context {Host : Type}.
Variable onParameterChange : t -> ParamName -> Q -> Host -> Host.

(** [setParameter(name, value)] *)
Definition setParameter (name : ParamName) (value : Q) (s : t * Host)
  : t * Host :=
  let (pc, host) := s in
  let range := PARAMETER_RANGES name in
  let value :=
    match range with
    | Some range => JS.Math_max (min range) (JS.Math_min (max range) value)
    | None => value
    end in
  let pc := mk (set name value (parameters pc)) (parameterControls pc)
              (sliders pc) in
  (pc, onParameterChange pc name value host).

(** [resetToDefaults()] *)
Definition resetToDefaults (s : t * Host) : t * Host :=
  let (pc, host) := s in
  let pc := mk DEFAULT_PARAMETERS (parameterControls pc) (sliders pc) in
  fold_left
    (fun (s : t * Host) param =>
       let (pc, host) := s in
       let defaultValue := get param DEFAULT_PARAMETERS in
       let pc := setValue param defaultValue pc in
       (pc, onParameterChange pc param defaultValue host))
    (parameterControls pc) (pc, host).

(** [setParameters(newParameters)], the entries in object order *)
Definition setParameters (newParameters : list (ParamName * Q))
  (s : t * Host) : t * Host :=
  fold_left
    (fun (s : t * Host) (entry : ParamName * Q) =>
       let (name, value) := entry in
       let (pc, host) := setParameter name value s in
       if existsb
            (fun k =>
               if Constants.ParamName_eq_dec k name then true else false)
            (parameterControls pc)
       then (setValue name value pc, host)
       else (pc, host))
    newParameters s.

(** The reset button: [resetToDefaults()] then [onReset()]. *)
Variable onReset : t -> Host -> Host.

Definition resetButton (s : t * Host) : t * Host :=
  let (pc, host) := resetToDefaults s in
  (pc, onReset pc host).

End Callbacks.

(** [dispose()] *)
Definition dispose (pc : t) : t := mk (parameters pc) [] (sliders pc).

End ParameterController.

(** ** components/InteractionManager.ts

    As for the controller, the two callbacks act on the state of the
    scene that owns the manager.  The bounding rectangle that a handler
    asks the DOM for is an argument of the handler. *)

Module InteractionManager.

Import Three MathUtils.

Record MouseState := mkMouse { position : Vector3; target : Vector3 }.

Record InteractionState := mkInteraction
  { hold : bool; heatUp : Q; lastNX : Q; lastNY : Q }.

Record t := mk
  { mouseState : MouseState; interactionState : InteractionState }.

(** [constructor(config)] *)
Definition new : t :=
  mk (mkMouse (mkVector3 0 0 0) (mkVector3 0 0 0))
     (mkInteraction false 0 0.5 0.5).

(** [getMouseState()] and [getInteractionState()] *)
Definition getMouseState (im : t) : MouseState := mouseState im.
Definition getInteractionState (im : t) : InteractionState :=
  interactionState im.

(** [updateMousePosition(lerpFactor)] *)
Definition updateMousePosition (lerpFactor : Q) (im : t) : t :=
  let m := mouseState im in
  mk (mkMouse (Vector3_lerp (position m) (target m) lerpFactor) (target m))
     (interactionState im).

Section Callbacks.

Context {Host : Type}.
Variable onPositionUpdate : Vector3 -> Vector2 -> Host -> Host.
Variable onInteractionChange : bool -> Host -> Host.

(** [updatePosition(clientX, clientY)]; [bounds] is the rectangle of
    the hit container at the time of the event. *)
Definition updatePosition (clientX clientY : Q) (bounds : DOMRect)
  (s : t * Host) : t * Host :=
  let (im, host) := s in
  let i := interactionState im in
  let p := screenToNDC clientX clientY bounds in
  let d := calculateMovementDelta clientX clientY (lastNX i) (lastNY i)
             bounds in
  let tgt := mkVector3 (x2 p) (y2 p) 0 in
  let host := onPositionUpdate tgt d host in
  let nx := if JS.gt (width bounds) 0
            then (clientX - left bounds) / width bounds else 0.5 in
  let ny := if JS.gt (height bounds) 0
            then (clientY - top bounds) / height bounds else 0.5 in
  (mk (mkMouse (position (mouseState im)) tgt)
      (mkInteraction (hold i) (heatUp i) nx ny),
   host).

(** [updateGlobalPosition(clientX, clientY)]: the same steps on the
    rectangle of the outer container. *)
Definition updateGlobalPosition (clientX clientY : Q) (bounds : DOMRect)
  (s : t * Host) : t * Host :=
  updatePosition clientX clientY bounds s.

(** [setInteracting(isInteracting)] *)
Definition setInteracting (isInteracting : bool) (s : t * Host) : t * Host :=
  let (im, host) := s in
  let i := interactionState im in
  if negb (Bool.eqb (hold i) isInteracting)
  then (mk (mouseState im)
           (mkInteraction isInteracting (heatUp i) (lastNX i) (lastNY i)),
        onInteractionChange isInteracting host)
  else (im, host).

Definition handlePointerMove (clientX clientY : Q) (bounds : DOMRect)
  (s : t * Host) : t * Host :=
  setInteracting true (updatePosition clientX clientY bounds s).

Definition handlePointerDown (clientX clientY : Q) (bounds : DOMRect)
  (s : t * Host) : t * Host :=
  setInteracting true (updatePosition clientX clientY bounds s).

Definition handlePointerEnter (clientX clientY : Q) (bounds : DOMRect)
  (s : t * Host) : t * Host :=
  updatePosition clientX clientY bounds s.

Definition handlePointerUp (s : t * Host) : t * Host :=
  setInteracting false s.

Definition handlePointerLeave (s : t * Host) : t * Host :=
  setInteracting false s.

Definition handleGlobalPointerMove (clientX clientY : Q) (bounds : DOMRect)
  (s : t * Host) : t * Host :=
  setInteracting true (updateGlobalPosition clientX clientY bounds s).

End Callbacks.

End InteractionManager.

(** ** Animation values, the video element and the renderer wrapper,
    shared by the two scenes *)

Module Anim.

Import Three.

(** [{ value, target }] *)
Record AnimationValue := mkAV { value : Q; target : Q }.

(** [mouse: { position, target }] *)
Record MouseAnimation := mkMouseAnim
  { position : Vector3; mouse_target : Vector3 }.

Record ScrollAnimation := mkScroll
  { opacity : AnimationValue; scale : AnimationValue; power : AnimationValue }.

Record AnimationValues := mkAnimationValues
  { blendVideo : AnimationValue;
    amount : AnimationValue;
    mouse : MouseAnimation;
    move : AnimationValue;
    scrollAnimation : ScrollAnimation }.

(** The initial values of the field initialisers. *)
Definition initial : AnimationValues :=
  {| blendVideo := mkAV 0 0;
     amount := mkAV 0 0;
     mouse := mkMouseAnim (mkVector3 0 0 0) (mkVector3 0 0 0);
     move := mkAV 1 1;
     scrollAnimation := mkScroll (mkAV 1 1) (mkAV 1 1) (mkAV 0.8 0.8) |}.

(** The two properties of the [HTMLVideoElement] that the scenes use. *)
Record Video := mkVideo { currentTime : Q; paused : bool }.

(** [video.play().catch(() => {})]: the platform may refuse to play,
    which is swallowed; [allowed] is the platform's answer. *)
Definition play (allowed : bool) (v : Video) : Video :=
  if allowed then mkVideo (currentTime v) false else v.

(** [AppRenderer]: the cached rectangle of the container and the
    WebGL renderer. *)
Record AppRenderer := mkAppRenderer
  { rect : MathUtils.DOMRect; renderer : DrawRenderer.WebGLRenderer }.

End Anim.

(** ** The component based scene ([AppScene] built from
    [InteractionManager], [ParameterController], [ThermalMaterial]
    and [DrawRenderer])

    The record is the scene once [init()] has built its components;
    the two flags say whether the first video frame has arrived.
    Before [init()] completes the flags are false as well, so the
    frames the renderer issues in that window take the same early
    return.  The camera, which only [onResize] touches, is left out.
    [thermalMaterial] is the material's uniform object and
    [heatMesh_scale] the [scale] of the mesh. *)

Module Scene.

Import Three MathUtils Constants Anim.

Record t := mk
  { rendererWrapper : AppRenderer;
    drawRenderer : DrawRenderer.t;
    interactionManager : InteractionManager.t;
    parameterController : ParameterController.t;
    thermalMaterial : ThermalMaterial.ThermalShaderUniforms;
    heatMesh_scale : Vector3;
    video : Video;
    videoTexture : option TextureId;
    maskTexture : TextureId;
    videoReady : bool;
    textureReady : bool;
    heatUp : Q;
    animationValues : AnimationValues;
    (** number of texture objects created so far *)
    textures_made : TextureId }.

Definition set_rendererWrapper (v : AppRenderer) (st : t) : t :=
  mk v (drawRenderer st) (interactionManager st) (parameterController st)
    (thermalMaterial st) (heatMesh_scale st) (video st) (videoTexture st)
    (maskTexture st) (videoReady st) (textureReady st) (heatUp st)
    (animationValues st) (textures_made st).

Definition set_drawRenderer (v : DrawRenderer.t) (st : t) : t :=
  mk (rendererWrapper st) v (interactionManager st) (parameterController st)
    (thermalMaterial st) (heatMesh_scale st) (video st) (videoTexture st)
    (maskTexture st) (videoReady st) (textureReady st) (heatUp st)
    (animationValues st) (textures_made st).

Definition set_interactionManager (v : InteractionManager.t) (st : t) : t :=
  mk (rendererWrapper st) (drawRenderer st) v (parameterController st)
    (thermalMaterial st) (heatMesh_scale st) (video st) (videoTexture st)
    (maskTexture st) (videoReady st) (textureReady st) (heatUp st)
    (animationValues st) (textures_made st).

Definition set_parameterController (v : ParameterController.t) (st : t) : t :=
  mk (rendererWrapper st) (drawRenderer st) (interactionManager st) v
    (thermalMaterial st) (heatMesh_scale st) (video st) (videoTexture st)
    (maskTexture st) (videoReady st) (textureReady st) (heatUp st)
    (animationValues st) (textures_made st).

Definition set_thermalMaterial (v : ThermalMaterial.ThermalShaderUniforms)
  (st : t) : t :=
  mk (rendererWrapper st) (drawRenderer st) (interactionManager st)
    (parameterController st) v (heatMesh_scale st) (video st)
    (videoTexture st) (maskTexture st) (videoReady st) (textureReady st)
    (heatUp st) (animationValues st) (textures_made st).

Definition set_heatMesh_scale (v : Vector3) (st : t) : t :=
  mk (rendererWrapper st) (drawRenderer st) (interactionManager st)
    (parameterController st) (thermalMaterial st) v (video st)
    (videoTexture st) (maskTexture st) (videoReady st) (textureReady st)
    (heatUp st) (animationValues st) (textures_made st).

Definition set_video (v : Video) (st : t) : t :=
  mk (rendererWrapper st) (drawRenderer st) (interactionManager st)
    (parameterController st) (thermalMaterial st) (heatMesh_scale st) v
    (videoTexture st) (maskTexture st) (videoReady st) (textureReady st)
    (heatUp st) (animationValues st) (textures_made st).

Definition set_heatUp (v : Q) (st : t) : t :=
  mk (rendererWrapper st) (drawRenderer st) (interactionManager st)
    (parameterController st) (thermalMaterial st) (heatMesh_scale st)
    (video st) (videoTexture st) (maskTexture st) (videoReady st)
    (textureReady st) v (animationValues st) (textures_made st).

Definition set_animationValues (v : AnimationValues) (st : t) : t :=
  mk (rendererWrapper st) (drawRenderer st) (interactionManager st)
    (parameterController st) (thermalMaterial st) (heatMesh_scale st)
    (video st) (videoTexture st) (maskTexture st) (videoReady st)
    (textureReady st) (heatUp st) v (textures_made st).

(** *** The callbacks handed to the components *)

(** [onPositionUpdate]: copy the position into the mouse target and
    push the direction to the accumulator. *)
Definition onPositionUpdate (position : Vector3) (direction : Vector2)
  (st : t) : t :=
  let av := animationValues st in
  let st :=
    set_animationValues
      (mkAnimationValues (blendVideo av) (amount av)
         (mkMouseAnim (Anim.position (mouse av)) position)
         (move av) (scrollAnimation av)) st in
  set_drawRenderer
    (DrawRenderer.updateDirection direction (drawRenderer st)) st.

(** [onInteractionChange] *)
Definition onInteractionChange (isInteracting : bool) (st : t) : t :=
  let av := animationValues st in
  let sa := scrollAnimation av in
  set_animationValues
    (mkAnimationValues (blendVideo av) (amount av) (mouse av)
       (mkAV (value (move av))
          (if isInteracting then HOLD_MOVE_TARGET else RELEASE_MOVE_TARGET))
       (mkScroll (opacity sa) (scale sa)
          (mkAV (value (power sa))
             (if isInteracting then HOLD_POWER_TARGET
              else RELEASE_POWER_TARGET)))) st.

(** [onParameterChange]: reads the controller's parameters and pushes
    them to the material. *)
Definition onParameterChange (pc : ParameterController.t)
  (_name : ParamName) (_value : Q) (st : t) : t :=
  let parameters := ParameterController.getAllParameters pc in
  set_thermalMaterial
    (ThermalMaterial.updateFromParameters parameters (thermalMaterial st)) st.

(** [onReset] *)
Definition onReset (pc : ParameterController.t) (st : t) : t :=
  let parameters := ParameterController.getAllParameters pc in
  let st :=
    set_thermalMaterial
      (ThermalMaterial.updateFromParameters parameters (thermalMaterial st))
      st in
  set_heatUp 0 st.

(** Running a method of a component on the scene that owns it. *)
Definition with_interaction
  (m : InteractionManager.t * t -> InteractionManager.t * t) (st : t) : t :=
  let (im, st) := m (interactionManager st, st) in
  set_interactionManager im st.

Definition with_controller
  (m : ParameterController.t * t -> ParameterController.t * t) (st : t) : t :=
  let (pc, st) := m (parameterController st, st) in
  set_parameterController pc st.

(** *** [init()], seen once it has completed *)

Definition init (isMobile : bool) (r : AppRenderer) : t :=
  let (dr, made) :=
    DrawRenderer.new 256
      (DrawRenderer.mkOptions (Some 1000) (Some isMobile)) 0%nat in
  let mask := made in
  {| rendererWrapper := r;
     drawRenderer := dr;
     interactionManager := InteractionManager.new;
     parameterController := ParameterController.new;
     thermalMaterial :=
       ThermalMaterial.createUniforms
         (ThermalMaterial.mkConfig (DrawRenderer.getTexture dr) None mask);
     heatMesh_scale := mkVector3 1 1 1;
     video := mkVideo 0 true;
     videoTexture := None;
     maskTexture := mask;
     videoReady := false;
     textureReady := false;
     heatUp := 0;
     animationValues := Anim.initial;
     textures_made := S made |}.

(** [handleVideoReady()] *)
Definition handleVideoReady (playAllowed : bool) (st : t) : t :=
  if videoReady st then st
  else
    let vt := textures_made st in
    let av := animationValues st in
    {| rendererWrapper := rendererWrapper st;
       drawRenderer := drawRenderer st;
       interactionManager := interactionManager st;
       parameterController := parameterController st;
       thermalMaterial :=
         ThermalMaterial.updateTextures_video vt (thermalMaterial st);
       heatMesh_scale := heatMesh_scale st;
       video := play playAllowed (video st);
       videoTexture := Some vt;
       maskTexture := maskTexture st;
       videoReady := true;
       textureReady := true;
       heatUp := heatUp st;
       animationValues :=
         mkAnimationValues (mkAV 1 (target (blendVideo av)))
           (mkAV (value (amount av)) 1) (mouse av) (move av)
           (scrollAnimation av);
       textures_made := S vt |}.

(** [handleToggleVideo()] *)
Definition handleToggleVideo (playAllowed : bool) (st : t) : t :=
  if paused (video st)
  then set_video (play playAllowed (video st)) st
  else set_video (mkVideo (currentTime (video st)) true) st.

(** *** The frame *)

(** [updateAnimationValues(deltaTime)] *)
Definition updateAnimationValues (deltaTime : Q) (st : t) : t :=
  let av := animationValues st in
  let sa := scrollAnimation av in
  let mouse' :=
    mkMouseAnim
      (Vector3_lerp (Anim.position (mouse av)) (mouse_target (mouse av))
         (lerpSpeed MOUSE_INTERPOLATION_SPEED deltaTime))
      (mouse_target (mouse av)) in
  let move' :=
    mkAV (lerp (value (move av)) (target (move av))
            (lerpSpeed MOVEMENT_INTERPOLATION_SPEED deltaTime))
         (target (move av)) in
  let power' :=
    mkAV (clamp
            (lerp (value (power sa)) (target (power sa))
               (lerpSpeed POWER_INTERPOLATION_SPEED deltaTime))
            POWER_MIN POWER_MAX)
         (target (power sa)) in
  let opacity' :=
    mkAV (lerp (value (opacity sa)) (target (opacity sa) * value move')
            (lerpSpeed SCROLL_INTERPOLATION_SPEED deltaTime))
         (target (opacity sa)) in
  let scale' :=
    mkAV (lerp (value (scale sa)) (target (scale sa))
            (lerpSpeed SCROLL_INTERPOLATION_SPEED deltaTime))
         (target (scale sa)) in
  let amount' :=
    if JS.lt (value (amount av)) 0.99999
    then mkAV (lerp (value (amount av)) (target (amount av))
                 (FADE_IN_SPEED * deltaTime * TARGET_FPS))
              (target (amount av))
    else amount av in
  let blendVideo' :=
    if videoReady st
    then mkAV (lerp (value (blendVideo av)) (target (blendVideo av))
                 (lerpSpeed VIDEO_BLEND_SPEED deltaTime))
              (target (blendVideo av))
    else blendVideo av in
  set_animationValues
    (mkAnimationValues blendVideo' amount' mouse' move'
       (mkScroll opacity' scale' power')) st.

(** [updateVideoLoop()] *)
Definition updateVideoLoop (st : t) : t :=
  if negb (videoReady st) then st
  else if JS.ge (currentTime (video st)) LOOP_END_TIME
       then set_video (mkVideo LOOP_START_TIME (paused (video st))) st
       else st.

(** [updateHeatInteraction(deltaTime)] *)
Definition updateHeatInteraction (deltaTime : Q) (st : t) : t :=
  if negb (videoReady st) then st
  else
    let interactionState :=
      InteractionManager.getInteractionState (interactionManager st) in
    let mouseState :=
      InteractionManager.getMouseState (interactionManager st) in
    let parameters :=
      ParameterController.getAllParameters (parameterController st) in
    let p := InteractionManager.position mouseState in
    let dr := DrawRenderer.updatePosition (x3 p) (y3 p) true
                (drawRenderer st) in
    let heat :=
      if InteractionManager.hold interactionState
      then JS.Math_min
             (heatUp st + heatSensitivity parameters * deltaTime * TARGET_FPS)
             HEAT_MAX_VALUE
      else heatUp st in
    let dr := DrawRenderer.updateDraw heat dr in
    let heat := heat * heatDecay parameters in
    let heat := if JS.lt heat HEAT_CLEANUP_THRESHOLD then 0 else heat in
    let im := InteractionManager.updateMousePosition
                (lerpSpeed MOUSE_INTERPOLATION_SPEED deltaTime)
                (interactionManager st) in
    set_interactionManager im (set_heatUp heat (set_drawRenderer dr st)).

(** [updateThermalMaterial()]; [rnd] is the value of [Math.random()]. *)
Definition updateThermalMaterial (rnd : Q) (st : t) : t :=
  let parameters :=
    ParameterController.getAllParameters (parameterController st) in
  let sa := scrollAnimation (animationValues st) in
  set_thermalMaterial
    (ThermalMaterial.updateUniforms
       {| ThermalMaterial.upd_opacity := Some (value (opacity sa));
          ThermalMaterial.upd_amount :=
            Some (value (amount (animationValues st)));
          ThermalMaterial.upd_power := Some (contrastPower parameters);
          ThermalMaterial.upd_blendVideo :=
            Some (videoBlendAmount parameters);
          ThermalMaterial.upd_effectIntensity := None;
          ThermalMaterial.upd_colorSaturation := None;
          ThermalMaterial.upd_gradientShift := None;
          ThermalMaterial.upd_interactionSize := None;
          ThermalMaterial.upd_randomValue := Some rnd |}
       (thermalMaterial st)) st.

(** [updateMeshTransform()] *)
Definition updateMeshTransform (st : t) : t :=
  let scale := value (scale (scrollAnimation (animationValues st))) in
  set_heatMesh_scale (mkVector3 scale scale scale) st.

(** [updateDrawRenderer()] *)
Definition updateDrawRenderer (st : t) : t :=
  set_drawRenderer
    (DrawRenderer.updateDirection (mkVector2 0 0) (drawRenderer st)) st.

(** [update(deltaTime)] *)
Definition update (deltaTime rnd : Q) (st : t) : t :=
  if negb (textureReady st) then st
  else
    let st := updateAnimationValues deltaTime st in
    let st := updateVideoLoop st in
    let st := updateHeatInteraction deltaTime st in
    let st := updateThermalMaterial rnd st in
    let st := updateMeshTransform st in
    updateDrawRenderer st.

(** *** The parameter surface *)

(** [setParameter(name, value)] *)
Definition setParameter (name : ParamName) (value : Q) (st : t) : t :=
  with_controller
    (ParameterController.setParameter onParameterChange name value) st.

(** [resetParameters()] *)
Definition resetParameters (st : t) : t :=
  with_controller (ParameterController.resetToDefaults onParameterChange) st.

(** [getParameters()] *)
Definition getParameters (st : t) : EffectParameters :=
  ParameterController.getAllParameters (parameterController st).

(** A click on the reset button of the HUD. *)
Definition resetButton (st : t) : t :=
  with_controller
    (ParameterController.resetButton onParameterChange onReset) st.

(** *** [AppRenderer.loop()]: one display frame *)
Definition loop (rnd : Q) (st : t) : t :=
  let st := update (1 / 60) rnd st in
  let rw := rendererWrapper st in
  let dr := DrawRenderer.resize (width (rect rw)) (height (rect rw))
              (drawRenderer st) in
  let (dr, r) := DrawRenderer.render dr (renderer rw) in
  let canvas := DrawRenderer.target_texture
                  (DrawRenderer.currentRenderTarget r) in
  let r := DrawRenderer.mkRenderer (DrawRenderer.currentRenderTarget r) true
             (DrawRenderer.commands r
                ++ [DrawRenderer.Clear canvas; DrawRenderer.DrawScene canvas])
  in
  set_rendererWrapper (mkAppRenderer (rect rw) r) (set_drawRenderer dr st).

(** *** Everything that can happen to the scene *)
Inductive Event :=
| Update (deltaTime rnd : Q)
| Loop (rnd : Q)
| VideoReady (playAllowed : bool)
| VideoClock (time : Q)
| ToggleVideo (playAllowed : bool)
| PointerMove (clientX clientY : Q) (bounds : DOMRect)
| PointerDown (clientX clientY : Q) (bounds : DOMRect)
| PointerEnter (clientX clientY : Q) (bounds : DOMRect)
| PointerUp
| PointerLeave
| GlobalPointerMove (clientX clientY : Q) (bounds : DOMRect)
| SetParameter (name : ParamName) (value : Q)
| ResetParameters
| ResetButton.

Definition step (st : t) (e : Event) : t :=
  match e with
  | Update dt rnd => update dt rnd st
  | Loop rnd => loop rnd st
  | VideoReady a => handleVideoReady a st
  | VideoClock time => set_video (mkVideo time (paused (video st))) st
  | ToggleVideo a => handleToggleVideo a st
  | PointerMove x y b =>
      with_interaction
        (InteractionManager.handlePointerMove onPositionUpdate
           onInteractionChange x y b) st
  | PointerDown x y b =>
      with_interaction
        (InteractionManager.handlePointerDown onPositionUpdate
           onInteractionChange x y b) st
  | PointerEnter x y b =>
      with_interaction
        (InteractionManager.handlePointerEnter onPositionUpdate x y b) st
  | PointerUp =>
      with_interaction
        (InteractionManager.handlePointerUp onInteractionChange) st
  | PointerLeave =>
      with_interaction
        (InteractionManager.handlePointerLeave onInteractionChange) st
  | GlobalPointerMove x y b =>
      with_interaction
        (InteractionManager.handleGlobalPointerMove onPositionUpdate
           onInteractionChange x y b) st
  | SetParameter name v => setParameter name v st
  | ResetParameters => resetParameters st
  | ResetButton => resetButton st
  end.

Definition run (es : list Event) (st : t) : t := fold_left step es st.

End Scene.

(** ** scenes/AppScene.ts: the monolithic scene

    Its [lerp] and [lerpSpeed] methods are the two one-liners of
    [MathUtils], and its uniform object has the fields of
    [ThermalShaderUniforms].  [heat_uniforms] and [heat_scale] are the
    uniforms of the material of the [heat] mesh and the [scale] of the
    mesh; [lastNX]/[lastNY] are the two variables captured by the
    local pointer handler and [_winLastNX]/[_winLastNY] the fields the
    window handler bolts onto the scene.  As for [Scene], the record
    is the scene once [init()] has completed and the camera is left
    out. *)

Module LegacyScene.

Import Three MathUtils Constants Anim.

Record t := mk
  { rendererWrapper : AppRenderer;
    drawRenderer : DrawRenderer.t;
    heat_uniforms : ThermalMaterial.ThermalShaderUniforms;
    heat_scale : Vector3;
    video : Video;
    videoTexture : option TextureId;
    maskTexture : TextureId;
    videoReady : bool;
    textureReady : bool;
    isUserPaused : bool;
    animationValues : AnimationValues;
    hold : bool;
    heatUp : Q;
    parameters : EffectParameters;
    lastNX : Q;
    lastNY : Q;
    _winLastNX : option Q;
    _winLastNY : option Q;
    (** number of texture objects created so far *)
    textures_made : TextureId }.

(** The interaction part of the state and the rest, written at once. *)
Definition set_pointer (av : AnimationValues) (dr : DrawRenderer.t)
  (h : bool) (st : t) : t :=
  mk (rendererWrapper st) dr (heat_uniforms st) (heat_scale st) (video st)
    (videoTexture st) (maskTexture st) (videoReady st) (textureReady st)
    (isUserPaused st) av h (heatUp st) (parameters st) (lastNX st)
    (lastNY st) (_winLastNX st) (_winLastNY st) (textures_made st).

Definition set_last (nx ny : Q) (st : t) : t :=
  mk (rendererWrapper st) (drawRenderer st) (heat_uniforms st)
    (heat_scale st) (video st) (videoTexture st) (maskTexture st)
    (videoReady st) (textureReady st) (isUserPaused st)
    (animationValues st) (hold st) (heatUp st) (parameters st) nx ny
    (_winLastNX st) (_winLastNY st) (textures_made st).

Definition set_winLast (nx ny : Q) (st : t) : t :=
  mk (rendererWrapper st) (drawRenderer st) (heat_uniforms st)
    (heat_scale st) (video st) (videoTexture st) (maskTexture st)
    (videoReady st) (textureReady st) (isUserPaused st)
    (animationValues st) (hold st) (heatUp st) (parameters st) (lastNX st)
    (lastNY st) (Some nx) (Some ny) (textures_made st).

Definition set_hold (h : bool) (st : t) : t :=
  set_pointer (animationValues st) (drawRenderer st) h st.

Definition set_parameters (p : EffectParameters) (st : t) : t :=
  mk (rendererWrapper st) (drawRenderer st) (heat_uniforms st)
    (heat_scale st) (video st) (videoTexture st) (maskTexture st)
    (videoReady st) (textureReady st) (isUserPaused st)
    (animationValues st) (hold st) (heatUp st) p (lastNX st) (lastNY st)
    (_winLastNX st) (_winLastNY st) (textures_made st).

Definition set_video (v : Video) (userPaused : bool) (st : t) : t :=
  mk (rendererWrapper st) (drawRenderer st) (heat_uniforms st)
    (heat_scale st) v (videoTexture st) (maskTexture st) (videoReady st)
    (textureReady st) userPaused (animationValues st) (hold st) (heatUp st)
    (parameters st) (lastNX st) (lastNY st) (_winLastNX st) (_winLastNY st)
    (textures_made st).

Definition set_animationValues (av : AnimationValues) (st : t) : t :=
  set_pointer av (drawRenderer st) (hold st) st.

Definition set_rendering (rw : AppRenderer) (dr : DrawRenderer.t) (st : t)
  : t :=
  mk rw dr (heat_uniforms st) (heat_scale st) (video st) (videoTexture st)
    (maskTexture st) (videoReady st) (textureReady st) (isUserPaused st)
    (animationValues st) (hold st) (heatUp st) (parameters st) (lastNX st)
    (lastNY st) (_winLastNX st) (_winLastNY st) (textures_made st).

(** [init()], seen once it has completed *)
Definition init (isMobile : bool) (r : AppRenderer) : t :=
  let (dr, made) :=
    DrawRenderer.new 256
      (DrawRenderer.mkOptions (Some 1000) (Some isMobile)) 0%nat in
  let mask := made in
  {| rendererWrapper := r;
     drawRenderer := dr;
     heat_uniforms :=
       ThermalMaterial.createUniforms
         (ThermalMaterial.mkConfig (DrawRenderer.getTexture dr) None mask);
     heat_scale := mkVector3 1 1 1;
     video := mkVideo 0 true;
     videoTexture := None;
     maskTexture := mask;
     videoReady := false;
     textureReady := false;
     isUserPaused := false;
     animationValues := Anim.initial;
     hold := false;
     heatUp := 0;
     parameters := DEFAULT_PARAMETERS;
     lastNX := 0.5;
     lastNY := 0.5;
     _winLastNX := None;
     _winLastNY := None;
     textures_made := S made |}.

(** [onVideoReady()] *)
Definition onVideoReady (playAllowed : bool) (st : t) : t :=
  if videoReady st then st
  else
    let vt := textures_made st in
    let av := animationValues st in
    {| rendererWrapper := rendererWrapper st;
       drawRenderer := drawRenderer st;
       heat_uniforms := heat_uniforms st;
       heat_scale := heat_scale st;
       video := play playAllowed (video st);
       videoTexture := Some vt;
       maskTexture := maskTexture st;
       videoReady := true;
       textureReady := true;
       isUserPaused := isUserPaused st;
       animationValues :=
         mkAnimationValues (mkAV 1 (target (blendVideo av)))
           (mkAV (value (amount av)) 1) (mouse av) (move av)
           (scrollAnimation av);
       hold := hold st;
       heatUp := heatUp st;
       parameters := parameters st;
       lastNX := lastNX st;
       lastNY := lastNY st;
       _winLastNX := _winLastNX st;
       _winLastNY := _winLastNY st;
       textures_made := S vt |}.

(** The body shared by the two pointer closures: normalise, aim the
    mouse target, push the direction, raise [hold].  [lastX]/[lastY]
    is the previous normalised position the closure remembers. *)
Definition point (clientX clientY : Q) (rectRef : DOMRect) (lastX lastY : Q)
  (st : t) : t * (Q * Q) :=
  let nx := if JS.gt (width rectRef) 0
            then (clientX - left rectRef) / width rectRef else 0.5 in
  let ny := if JS.gt (height rectRef) 0
            then (clientY - top rectRef) / height rectRef else 0.5 in
  let x := 2 * (nx - 0.5) in
  let y := 2 * - (ny - 0.5) in
  let ndx := nx - lastX in
  let ndy := ny - lastY in
  let av := animationValues st in
  let av := mkAnimationValues (blendVideo av) (amount av)
              (mkMouseAnim (Anim.position (mouse av)) (mkVector3 x y 0))
              (move av) (scrollAnimation av) in
  let dr := DrawRenderer.updateDirection (mkVector2 ndx ndy)
              (drawRenderer st) in
  (set_pointer av dr true st, (nx, ny)).

(** The closure [update] of [attachPointerEvents] *)
Definition pointer_update (cx cy : Q) (rectRef : DOMRect) (st : t) : t :=
  let (st, n) := point cx cy rectRef (lastNX st) (lastNY st) st in
  set_last (fst n) (snd n) st.

(** The closure [updateWin] of [init] *)
Definition updateWin (clientX clientY : Q) (rectRef : DOMRect) (st : t) : t :=
  let (st, n) :=
    point clientX clientY rectRef (JS.nullish (_winLastNX st) 0.5)
      (JS.nullish (_winLastNY st) 0.5) st in
  set_winLast (fst n) (snd n) st.

(** [onScroll()]; [top] and [height] are those of the rectangle of
    the scroll element. *)
Definition onScroll (rect_top rect_height : Q) (st : t) : t :=
  let half := 0.5 * rect_height in
  let r := rect_top / half in
  let r := if JS.gt r 0 then 0 else Qabs r in
  let a := lerp 1 0.5 r in
  let a := if JS.lt a 0.5 then 0.5 else a in
  let s := lerp 1 1.1 r in
  let s := if JS.gt s 1.1 then 1.1 else s in
  let av := animationValues st in
  let sa := scrollAnimation av in
  set_animationValues
    (mkAnimationValues (blendVideo av) (amount av) (mouse av) (move av)
       (mkScroll (mkAV (value (opacity sa)) a) (mkAV (value (scale sa)) s)
          (power sa))) st.

(** [onToggle()] *)
Definition onToggle (playAllowed : bool) (st : t) : t :=
  if paused (video st)
  then set_video (play playAllowed (video st)) false st
  else set_video (mkVideo (currentTime (video st)) true) true st.

(** [setParameter(name, value)] *)
Definition setParameter (name : ParamName) (value : Q) (st : t) : t :=
  set_parameters (set name value (parameters st)) st.

(** [resetParameters()] *)
Definition resetParameters (st : t) : t :=
  set_parameters
    {| effectIntensity := 1.0;
       contrastPower := 0.8;
       colorSaturation := 1.3;
       heatSensitivity := 0.5;
       videoBlendAmount := 1.0;
       gradientShift := 0.0;
       heatDecay := 0.95;
       interactionRadius := 1.0;
       reactivity := 1.0 |} st.

(** [update(dt)]; [rnd] is the value of [Math.random()]. *)
Definition update (dt rnd : Q) (st : t) : t :=
  if negb (textureReady st) then st
  else
    let av := animationValues st in
    let sa := scrollAnimation av in
    (* smooth mouse position interpolation *)
    let mouse' :=
      mkMouseAnim
        (Vector3_lerp (Anim.position (mouse av)) (mouse_target (mouse av))
           (lerpSpeed 0.8 dt))
        (mouse_target (mouse av)) in
    (* movement based targets *)
    let move_target := if hold st then 0.95 else 1.0 in
    let power_target := if hold st then 1.0 else 0.8 in
    let move_value := lerp (value (move av)) move_target (lerpSpeed 0.01 dt) in
    let power_value :=
      lerp (value (power sa)) power_target (lerpSpeed 0.01 dt) in
    (* clamp power value to valid range *)
    let power_value := if JS.lt power_value 0.8 then 0.8 else power_value in
    let power_value := if JS.gt power_value 1.0 then 1.0 else power_value in
    let opacity_value :=
      lerp (value (opacity sa)) (target (opacity sa) * move_value)
        (lerpSpeed 0.2 dt) in
    let scale_value :=
      lerp (value (scale sa)) (target (scale sa)) (lerpSpeed 0.2 dt) in
    (* fade in on startup *)
    let amount_value :=
      if JS.lt (value (amount av)) 0.99999
      then lerp (value (amount av)) (target (amount av)) (0.1 * dt * 60)
      else value (amount av) in
    (* video and interaction updates *)
    let vid :=
      if videoReady st
      then if JS.ge (currentTime (video st)) 11.95
           then mkVideo 2.95 (paused (video st)) else video st
      else video st in
    let dr :=
      if videoReady st
      then DrawRenderer.updatePosition (x3 (Anim.position mouse'))
             (y3 (Anim.position mouse')) true (drawRenderer st)
      else drawRenderer st in
    let heat :=
      if videoReady st
      then if hold st
           then let h := heatUp st + heatSensitivity (parameters st) * dt * 60
                in if JS.gt h 1.3 then 1.3 else h
           else heatUp st
      else heatUp st in
    let dr := if videoReady st then DrawRenderer.updateDraw heat dr else dr in
    let blend_value :=
      if videoReady st
      then lerp (value (blendVideo av)) (target (blendVideo av))
             (lerpSpeed 0.1 dt)
      else value (blendVideo av) in
    (* shader uniforms and mesh scale *)
    let u := heat_uniforms st in
    let u :=
      ThermalMaterial.updateUniforms
        {| ThermalMaterial.upd_opacity := Some opacity_value;
           ThermalMaterial.upd_amount := Some amount_value;
           ThermalMaterial.upd_power := Some (contrastPower (parameters st));
           ThermalMaterial.upd_blendVideo :=
             Some (videoBlendAmount (parameters st));
           ThermalMaterial.upd_effectIntensity :=
             Some (effectIntensity (parameters st));
           ThermalMaterial.upd_colorSaturation :=
             Some (colorSaturation (parameters st));
           ThermalMaterial.upd_gradientShift :=
             Some (gradientShift (parameters st));
           ThermalMaterial.upd_interactionSize :=
             Some (interactionRadius (parameters st));
           ThermalMaterial.upd_randomValue := Some rnd |} u in
    let u := match videoTexture st with
             | Some vt => ThermalMaterial.updateTextures_video vt u
             | None => u
             end in
    let mesh_scale := mkVector3 scale_value scale_value scale_value in
    (* cool down *)
    let heat := heat * heatDecay (parameters st) in
    let heat := if JS.lt heat 0.001 then 0 else heat in
    (* reset interaction state for next frame *)
    let dr := DrawRenderer.updateDirection (mkVector2 0 0) dr in
    {| rendererWrapper := rendererWrapper st;
       drawRenderer := dr;
       heat_uniforms := u;
       heat_scale := mesh_scale;
       video := vid;
       videoTexture := videoTexture st;
       maskTexture := maskTexture st;
       videoReady := videoReady st;
       textureReady := textureReady st;
       isUserPaused := isUserPaused st;
       animationValues :=
         mkAnimationValues (mkAV blend_value (target (blendVideo av)))
           (mkAV amount_value (target (amount av))) mouse'
           (mkAV move_value move_target)
           (mkScroll (mkAV opacity_value (target (opacity sa)))
              (mkAV scale_value (target (scale sa)))
              (mkAV power_value power_target));
       hold := false;
       heatUp := heat;
       parameters := parameters st;
       lastNX := lastNX st;
       lastNY := lastNY st;
       _winLastNX := _winLastNX st;
       _winLastNY := _winLastNY st;
       textures_made := textures_made st |}.

(** [AppRenderer.loop()]: one display frame *)
Definition loop (rnd : Q) (st : t) : t :=
  let st := update (1 / 60) rnd st in
  let rw := rendererWrapper st in
  let dr := DrawRenderer.resize (width (rect rw)) (height (rect rw))
              (drawRenderer st) in
  let (dr, r) := DrawRenderer.render dr (renderer rw) in
  let canvas := DrawRenderer.target_texture
                  (DrawRenderer.currentRenderTarget r) in
  let r := DrawRenderer.mkRenderer (DrawRenderer.currentRenderTarget r) true
             (DrawRenderer.commands r
                ++ [DrawRenderer.Clear canvas; DrawRenderer.DrawScene canvas])
  in
  set_rendering (mkAppRenderer (rect rw) r) dr st.

(** Everything that can happen to the scene *)
Inductive Event :=
| Update (dt rnd : Q)
| Loop (rnd : Q)
| VideoReady (playAllowed : bool)
| VideoClock (time : Q)
| Toggle (playAllowed : bool)
| PointerMove (clientX clientY : Q) (bounds : DOMRect)
| PointerDown (clientX clientY : Q) (bounds : DOMRect)
| PointerEnter (clientX clientY : Q) (bounds : DOMRect)
| PointerUp
| PointerLeave
| WindowPointerMove (clientX clientY : Q) (bounds : DOMRect)
| Scroll (rect_top rect_height : Q)
| SetParameter (name : ParamName) (value : Q)
| ResetParameters.

Definition step (st : t) (e : Event) : t :=
  match e with
  | Update dt rnd => update dt rnd st
  | Loop rnd => loop rnd st
  | VideoReady a => onVideoReady a st
  | VideoClock time =>
      set_video (mkVideo time (paused (video st))) (isUserPaused st) st
  | Toggle a => onToggle a st
  | PointerMove x y b => pointer_update x y b st
  | PointerDown x y b => set_hold true (pointer_update x y b st)
  | PointerEnter x y b => pointer_update x y b st
  | PointerUp => set_hold false st
  | PointerLeave => set_hold false st
  | WindowPointerMove x y b => updateWin x y b st
  | Scroll rt rh => onScroll rt rh st
  | SetParameter name v => setParameter name v st
  | ResetParameters => resetParameters st
  end.

Definition run (es : list Event) (st : t) : t := fold_left step es st.

(** The events after which [hold] is true: the pointer moving over,
    entering or pressing on the hit area or moving over the window. *)
Definition raises_hold (e : Event) : bool :=
  match e with
  | PointerMove _ _ _ | PointerDown _ _ _ | PointerEnter _ _ _
  | WindowPointerMove _ _ _ => true
  | _ => false
  end.

End LegacyScene.

(* ================================================================= *)
(** * Part II: properties *)
(* ================================================================= *)

(** ** Comparisons, minimum and maximum *)

Lemma lt_true (a b : Q) : JS.lt a b = true <-> a < b.
Proof.
  unfold JS.lt. rewrite negb_true_iff. split; intro H.
  - apply Qnot_le_lt. intro C. apply Qle_bool_iff in C. congruence.
  - destruct (Qle_bool b a) eqn:E; [|reflexivity].
    apply Qle_bool_iff in E. lra.
Qed.

Lemma lt_false (a b : Q) : JS.lt a b = false <-> b <= a.
Proof.
  unfold JS.lt. rewrite negb_false_iff. apply Qle_bool_iff.
Qed.

Lemma gt_true (a b : Q) : JS.gt a b = true <-> b < a.
Proof. apply lt_true. Qed.

Lemma gt_false (a b : Q) : JS.gt a b = false <-> a <= b.
Proof. apply lt_false. Qed.

Lemma ge_true (a b : Q) : JS.ge a b = true <-> b <= a.
Proof. apply Qle_bool_iff. Qed.

(** Case analysis on the first comparison in the goal, leaving the
    order fact among the hypotheses. *)
Ltac js_case :=
  match goal with
  | |- context [JS.lt ?a ?b] =>
      let E := fresh "E" in
      destruct (JS.lt a b) eqn:E;
      [apply lt_true in E | apply lt_false in E]
  | |- context [JS.gt ?a ?b] =>
      let E := fresh "E" in
      destruct (JS.gt a b) eqn:E;
      [apply gt_true in E | apply gt_false in E]
  end.

(** Replaces one [Qmax] or [Qmin] by a fresh number that satisfies the
    specification of the operation. *)
Ltac minmax_step :=
  match goal with
  | |- context [Qmax ?a ?b] =>
      let m := fresh "m" in
      let H := fresh "H" in
      pose proof (Q.max_spec a b) as H;
      set (m := Qmax a b) in *; clearbody m; destruct H as [[? ?]|[? ?]]
  | |- context [Qmin ?a ?b] =>
      let m := fresh "m" in
      let H := fresh "H" in
      pose proof (Q.min_spec a b) as H;
      set (m := Qmin a b) in *; clearbody m; destruct H as [[? ?]|[? ?]]
  | _ : context [Qmax ?a ?b] |- _ =>
      let m := fresh "m" in
      let H := fresh "H" in
      pose proof (Q.max_spec a b) as H;
      set (m := Qmax a b) in *; clearbody m; destruct H as [[? ?]|[? ?]]
  | _ : context [Qmin ?a ?b] |- _ =>
      let m := fresh "m" in
      let H := fresh "H" in
      pose proof (Q.min_spec a b) as H;
      set (m := Qmin a b) in *; clearbody m; destruct H as [[? ?]|[? ?]]
  end.

Ltac minmax :=
  unfold MathUtils.clamp, Glsl.clamp, JS.Math_max, JS.Math_min in *;
  repeat minmax_step.

(** [clamp] lands in the interval. *)
Lemma clamp_in_range (v lo hi : Q) :
  lo <= hi -> lo <= MathUtils.clamp v lo hi <= hi.
Proof. intros. minmax; lra. Qed.

(** The order in which the controller nests [Math.max] and [Math.min]
    computes the same number as [clamp]. *)
Lemma max_min_is_clamp (v lo hi : Q) :
  lo <= hi ->
  JS.Math_max lo (JS.Math_min hi v) == MathUtils.clamp v lo hi.
Proof. intros. minmax; lra. Qed.

(** Every declared range is a proper interval. *)
Lemma ranges_declared (name : Constants.ParamName) :
  exists r, Constants.PARAMETER_RANGES name = Some r
            /\ Constants.min r <= Constants.max r.
Proof.
  destruct name; eexists; (split; [reflexivity|]); simpl; lra.
Qed.

(** ** The parameter surface *)

Section ParameterSurface.

Import Constants.

Lemma get_set_same (name : ParamName) (v : Q) (p : EffectParameters) :
  get name (set name v p) = v.
Proof. destruct p, name; reflexivity. Qed.

Context {Host : Type}.
Variable onParameterChange :
  ParameterController.t -> ParamName -> Q -> Host -> Host.

(** What [setParameter] stores, whatever the callback does. *)
Lemma setParameter_stores (name : ParamName) (v : Q)
  (pc : ParameterController.t) (h : Host) (r : Range) :
  PARAMETER_RANGES name = Some r ->
  ParameterController.getParameter name
    (fst (ParameterController.setParameter onParameterChange name v (pc, h)))
  = JS.Math_max (min r) (JS.Math_min (max r) v).
Proof.
  intros Hr. unfold ParameterController.setParameter,
    ParameterController.getParameter. rewrite Hr. simpl.
  apply get_set_same.
Qed.

(** The controls loop of [resetToDefaults] moves sliders only. *)
Lemma reset_loop_parameters (names : list ParamName)
  (pc : ParameterController.t) (h : Host) :
  ParameterController.parameters
    (fst (fold_left
       (fun (s : ParameterController.t * Host) param =>
          let (pc, host) := s in
          let defaultValue := get param DEFAULT_PARAMETERS in
          let pc := ParameterController.setValue param defaultValue pc in
          (pc, onParameterChange pc param defaultValue host))
       names (pc, h)))
  = ParameterController.parameters pc.
Proof.
  revert pc h. induction names as [|n names IH]; intros pc h; simpl.
  - reflexivity.
  - rewrite IH. reflexivity.
Qed.

Lemma resetToDefaults_parameters (s : ParameterController.t * Host) :
  ParameterController.getAllParameters
    (fst (ParameterController.resetToDefaults onParameterChange s))
  = DEFAULT_PARAMETERS.
Proof.
  destruct s as [pc h]. unfold ParameterController.resetToDefaults,
    ParameterController.getAllParameters.
  rewrite reset_loop_parameters. reflexivity.
Qed.

End ParameterSurface.


(** The monolithic scene has neither a range table nor a
    [getParameter]: its [setParameter] stores the number as given. *)
Lemma legacy_setParameter_stores_value (name : Constants.ParamName) (v : Q)
  (st : LegacyScene.t) :
  Constants.get name
    (LegacyScene.parameters (LegacyScene.setParameter name v st)) = v.
Proof. apply get_set_same. Qed.


(** C9.  After any sequence of [setParameter] calls, one
    [resetToDefaults()] leaves the nine documented defaults, whatever
    was stored before: in the controller (under any callback), in the
    component scene through [resetParameters()] and the reset button,
    and in the monolithic scene through its [resetParameters()]. *)
Theorem resetToDefaults_restores_all_defaults :
  Constants.DEFAULT_PARAMETERS
    = Constants.mkEffectParameters 1.0 0.8 1.3 0.5 1.0 0.0 0.95 1.0 1.0
  /\ (forall (Host : Type)
             (cb : ParameterController.t -> Constants.ParamName -> Q ->
                   Host -> Host)
             (writes : list (Constants.ParamName * Q))
             (s : ParameterController.t * Host),
        ParameterController.getAllParameters
          (fst (ParameterController.resetToDefaults cb
                  (fold_left
                     (fun s w =>
                        ParameterController.setParameter cb (fst w) (snd w) s)
                     writes s)))
        = Constants.DEFAULT_PARAMETERS)
  /\ (forall (writes : list (Constants.ParamName * Q)) (st : Scene.t),
        let st' :=
          fold_left (fun st w => Scene.setParameter (fst w) (snd w) st)
            writes st in
        Scene.getParameters (Scene.resetParameters st')
          = Constants.DEFAULT_PARAMETERS
        /\ Scene.getParameters (Scene.resetButton st')
           = Constants.DEFAULT_PARAMETERS)
  /\ (forall (writes : list (Constants.ParamName * Q)) (st : LegacyScene.t),
        LegacyScene.parameters
          (LegacyScene.resetParameters
             (fold_left
                (fun st w => LegacyScene.setParameter (fst w) (snd w) st)
                writes st))
        = Constants.DEFAULT_PARAMETERS).
Proof.
  split; [reflexivity|]. split; [|split].
  - intros Host cb writes s. apply resetToDefaults_parameters.
  - intros writes st st'. generalize st'. clear. intros st. split.
    + unfold Scene.getParameters, Scene.resetParameters, Scene.with_controller.
      destruct (ParameterController.resetToDefaults _ _) as [pc h] eqn:E.
      simpl.
      change pc with (fst (pc, h)). rewrite <- E.
      apply resetToDefaults_parameters.
    + unfold Scene.getParameters, Scene.resetButton, Scene.with_controller,
        ParameterController.resetButton.
      destruct (ParameterController.resetToDefaults _ _) as [pc h] eqn:E.
      simpl.
      change pc with (fst (pc, h)). rewrite <- E.
      apply resetToDefaults_parameters.
  - intros writes st. reflexivity.
Qed.

(** ** Frames before the assets are ready *)

Lemma Scene_update_not_ready (deltaTime rnd : Q) (st : Scene.t) :
  Scene.textureReady st = false -> Scene.update deltaTime rnd st = st.
Proof. intros H. unfold Scene.update. rewrite H. reflexivity. Qed.

Lemma Legacy_update_not_ready (dt rnd : Q) (st : LegacyScene.t) :
  LegacyScene.textureReady st = false -> LegacyScene.update dt rnd st = st.
Proof. intros H. unfold LegacyScene.update. rewrite H. reflexivity. Qed.

(** C8.  While the texture-ready flag is not set, [update(deltaTime)]
    returns the scene exactly as it was, for every [deltaTime] (and
    every value [Math.random()] would have returned): animation
    values, accumulated heat, the hold flag, the mesh scale, the
    uniforms of the material and of the accumulator are all fields of
    the record that is returned unchanged.  Both scenes. *)
Theorem update_before_ready_changes_nothing :
  forall (deltaTime rnd : Q),
    (forall st : Scene.t,
       Scene.textureReady st = false -> Scene.update deltaTime rnd st = st)
    /\ (forall st : LegacyScene.t,
          LegacyScene.textureReady st = false ->
          LegacyScene.update deltaTime rnd st = st).
Proof.
  intros deltaTime rnd. split; intros st H.
  - apply Scene_update_not_ready. exact H.
  - apply Legacy_update_not_ready. exact H.
Qed.

(** A renderer wrapper to build concrete scenes with: an 800 by 600
    container at the origin, nothing drawn yet. *)
Definition sample_renderer : Anim.AppRenderer :=
  Anim.mkAppRenderer (MathUtils.mkDOMRect 0 0 800 600)
    (DrawRenderer.mkRenderer None true []).

Lemma update_before_ready_changes_nothing_witness :
  Scene.update (1 / 60) 0.5 (Scene.init false sample_renderer)
    = Scene.init false sample_renderer
  /\ LegacyScene.update (1 / 60) 0.5 (LegacyScene.init false sample_renderer)
     = LegacyScene.init false sample_renderer.
Proof.
  split.
  - apply (proj1 (update_before_ready_changes_nothing (1 / 60) 0.5)).
    reflexivity.
  - apply (proj2 (update_before_ready_changes_nothing (1 / 60) 0.5)).
    reflexivity.
Defined.

(** ** The accumulator's two surfaces *)

(** The two render targets of an accumulator own different textures. *)
Definition distinct_targets (dr : DrawRenderer.t) : Prop :=
  DrawRenderer.texture (DrawRenderer.renderTargetA dr)
  <> DrawRenderer.texture (DrawRenderer.renderTargetB dr).

Lemma new_distinct_targets (size : Q) (opts : DrawRenderer.DrawRendererOptions)
  (next : Three.TextureId) :
  distinct_targets (fst (DrawRenderer.new size opts next)).
Proof. unfold distinct_targets. simpl. lia. Qed.

Lemma call_distinct_targets (c : DrawRenderer.Call)
  (s : DrawRenderer.t * DrawRenderer.WebGLRenderer) :
  distinct_targets (fst s) -> distinct_targets (fst (DrawRenderer.call c s)).
Proof.
  destruct s as [dr r]. unfold distinct_targets.
  destruct c; simpl; intros H; try exact H.
  intro E. apply H. symmetry. exact E.
Qed.

Lemma calls_distinct_targets (cs : list DrawRenderer.Call)
  (s : DrawRenderer.t * DrawRenderer.WebGLRenderer) :
  distinct_targets (fst s) -> distinct_targets (fst (DrawRenderer.calls cs s)).
Proof.
  revert s. induction cs as [|c cs IH]; intros s H; simpl.
  - exact H.
  - apply IH. apply call_distinct_targets. exact H.
Qed.

(** One [render] swaps the two targets, for any accumulator. *)
Lemma render_swaps (dr : DrawRenderer.t) (r : DrawRenderer.WebGLRenderer) :
  DrawRenderer.renderTargetA (fst (DrawRenderer.render dr r))
    = DrawRenderer.renderTargetB dr
  /\ DrawRenderer.renderTargetB (fst (DrawRenderer.render dr r))
     = DrawRenderer.renderTargetA dr.
Proof. split; reflexivity. Qed.

(** C4.  Take an accumulator in any state it can be in: built by its
    constructor (any size, options and allocation count) and then put
    through any sequence of its methods, against any renderer.  One
    more [render()] makes [getTexture()] return a texture object
    different from the one it returned before, and a second
    [render()] makes it return the first object again. *)
Theorem render_ping_pong_period_two :
  forall (size : Q) (opts : DrawRenderer.DrawRendererOptions)
         (next : Three.TextureId) (r0 : DrawRenderer.WebGLRenderer)
         (history : list DrawRenderer.Call),
    let s := DrawRenderer.calls history
               (fst (DrawRenderer.new size opts next), r0) in
    let s1 := DrawRenderer.render (fst s) (snd s) in
    let s2 := DrawRenderer.render (fst s1) (snd s1) in
    DrawRenderer.getTexture (fst s1) <> DrawRenderer.getTexture (fst s)
    /\ DrawRenderer.getTexture (fst s2) = DrawRenderer.getTexture (fst s).
Proof.
  intros size opts next r0 history s s1 s2.
  assert (D : distinct_targets (fst s)).
  { apply calls_distinct_targets. apply new_distinct_targets. }
  split.
  - unfold DrawRenderer.getTexture. subst s1.
    rewrite (proj2 (render_swaps (fst s) (snd s))). exact D.
  - reflexivity.
Qed.

(** ** Screen coordinates *)

(** Component-wise equality of points. *)
Definition same_point (p : Three.Vector2) (x y : Q) : Prop :=
  Three.x2 p == x /\ Three.y2 p == y.

(** A positive side makes the first branch of the normalisation run. *)
Lemma normalise_positive (c o side : Q) :
  0 < side ->
  (if JS.gt side 0 then (c - o) / side else 0.5) = (c - o) / side.
Proof.
  intros H. apply gt_true in H. rewrite H. reflexivity.
Qed.

(** C5.  For a bounding rectangle of positive width and height,
    [screenToNDC] sends the top-left corner to (-1, 1), the
    bottom-right corner to (1, -1) and the centre to (0, 0); a pointer
    anywhere in the rectangle lands in [-1,1] on both axes, and moving
    down the screen lowers the second coordinate. *)
Theorem screenToNDC_corners_and_centre :
  forall b : MathUtils.DOMRect,
    0 < MathUtils.width b -> 0 < MathUtils.height b ->
    let l := MathUtils.left b in
    let t := MathUtils.top b in
    let w := MathUtils.width b in
    let h := MathUtils.height b in
    same_point (MathUtils.screenToNDC l t b) (-1) 1
    /\ same_point (MathUtils.screenToNDC (l + w) (t + h) b) 1 (-1)
    /\ same_point (MathUtils.screenToNDC (l + w / 2) (t + h / 2) b) 0 0
    /\ (forall x y : Q,
          l <= x <= l + w -> t <= y <= t + h ->
          -1 <= Three.x2 (MathUtils.screenToNDC x y b) <= 1
          /\ -1 <= Three.y2 (MathUtils.screenToNDC x y b) <= 1)
    /\ (forall x y y' : Q,
          y < y' ->
          Three.y2 (MathUtils.screenToNDC x y' b)
          < Three.y2 (MathUtils.screenToNDC x y b)).
Proof.
  intros b Hw Hh l t w h.
  assert (Ew : ~ w == 0) by (subst w; lra).
  assert (Eh : ~ h == 0) by (subst h; lra).
  unfold same_point, MathUtils.screenToNDC. simpl.
  fold l t w h.
  assert (N : forall c o side, 0 < side ->
              (if JS.gt side 0 then (c - o) / side else 0.5) = (c - o) / side)
    by (intros; apply normalise_positive; assumption).
  repeat split; intros; rewrite ?N by assumption.
  - field. exact Ew.
  - field. exact Eh.
  - field. exact Ew.
  - field. exact Eh.
  - field. exact Ew.
  - field. exact Eh.
  - assert (0 <= (x - l) / w) by (apply Qle_shift_div_l; lra). lra.
  - assert ((x - l) / w <= 1) by (apply Qle_shift_div_r; lra). lra.
  - assert ((y - t) / h <= 1) by (apply Qle_shift_div_r; lra). lra.
  - assert (0 <= (y - t) / h) by (apply Qle_shift_div_l; lra). lra.
  - assert ((y - t) / h < (y' - t) / h).
    { unfold Qdiv. apply Qmult_lt_compat_r.
      - apply Qinv_lt_0_compat. exact Hh.
      - lra. }
    lra.
Qed.

Lemma screenToNDC_corners_and_centre_witness :
  let b := MathUtils.mkDOMRect 10 20 800 600 in
  same_point (MathUtils.screenToNDC 10 20 b) (-1) 1
  /\ same_point (MathUtils.screenToNDC (10 + 800) (20 + 600) b) 1 (-1)
  /\ same_point (MathUtils.screenToNDC (10 + 800 / 2) (20 + 600 / 2) b) 0 0.
Proof.
  intros b.
  assert (Hw : 0 < MathUtils.width b) by (simpl; lra).
  assert (Hh : 0 < MathUtils.height b) by (simpl; lra).
  pose proof (screenToNDC_corners_and_centre b Hw Hh) as H.
  simpl in H.
  destruct H as [H1 [H2 [H3 _]]].
  repeat split; first [apply H1 | apply H2 | apply H3].
Defined.

(** ** The colour ramp *)

Lemma veq_refl (a : Glsl.vec3) : Glsl.veq a a.
Proof. repeat split; reflexivity. Qed.

(** [smoothstep] respects equality of numbers in its third argument. *)
Lemma smoothstep_compat (e0 e1 x x' : Q) :
  x == x' -> Glsl.smoothstep e0 e1 x == Glsl.smoothstep e0 e1 x'.
Proof.
  intros H. unfold Glsl.smoothstep, Glsl.clamp. rewrite H. reflexivity.
Qed.

(** Blending one stop respects equality of the colour so far and of
    the lookup input. *)
Lemma blend_stop_compat (e e' : Q) (c c' : Glsl.vec3) (s : ThermalShader.Stop) :
  e == e' -> Glsl.veq c c' ->
  Glsl.veq (ThermalShader.blend_stop e c s) (ThermalShader.blend_stop e' c' s).
Proof.
  intros He [H1 [H2 H3]].
  unfold ThermalShader.blend_stop, Glsl.mix3, Glsl.veq, Glsl.mix. simpl.
  rewrite (smoothstep_compat _ _ e e' He), H1, H2, H3.
  repeat split; reflexivity.
Qed.

Lemma fold_stops_compat (e e' : Q) (stops : list ThermalShader.Stop)
  (c c' : Glsl.vec3) :
  e == e' -> Glsl.veq c c' ->
  Glsl.veq (fold_left (ThermalShader.blend_stop e) stops c)
           (fold_left (ThermalShader.blend_stop e') stops c').
Proof.
  intros He. revert c c'.
  induction stops as [|s stops IH]; intros c c' Hc; simpl.
  - exact Hc.
  - apply IH. apply blend_stop_compat; assumption.
Qed.

Lemma gradient_at_compat (u : ThermalMaterial.ThermalShaderUniforms)
  (e e' : Q) :
  e == e' ->
  Glsl.veq (ThermalShader.gradient_at u e) (ThermalShader.gradient_at u e').
Proof.
  intros He. unfold ThermalShader.gradient_at.
  apply fold_stops_compat; [exact He | apply veq_refl].
Qed.

(** The shader's sequence of six [mix] steps is the fold over the
    ordered stops, at the input the shader clamps. *)
Lemma gradient_unfolds (u : ThermalMaterial.ThermalShaderUniforms) (t : Q) :
  ThermalShader.gradient u t
  = ThermalShader.gradient_at u
      (Glsl.clamp (t + ThermalMaterial.gradientShift u) 0.0 1.0).
Proof. reflexivity. Qed.

Lemma shader_clamp_is_effective_input
  (u : ThermalMaterial.ThermalShaderUniforms) (t : Q) :
  Glsl.clamp (t + ThermalMaterial.gradientShift u) 0.0 1.0
  == ThermalShader.effective_input u t.
Proof.
  unfold Glsl.clamp, ThermalShader.effective_input.
  assert (Z0 : (0.0 : Q) == 0) by reflexivity.
  assert (Z1 : (1.0 : Q) == 1) by reflexivity.
  rewrite Z0, Z1. reflexivity.
Qed.

Lemma effective_input_cases (u : ThermalMaterial.ThermalShaderUniforms)
  (t : Q) :
  let s := t + ThermalMaterial.gradientShift u in
  0 <= ThermalShader.effective_input u t <= 1
  /\ (s <= 0 -> ThermalShader.effective_input u t == 0)
  /\ (1 <= s -> ThermalShader.effective_input u t == 1)
  /\ (0 <= s <= 1 -> ThermalShader.effective_input u t == s).
Proof.
  intros s. unfold ThermalShader.effective_input. fold s.
  repeat split; intros; minmax; lra.
Qed.

(** The material as the scene creates it, with the shift set to
    [shift]. *)
Definition sample_uniforms (shift : Q)
  : ThermalMaterial.ThermalShaderUniforms :=
  ThermalMaterial.updateUniforms
    (ThermalMaterial.mkUpdates None None None None None None (Some shift)
       None None)
    (ThermalMaterial.createUniforms
       (ThermalMaterial.mkConfig 1%nat None 2%nat)).

(** With the palette of the demo, a lookup past the end of the ramp is
    not the lookup at the wrapped input: 1.2 is looked up at 1 (the
    last stop, red), not at 0.2. *)
Lemma gradient_does_not_wrap :
  let u := sample_uniforms 0 in
  ThermalShader.wrapped_input u 1.2 == 0.2
  /\ Glsl.veq (ThermalShader.gradient u 1.2) (ThermalShader.gradient_at u 1)
  /\ ~ Glsl.veq (ThermalShader.gradient u 1.2)
         (ThermalShader.gradient_at u (ThermalShader.wrapped_input u 1.2)).
Proof.
  intros u. split; [reflexivity|]. split.
  - vm_compute. repeat split.
  - intros [H _]. vm_compute in H. discriminate H.
Qed.

(** C6.  For every uniform set, lookup input [t] and shift: the
    shader's [gradient] is the blend of stop 1 with stops 2 to 7 in
    that order, each with its own midpoint and fade width, evaluated
    at the single effective input [min(max(t + gradientShift, 0), 1)].
    That input lies in [0,1]; it is [t + gradientShift] itself when
    that sum is in [0,1], it is 0 when the sum is below and 1 when
    the sum is above, so the result is the colour at the end of the
    ramp and not the colour at the sum reduced modulo 1. *)
Theorem gradient_shift_then_clamp :
  forall (u : ThermalMaterial.ThermalShaderUniforms) (t : Q),
    let s := t + ThermalMaterial.gradientShift u in
    let e := ThermalShader.effective_input u t in
    Glsl.veq (ThermalShader.gradient u t)
      (fold_left (ThermalShader.blend_stop e) (ThermalShader.ordered_stops u)
         (ThermalMaterial.color1 u))
    /\ map ThermalShader.stop_color (ThermalShader.ordered_stops u)
       = [ThermalMaterial.color2 u; ThermalMaterial.color3 u;
          ThermalMaterial.color4 u; ThermalMaterial.color5 u;
          ThermalMaterial.color6 u; ThermalMaterial.color7 u]
    /\ 0 <= e <= 1
    /\ (0 <= s <= 1 -> e == s)
    /\ (s <= 0 ->
        Glsl.veq (ThermalShader.gradient u t) (ThermalShader.gradient_at u 0))
    /\ (1 <= s ->
        Glsl.veq (ThermalShader.gradient u t) (ThermalShader.gradient_at u 1)).
Proof.
  intros u t s e.
  destruct (effective_input_cases u t) as [R [L [H M]]].
  fold s in L, H, M. fold e in R, L, H, M.
  assert (G : forall e', e == e' ->
                Glsl.veq (ThermalShader.gradient u t)
                  (ThermalShader.gradient_at u e')).
  { intros e' He'. rewrite gradient_unfolds. apply gradient_at_compat.
    rewrite shader_clamp_is_effective_input. exact He'. }
  split; [apply G; reflexivity|].
  split; [reflexivity|].
  split; [exact R|].
  split; [exact M|].
  split; intros Hs; apply G; auto.
Qed.

Lemma gradient_shift_then_clamp_witness :
  let u := sample_uniforms 0.25 in
  Glsl.veq (ThermalShader.gradient u 0.9) (ThermalShader.gradient_at u 1)
  /\ Glsl.veq (ThermalShader.gradient u (-0.5)) (ThermalShader.gradient_at u 0)
  /\ ThermalShader.effective_input u 0.5
     == 0.5 + ThermalMaterial.gradientShift u.
Proof.
  intros u. split; [|split].
  - apply (gradient_shift_then_clamp u 0.9). vm_compute. discriminate.
  - apply (gradient_shift_then_clamp u (-0.5)). vm_compute. discriminate.
  - destruct (gradient_shift_then_clamp u 0.5) as [_ [_ [_ [H _]]]].
    apply H. vm_compute. split; discriminate.
Defined.

(** ** The animated power value *)

Definition Scene_power (st : Scene.t) : Q :=
  Anim.value (Anim.power (Anim.scrollAnimation (Scene.animationValues st))).

Definition Legacy_power (st : LegacyScene.t) : Q :=
  Anim.value
    (Anim.power (Anim.scrollAnimation (LegacyScene.animationValues st))).

(** The steps of the component scene's frame after the first leave
    the animation values alone. *)
Lemma updateVideoLoop_animationValues (st : Scene.t) :
  Scene.animationValues (Scene.updateVideoLoop st) = Scene.animationValues st.
Proof.
  unfold Scene.updateVideoLoop.
  destruct (negb (Scene.videoReady st)); [reflexivity|].
  destruct (JS.ge _ _); reflexivity.
Qed.

Lemma updateHeatInteraction_animationValues (dt : Q) (st : Scene.t) :
  Scene.animationValues (Scene.updateHeatInteraction dt st)
  = Scene.animationValues st.
Proof.
  unfold Scene.updateHeatInteraction.
  destruct (negb (Scene.videoReady st)); reflexivity.
Qed.

Lemma Scene_update_animationValues (dt rnd : Q) (st : Scene.t) :
  Scene.textureReady st = true ->
  Scene.animationValues (Scene.update dt rnd st)
  = Scene.animationValues (Scene.updateAnimationValues dt st).
Proof.
  intros H. unfold Scene.update. rewrite H. simpl.
  rewrite updateHeatInteraction_animationValues.
  apply updateVideoLoop_animationValues.
Qed.

Lemma Scene_update_power (dt rnd : Q) (st : Scene.t) :
  Scene.textureReady st = true ->
  Scene_power (Scene.update dt rnd st)
  = MathUtils.clamp
      (MathUtils.lerp (Scene_power st)
         (Anim.target
            (Anim.power (Anim.scrollAnimation (Scene.animationValues st))))
         (MathUtils.lerpSpeed Constants.POWER_INTERPOLATION_SPEED dt))
      Constants.POWER_MIN Constants.POWER_MAX.
Proof.
  intros H. unfold Scene_power.
  rewrite (Scene_update_animationValues dt rnd st H). reflexivity.
Qed.

Lemma Legacy_update_power_range (dt rnd : Q) (st : LegacyScene.t) :
  LegacyScene.textureReady st = true ->
  0.8 <= Legacy_power (LegacyScene.update dt rnd st) <= 1.0.
Proof.
  intros H. unfold Legacy_power, LegacyScene.update. rewrite H. simpl.
  set (v := MathUtils.lerp _ _ _). clearbody v.
  repeat js_case; lra.
Qed.

Lemma Scene_update_power_range (dt rnd : Q) (st : Scene.t) :
  Scene.textureReady st = true ->
  0.8 <= Scene_power (Scene.update dt rnd st) <= 1.0.
Proof.
  intros H. rewrite (Scene_update_power dt rnd st H).
  apply clamp_in_range. unfold Constants.POWER_MIN, Constants.POWER_MAX. lra.
Qed.

(** A frame keeps the power value in the interval whether or not the
    assets are ready. *)
Lemma Scene_update_power_kept (dt rnd : Q) (st : Scene.t) :
  0.8 <= Scene_power st <= 1.0 ->
  0.8 <= Scene_power (Scene.update dt rnd st) <= 1.0.
Proof.
  intros H. destruct (Scene.textureReady st) eqn:E.
  - apply Scene_update_power_range. exact E.
  - rewrite (Scene_update_not_ready dt rnd st E).
    exact H.
Qed.

Lemma Legacy_update_power_kept (dt rnd : Q) (st : LegacyScene.t) :
  0.8 <= Legacy_power st <= 1.0 ->
  0.8 <= Legacy_power (LegacyScene.update dt rnd st) <= 1.0.
Proof.
  intros H. destruct (LegacyScene.textureReady st) eqn:E.
  - apply Legacy_update_power_range. exact E.
  - rewrite (Legacy_update_not_ready dt rnd st E).
    exact H.
Qed.

(** The part of the component scene that the parameter callbacks
    cannot reach: everything but the controller and the material. *)
Definition Scene_outside_parameters (st : Scene.t) :=
  (Scene.rendererWrapper st, Scene.drawRenderer st,
   Scene.interactionManager st, Scene.heatMesh_scale st, Scene.video st,
   Scene.videoTexture st, Scene.maskTexture st, Scene.videoReady st,
   Scene.textureReady st, Scene.heatUp st, Scene.animationValues st,
   Scene.textures_made st).

Lemma Scene_reset_loop_outside (names : list Constants.ParamName)
  (pc : ParameterController.t) (st : Scene.t) :
  Scene_outside_parameters
    (snd (fold_left
       (fun (s : ParameterController.t * Scene.t) param =>
          let (pc, host) := s in
          let defaultValue :=
            Constants.get param Constants.DEFAULT_PARAMETERS in
          let pc := ParameterController.setValue param defaultValue pc in
          (pc, Scene.onParameterChange pc param defaultValue host))
       names (pc, st)))
  = Scene_outside_parameters st.
Proof.
  revert pc st. induction names as [|n names IH]; intros pc st; simpl.
  - reflexivity.
  - rewrite IH. reflexivity.
Qed.

Lemma Scene_resetToDefaults_outside (pc : ParameterController.t)
  (st : Scene.t) :
  Scene_outside_parameters
    (snd (ParameterController.resetToDefaults Scene.onParameterChange
            (pc, st)))
  = Scene_outside_parameters st.
Proof.
  unfold ParameterController.resetToDefaults.
  apply Scene_reset_loop_outside.
Qed.

Lemma Scene_resetParameters_outside (st : Scene.t) :
  Scene_outside_parameters (Scene.resetParameters st)
  = Scene_outside_parameters st.
Proof.
  unfold Scene.resetParameters, Scene.with_controller.
  pose proof (Scene_resetToDefaults_outside (Scene.parameterController st) st)
    as K.
  destruct (ParameterController.resetToDefaults _ _) as [pc h].
  simpl in K. rewrite <- K. reflexivity.
Qed.

(** The reset button does the same and then clears the heat. *)
Lemma Scene_resetButton_outside (st : Scene.t) :
  Scene_outside_parameters (Scene.resetButton st)
  = Scene_outside_parameters (Scene.set_heatUp 0 st).
Proof.
  unfold Scene.resetButton, Scene.with_controller,
    ParameterController.resetButton.
  pose proof (Scene_resetToDefaults_outside (Scene.parameterController st) st)
    as K.
  destruct (ParameterController.resetToDefaults _ _) as [pc h].
  simpl in K. unfold Scene_outside_parameters in *. simpl.
  inversion K. reflexivity.
Qed.

Lemma Scene_outside_animationValues (st st' : Scene.t) :
  Scene_outside_parameters st = Scene_outside_parameters st' ->
  Scene.animationValues st = Scene.animationValues st'.
Proof. unfold Scene_outside_parameters. intros H. inversion H. reflexivity. Qed.

Lemma Scene_outside_heatUp (st st' : Scene.t) :
  Scene_outside_parameters st = Scene_outside_parameters st' ->
  Scene.heatUp st = Scene.heatUp st'.
Proof. unfold Scene_outside_parameters. intros H. inversion H. reflexivity. Qed.

(** Unfolds the event handlers of the component scene down to record
    projections. *)
Ltac scene_handlers :=
  unfold Scene.handleVideoReady, Scene.handleToggleVideo,
    Scene.setParameter, Scene.with_interaction, Scene.with_controller,
    InteractionManager.handlePointerMove, InteractionManager.handlePointerDown,
    InteractionManager.handlePointerEnter, InteractionManager.handlePointerUp,
    InteractionManager.handlePointerLeave,
    InteractionManager.handleGlobalPointerMove,
    InteractionManager.updateGlobalPosition,
    InteractionManager.setInteracting, InteractionManager.updatePosition,
    ParameterController.setParameter.

(** No event other than a frame writes the power value. *)
Lemma Scene_step_power (st : Scene.t) (e : Scene.Event) :
  0.8 <= Scene_power st <= 1.0 -> 0.8 <= Scene_power (Scene.step st e) <= 1.0.
Proof.
  intros H. destruct e; simpl.
  - apply Scene_update_power_kept. exact H.
  - pose proof (Scene_update_power_kept (1 / 60) rnd st H) as K.
    unfold Scene.loop. destruct (DrawRenderer.render _ _). exact K.
  - unfold Scene.handleVideoReady. destruct (Scene.videoReady st); exact H.
  - exact H.
  - unfold Scene.handleToggleVideo. destruct (Anim.paused _); exact H.
  - scene_handlers. simpl. destruct (negb _); exact H.
  - scene_handlers. simpl. destruct (negb _); exact H.
  - exact H.
  - scene_handlers. simpl. destruct (negb _); exact H.
  - scene_handlers. simpl. destruct (negb _); exact H.
  - scene_handlers. simpl. destruct (negb _); exact H.
  - exact H.
  - unfold Scene_power.
    rewrite (Scene_outside_animationValues _ _
               (Scene_resetParameters_outside st)). exact H.
  - unfold Scene_power.
    rewrite (Scene_outside_animationValues _ _
               (Scene_resetButton_outside st)). exact H.
Qed.

Lemma Legacy_step_power (st : LegacyScene.t) (e : LegacyScene.Event) :
  0.8 <= Legacy_power st <= 1.0 ->
  0.8 <= Legacy_power (LegacyScene.step st e) <= 1.0.
Proof.
  intros H. destruct e; simpl; try exact H.
  - apply Legacy_update_power_kept. exact H.
  - pose proof (Legacy_update_power_kept (1 / 60) rnd st H) as K.
    unfold LegacyScene.loop. destruct (DrawRenderer.render _ _). exact K.
  - unfold LegacyScene.onVideoReady.
    destruct (LegacyScene.videoReady st); exact H.
  - unfold LegacyScene.onToggle. destruct (Anim.paused _); exact H.
Qed.

Lemma Scene_run_power (es : list Scene.Event) (st : Scene.t) :
  0.8 <= Scene_power st <= 1.0 -> 0.8 <= Scene_power (Scene.run es st) <= 1.0.
Proof.
  revert st. induction es as [|e es IH]; intros st H; simpl.
  - exact H.
  - apply IH. apply Scene_step_power. exact H.
Qed.

Lemma Legacy_run_power (es : list LegacyScene.Event) (st : LegacyScene.t) :
  0.8 <= Legacy_power st <= 1.0 ->
  0.8 <= Legacy_power (LegacyScene.run es st) <= 1.0.
Proof.
  revert st. induction es as [|e es IH]; intros st H; simpl.
  - exact H.
  - apply IH. apply Legacy_step_power. exact H.
Qed.

(** C7.  After every call of the per-frame update that does frame
    work, the animated power value lies in [0.8, 1.0], for every
    earlier state of the scene (so every previous value and every
    target) and every [deltaTime]; and from the initial scene, after
    any sequence of events whatever, frames included, the value lies
    in [0.8, 1.0].  Both scenes. *)
Theorem power_value_stays_in_range :
  (forall (deltaTime rnd : Q) (st : Scene.t),
     Scene.textureReady st = true ->
     0.8 <= Scene_power (Scene.update deltaTime rnd st) <= 1.0)
  /\ (forall (dt rnd : Q) (st : LegacyScene.t),
        LegacyScene.textureReady st = true ->
        0.8 <= Legacy_power (LegacyScene.update dt rnd st) <= 1.0)
  /\ (forall (isMobile : bool) (r : Anim.AppRenderer)
             (es : list Scene.Event),
        0.8 <= Scene_power (Scene.run es (Scene.init isMobile r)) <= 1.0)
  /\ (forall (isMobile : bool) (r : Anim.AppRenderer)
             (es : list LegacyScene.Event),
        0.8 <= Legacy_power (LegacyScene.run es (LegacyScene.init isMobile r))
        <= 1.0).
Proof.
  split; [|split; [|split]].
  - intros. apply Scene_update_power_range. assumption.
  - intros. apply Legacy_update_power_range. assumption.
  - intros. apply Scene_run_power. vm_compute. split; discriminate.
  - intros. apply Legacy_run_power. vm_compute. split; discriminate.
Qed.

(** A scene whose video has arrived and whose pointer is held at the
    centre of the container. *)
Definition sample_scene : Scene.t :=
  Scene.run
    [Scene.VideoReady true;
     Scene.PointerMove 400 300 (MathUtils.mkDOMRect 0 0 800 600)]
    (Scene.init false sample_renderer).

Definition sample_legacy_scene : LegacyScene.t :=
  LegacyScene.run
    [LegacyScene.VideoReady true;
     LegacyScene.PointerMove 400 300 (MathUtils.mkDOMRect 0 0 800 600)]
    (LegacyScene.init false sample_renderer).

Lemma power_value_stays_in_range_witness :
  0.8 <= Scene_power (Scene.update (1 / 60) 0.5 sample_scene) <= 1.0
  /\ 0.8 <= Legacy_power (LegacyScene.update 10 0.5 sample_legacy_scene)
     <= 1.0.
Proof.
  split.
  - apply (proj1 power_value_stays_in_range). reflexivity.
  - apply (proj1 (proj2 power_value_stays_in_range)). reflexivity.
Defined.

(** ** Accumulated heat *)

(** The heat a frame pushes to the accumulator ([updateDraw]) and the
    hold flag the component scene reads. *)
Definition Scene_observed (st : Scene.t) : Q :=
  DrawRenderer.uDraw (DrawRenderer.uniforms (Scene.drawRenderer st)).

Definition Legacy_observed (st : LegacyScene.t) : Q :=
  DrawRenderer.uDraw (DrawRenderer.uniforms (LegacyScene.drawRenderer st)).

Definition Scene_hold (st : Scene.t) : bool :=
  InteractionManager.hold
    (InteractionManager.interactionState (Scene.interactionManager st)).

(** What a frame that does its work keeps fixed in the component
    scene. *)
Lemma Scene_update_keeps (dt rnd : Q) (st : Scene.t) :
  Scene.textureReady (Scene.update dt rnd st) = Scene.textureReady st
  /\ Scene.videoReady (Scene.update dt rnd st) = Scene.videoReady st
  /\ Scene_hold (Scene.update dt rnd st) = Scene_hold st
  /\ Scene.getParameters (Scene.update dt rnd st) = Scene.getParameters st.
Proof.
  unfold Scene.update, Scene_hold, Scene.getParameters.
  destruct (Scene.textureReady st) eqn:T; simpl; [|auto].
  unfold Scene.updateHeatInteraction, Scene.updateVideoLoop. simpl.
  destruct (Scene.videoReady st) eqn:V; simpl.
  - destruct (JS.ge _ _); simpl; rewrite ?V; simpl; auto.
  - rewrite ?V. simpl. auto.
Qed.

(** The heat part of a frame of the component scene. *)
Lemma Scene_update_heat (dt rnd : Q) (st : Scene.t) :
  Scene.textureReady st = true -> Scene.videoReady st = true ->
  let p := Scene.getParameters st in
  let pushed :=
    if Scene_hold st
    then JS.Math_min
           (Scene.heatUp st
            + Constants.heatSensitivity p * dt * Constants.TARGET_FPS)
           Constants.HEAT_MAX_VALUE
    else Scene.heatUp st in
  Scene_observed (Scene.update dt rnd st) = pushed
  /\ Scene.heatUp (Scene.update dt rnd st)
     = (if JS.lt (pushed * Constants.heatDecay p)
             Constants.HEAT_CLEANUP_THRESHOLD
        then 0 else pushed * Constants.heatDecay p).
Proof.
  intros T V p pushed. subst p pushed.
  unfold Scene.update, Scene_observed, Scene_hold, Scene.getParameters.
  rewrite T. simpl.
  unfold Scene.updateHeatInteraction, Scene.updateVideoLoop. simpl.
  rewrite V. simpl.
  destruct (JS.ge _ _); simpl; rewrite ?V; simpl; split; reflexivity.
Qed.

(** The heat part of a frame of the monolithic scene. *)
Lemma Legacy_update_heat (dt rnd : Q) (st : LegacyScene.t) :
  LegacyScene.textureReady st = true ->
  let p := LegacyScene.parameters st in
  let pushed :=
    if LegacyScene.videoReady st
    then if LegacyScene.hold st
         then let h := LegacyScene.heatUp st
                       + Constants.heatSensitivity p * dt * 60 in
              if JS.gt h 1.3 then 1.3 else h
         else LegacyScene.heatUp st
    else LegacyScene.heatUp st in
  (LegacyScene.videoReady st = true ->
   Legacy_observed (LegacyScene.update dt rnd st) = pushed)
  /\ LegacyScene.heatUp (LegacyScene.update dt rnd st)
     = (if JS.lt (pushed * Constants.heatDecay p) 0.001
        then 0 else pushed * Constants.heatDecay p).
Proof.
  intros T p pushed. subst p pushed.
  unfold LegacyScene.update, Legacy_observed. rewrite T. simpl.
  split; [intros V; rewrite V; reflexivity | reflexivity].
Qed.

Lemma Legacy_update_keeps (dt rnd : Q) (st : LegacyScene.t) :
  LegacyScene.textureReady (LegacyScene.update dt rnd st)
  = LegacyScene.textureReady st
  /\ LegacyScene.videoReady (LegacyScene.update dt rnd st)
     = LegacyScene.videoReady st
  /\ LegacyScene.parameters (LegacyScene.update dt rnd st)
     = LegacyScene.parameters st.
Proof.
  unfold LegacyScene.update.
  destruct (LegacyScene.textureReady st) eqn:T; simpl; auto.
Qed.

(** The stored heat is either nothing or at least the threshold. *)
Definition no_tail (h : Q) : Prop := h == 0 \/ 0.001 <= h.

Lemma cleanup_no_tail (x : Q) :
  no_tail (if JS.lt x 0.001 then 0 else x).
Proof.
  unfold no_tail. js_case; [left; reflexivity | right; exact E].
Qed.

Lemma cleanup_cases (x : Q) :
  let k := if JS.lt x 0.001 then 0 else x in
  (0.001 <= x -> k == x) /\ (x < 0.001 -> k == 0).
Proof.
  simpl. js_case; split; intros; try reflexivity; lra.
Qed.

Lemma Scene_update_no_tail (dt rnd : Q) (st : Scene.t) :
  no_tail (Scene.heatUp st) -> no_tail (Scene.heatUp (Scene.update dt rnd st)).
Proof.
  intros H. destruct (Scene.textureReady st) eqn:T.
  - destruct (Scene.videoReady st) eqn:V.
    + rewrite (proj2 (Scene_update_heat dt rnd st T V)).
      apply cleanup_no_tail.
    + unfold Scene.update. rewrite T. simpl.
      unfold Scene.updateHeatInteraction, Scene.updateVideoLoop. simpl.
      rewrite V. simpl. rewrite V. simpl. exact H.
  - rewrite (Scene_update_not_ready dt rnd st T).
    exact H.
Qed.

Lemma Legacy_update_no_tail (dt rnd : Q) (st : LegacyScene.t) :
  no_tail (LegacyScene.heatUp st) ->
  no_tail (LegacyScene.heatUp (LegacyScene.update dt rnd st)).
Proof.
  intros H. destruct (LegacyScene.textureReady st) eqn:T.
  - rewrite (proj2 (Legacy_update_heat dt rnd st T)). apply cleanup_no_tail.
  - rewrite (Legacy_update_not_ready dt rnd st T).
    exact H.
Qed.

Lemma Scene_step_no_tail (st : Scene.t) (e : Scene.Event) :
  no_tail (Scene.heatUp st) -> no_tail (Scene.heatUp (Scene.step st e)).
Proof.
  intros H. destruct e; cbn [Scene.step].
  - apply Scene_update_no_tail. exact H.
  - pose proof (Scene_update_no_tail (1 / 60) rnd st H) as K.
    unfold Scene.loop. destruct (DrawRenderer.render _ _). exact K.
  - unfold Scene.handleVideoReady. destruct (Scene.videoReady st); exact H.
  - exact H.
  - unfold Scene.handleToggleVideo. destruct (Anim.paused _); exact H.
  - scene_handlers. simpl. destruct (negb _); exact H.
  - scene_handlers. simpl. destruct (negb _); exact H.
  - exact H.
  - scene_handlers. simpl. destruct (negb _); exact H.
  - scene_handlers. simpl. destruct (negb _); exact H.
  - scene_handlers. simpl. destruct (negb _); exact H.
  - exact H.
  - rewrite (Scene_outside_heatUp _ _ (Scene_resetParameters_outside st)).
    exact H.
  - rewrite (Scene_outside_heatUp _ _ (Scene_resetButton_outside st)).
    left. reflexivity.
Qed.

Lemma Legacy_step_no_tail (st : LegacyScene.t) (e : LegacyScene.Event) :
  no_tail (LegacyScene.heatUp st) ->
  no_tail (LegacyScene.heatUp (LegacyScene.step st e)).
Proof.
  intros H. destruct e; cbn [LegacyScene.step]; try exact H.
  - apply Legacy_update_no_tail. exact H.
  - pose proof (Legacy_update_no_tail (1 / 60) rnd st H) as K.
    unfold LegacyScene.loop. destruct (DrawRenderer.render _ _). exact K.
  - unfold LegacyScene.onVideoReady.
    destruct (LegacyScene.videoReady st); exact H.
  - unfold LegacyScene.onToggle. destruct (Anim.paused _); exact H.
Qed.

Lemma Scene_run_no_tail (es : list Scene.Event) (st : Scene.t) :
  no_tail (Scene.heatUp st) -> no_tail (Scene.heatUp (Scene.run es st)).
Proof.
  revert st. induction es as [|e es IH]; intros st H; simpl.
  - exact H.
  - apply IH. apply Scene_step_no_tail. exact H.
Qed.

Lemma Legacy_run_no_tail (es : list LegacyScene.Event) (st : LegacyScene.t) :
  no_tail (LegacyScene.heatUp st) ->
  no_tail (LegacyScene.heatUp (LegacyScene.run es st)).
Proof.
  revert st. induction es as [|e es IH]; intros st H; simpl.
  - exact H.
  - apply IH. apply Legacy_step_no_tail. exact H.
Qed.

(** Frames one after the other with nothing in between; a frame is
    its [deltaTime] and the value of [Math.random()]. *)
Definition Scene_frames (fs : list (Q * Q)) (st : Scene.t) : Scene.t :=
  fold_left (fun st f => Scene.update (fst f) (snd f) st) fs st.

Definition Legacy_frames (fs : list (Q * Q)) (st : LegacyScene.t)
  : LegacyScene.t :=
  fold_left (fun st f => LegacyScene.update (fst f) (snd f) st) fs st.

(** One frame without holding, component scene. *)
Lemma Scene_release_frame (dt rnd : Q) (st : Scene.t) :
  Scene.textureReady st = true -> Scene.videoReady st = true ->
  Scene_hold st = false ->
  let d := Constants.heatDecay (Scene.getParameters st) in
  let h := Scene.heatUp st in
  let h' := Scene.heatUp (Scene.update dt rnd st) in
  (0.001 <= d * h -> h' == d * h) /\ (d * h < 0.001 -> h' == 0).
Proof.
  intros T V Hh d h h'. subst h'.
  rewrite (proj2 (Scene_update_heat dt rnd st T V)). rewrite Hh.
  fold d h. unfold Constants.HEAT_CLEANUP_THRESHOLD.
  destruct (cleanup_cases (h * d)) as [A B].
  split; intros K.
  - rewrite A by lra. lra.
  - apply B. lra.
Qed.

(** One frame without holding, monolithic scene. *)
Lemma Legacy_release_frame (dt rnd : Q) (st : LegacyScene.t) :
  LegacyScene.textureReady st = true -> LegacyScene.hold st = false ->
  let d := Constants.heatDecay (LegacyScene.parameters st) in
  let h := LegacyScene.heatUp st in
  let h' := LegacyScene.heatUp (LegacyScene.update dt rnd st) in
  (0.001 <= d * h -> h' == d * h) /\ (d * h < 0.001 -> h' == 0).
Proof.
  intros T Hh d h h'. subst h'.
  rewrite (proj2 (Legacy_update_heat dt rnd st T)). rewrite Hh.
  assert (P : (if LegacyScene.videoReady st
               then LegacyScene.heatUp st else LegacyScene.heatUp st) = h)
    by (destruct (LegacyScene.videoReady st); reflexivity).
  rewrite P. fold d.
  destruct (cleanup_cases (h * d)) as [A B].
  split; intros K.
  - rewrite A by lra. lra.
  - apply B. lra.
Qed.

(** Once at zero, the heat stays at zero through frames without
    holding. *)
Lemma Scene_frames_stay_zero (fs : list (Q * Q)) (st : Scene.t) :
  Scene.textureReady st = true -> Scene.videoReady st = true ->
  Scene_hold st = false -> Scene.heatUp st == 0 ->
  Scene.heatUp (Scene_frames fs st) == 0.
Proof.
  revert st. induction fs as [|f fs IH]; intros st T V Hh Z; simpl.
  - exact Z.
  - destruct (Scene_update_keeps (fst f) (snd f) st) as [T' [V' [H' _]]].
    apply IH; try congruence.
    apply (proj2 (Scene_release_frame (fst f) (snd f) st T V Hh)).
    rewrite Z. lra.
Qed.

Lemma Legacy_frames_stay_zero (fs : list (Q * Q)) (st : LegacyScene.t) :
  LegacyScene.textureReady st = true -> LegacyScene.hold st = false ->
  LegacyScene.heatUp st == 0 ->
  LegacyScene.heatUp (Legacy_frames fs st) == 0.
Proof.
  revert st. induction fs as [|f fs IH]; intros st T Hh Z; simpl.
  - exact Z.
  - destruct (Legacy_update_keeps (fst f) (snd f) st) as [T' _].
    apply IH; try congruence.
    + unfold LegacyScene.update. rewrite T. reflexivity.
    + apply (proj2 (Legacy_release_frame (fst f) (snd f) st T Hh)).
      rewrite Z. lra.
Qed.

(** Before the video arrives both flags are down and no heat has
    been stored; the flags go up together. *)
Definition Scene_booting (st : Scene.t) : Prop :=
  Scene.textureReady st = Scene.videoReady st
  /\ (Scene.textureReady st = false -> Scene.heatUp st == 0).

Definition Legacy_booting (st : LegacyScene.t) : Prop :=
  LegacyScene.textureReady st = false -> LegacyScene.heatUp st == 0.

Lemma Scene_outside_flags (st st' : Scene.t) :
  Scene_outside_parameters st = Scene_outside_parameters st' ->
  Scene.textureReady st = Scene.textureReady st'
  /\ Scene.videoReady st = Scene.videoReady st'.
Proof.
  unfold Scene_outside_parameters. intros H. inversion H. split; reflexivity.
Qed.

Lemma Scene_update_booting (dt rnd : Q) (st : Scene.t) :
  Scene_booting st -> Scene_booting (Scene.update dt rnd st).
Proof.
  intros [F Z]. destruct (Scene.textureReady st) eqn:T.
  - destruct (Scene_update_keeps dt rnd st) as [T' [V' _]].
    unfold Scene_booting. rewrite T', V', T. split; [exact F | discriminate].
  - rewrite (Scene_update_not_ready dt rnd st T).
    unfold Scene_booting. rewrite T. split; assumption.
Qed.

Lemma Scene_step_booting (st : Scene.t) (e : Scene.Event) :
  Scene_booting st -> Scene_booting (Scene.step st e).
Proof.
  intros H. destruct e; cbn [Scene.step].
  - apply Scene_update_booting. exact H.
  - pose proof (Scene_update_booting (1 / 60) rnd st H) as K.
    unfold Scene.loop. destruct (DrawRenderer.render _ _). exact K.
  - unfold Scene.handleVideoReady. destruct (Scene.videoReady st); [exact H|].
    split; [reflexivity | discriminate].
  - exact H.
  - unfold Scene.handleToggleVideo. destruct (Anim.paused _); exact H.
  - scene_handlers. simpl. destruct (negb _); exact H.
  - scene_handlers. simpl. destruct (negb _); exact H.
  - exact H.
  - scene_handlers. simpl. destruct (negb _); exact H.
  - scene_handlers. simpl. destruct (negb _); exact H.
  - scene_handlers. simpl. destruct (negb _); exact H.
  - exact H.
  - destruct (Scene_outside_flags _ _ (Scene_resetParameters_outside st))
      as [T V].
    unfold Scene_booting.
    rewrite T, V, (Scene_outside_heatUp _ _ (Scene_resetParameters_outside st)).
    exact H.
  - destruct (Scene_outside_flags _ _ (Scene_resetButton_outside st))
      as [T V].
    unfold Scene_booting.
    rewrite T, V, (Scene_outside_heatUp _ _ (Scene_resetButton_outside st)).
    split; [apply H | intros _; reflexivity].
Qed.

Lemma Scene_run_booting (es : list Scene.Event) (st : Scene.t) :
  Scene_booting st -> Scene_booting (Scene.run es st).
Proof.
  revert st. induction es as [|e es IH]; intros st H; simpl.
  - exact H.
  - apply IH. apply Scene_step_booting. exact H.
Qed.

Lemma Legacy_update_booting (dt rnd : Q) (st : LegacyScene.t) :
  Legacy_booting st -> Legacy_booting (LegacyScene.update dt rnd st).
Proof.
  intros Z. destruct (LegacyScene.textureReady st) eqn:T.
  - unfold Legacy_booting.
    rewrite (proj1 (Legacy_update_keeps dt rnd st)), T. discriminate.
  - rewrite (Legacy_update_not_ready dt rnd st T). exact Z.
Qed.

Lemma Legacy_step_booting (st : LegacyScene.t) (e : LegacyScene.Event) :
  Legacy_booting st -> Legacy_booting (LegacyScene.step st e).
Proof.
  intros H. destruct e; cbn [LegacyScene.step]; try exact H.
  - apply Legacy_update_booting. exact H.
  - pose proof (Legacy_update_booting (1 / 60) rnd st H) as K.
    unfold LegacyScene.loop. destruct (DrawRenderer.render _ _). exact K.
  - unfold LegacyScene.onVideoReady.
    destruct (LegacyScene.videoReady st); [exact H | discriminate].
  - unfold LegacyScene.onToggle. destruct (Anim.paused _); exact H.
Qed.

Lemma Legacy_run_booting (es : list LegacyScene.Event) (st : LegacyScene.t) :
  Legacy_booting st -> Legacy_booting (LegacyScene.run es st).
Proof.
  revert st. induction es as [|e es IH]; intros st H; simpl.
  - exact H.
  - apply IH. apply Legacy_step_booting. exact H.
Qed.

(** In a scene reached from the initial one, a frame without holding
    decays the heat whether or not the assets are ready: before they
    are, the heat is 0 and stays 0. *)
Lemma Scene_release_frame_reached (isMobile : bool) (r : Anim.AppRenderer)
  (es : list Scene.Event) (dt rnd : Q) :
  let st := Scene.run es (Scene.init isMobile r) in
  Scene_hold st = false ->
  let d := Constants.heatDecay (Scene.getParameters st) in
  let h := Scene.heatUp st in
  let h' := Scene.heatUp (Scene.update dt rnd st) in
  (0.001 <= d * h -> h' == d * h) /\ (d * h < 0.001 -> h' == 0).
Proof.
  intros st Hh d h h'.
  assert (B : Scene_booting st).
  { apply Scene_run_booting. split; [reflexivity | intros _; reflexivity]. }
  destruct B as [F Z]. destruct (Scene.textureReady st) eqn:T.
  - apply Scene_release_frame; [exact T | congruence | exact Hh].
  - subst h'. rewrite (Scene_update_not_ready dt rnd st T). fold h.
    assert (Z0 : h == 0) by (apply Z; reflexivity).
    assert (P : d * h == 0) by (rewrite Z0; ring).
    split; intros K; [lra | exact Z0].
Qed.

Lemma Legacy_release_frame_reached (isMobile : bool) (r : Anim.AppRenderer)
  (es : list LegacyScene.Event) (dt rnd : Q) :
  let st := LegacyScene.run es (LegacyScene.init isMobile r) in
  LegacyScene.hold st = false ->
  let d := Constants.heatDecay (LegacyScene.parameters st) in
  let h := LegacyScene.heatUp st in
  let h' := LegacyScene.heatUp (LegacyScene.update dt rnd st) in
  (0.001 <= d * h -> h' == d * h) /\ (d * h < 0.001 -> h' == 0).
Proof.
  intros st Hh d h h'.
  assert (B : Legacy_booting st).
  { apply Legacy_run_booting. intros _. reflexivity. }
  destruct (LegacyScene.textureReady st) eqn:T.
  - apply Legacy_release_frame; [exact T | exact Hh].
  - subst h'. rewrite (Legacy_update_not_ready dt rnd st T). fold h.
    assert (Z0 : h == 0) by (apply B; exact T).
    assert (P : d * h == 0) by (rewrite Z0; ring).
    split; intros K; [lra | exact Z0].
Qed.

(** C3.  In a frame in which holding is false, the stored heat after
    the frame is [heatDecay] times the stored heat before it, unless
    that product is below 0.001, in which case it is 0: for any state
    whose assets are ready, and for every state reached from the
    initial scene by any events (before the assets are ready the
    stored heat is 0 and the frame leaves it 0).  After any frame,
    holding or not, the stored heat is 0 or at least 0.001; from 0 it
    stays 0 through any number of frames without holding; and no
    sequence of events from the initial scene leaves a positive value
    below 0.001 in the stored state.  Both scenes. *)
Theorem heat_decay_and_cleanup :
  (forall (dt rnd : Q) (st : Scene.t),
     Scene.textureReady st = true -> Scene.videoReady st = true ->
     Scene_hold st = false ->
     let d := Constants.heatDecay (Scene.getParameters st) in
     let h := Scene.heatUp st in
     let h' := Scene.heatUp (Scene.update dt rnd st) in
     (0.001 <= d * h -> h' == d * h) /\ (d * h < 0.001 -> h' == 0))
  /\ (forall (dt rnd : Q) (st : LegacyScene.t),
        LegacyScene.textureReady st = true -> LegacyScene.hold st = false ->
        let d := Constants.heatDecay (LegacyScene.parameters st) in
        let h := LegacyScene.heatUp st in
        let h' := LegacyScene.heatUp (LegacyScene.update dt rnd st) in
        (0.001 <= d * h -> h' == d * h) /\ (d * h < 0.001 -> h' == 0))
  /\ (forall (dt rnd : Q) (st : Scene.t),
        Scene.textureReady st = true -> Scene.videoReady st = true ->
        let h' := Scene.heatUp (Scene.update dt rnd st) in
        h' == 0 \/ 0.001 <= h')
  /\ (forall (dt rnd : Q) (st : LegacyScene.t),
        LegacyScene.textureReady st = true ->
        let h' := LegacyScene.heatUp (LegacyScene.update dt rnd st) in
        h' == 0 \/ 0.001 <= h')
  /\ (forall (fs : list (Q * Q)) (st : Scene.t),
        Scene.textureReady st = true -> Scene.videoReady st = true ->
        Scene_hold st = false -> Scene.heatUp st == 0 ->
        Scene.heatUp (Scene_frames fs st) == 0)
  /\ (forall (fs : list (Q * Q)) (st : LegacyScene.t),
        LegacyScene.textureReady st = true -> LegacyScene.hold st = false ->
        LegacyScene.heatUp st == 0 ->
        LegacyScene.heatUp (Legacy_frames fs st) == 0)
  /\ (forall (isMobile : bool) (r : Anim.AppRenderer)
             (es : list Scene.Event),
        let h := Scene.heatUp (Scene.run es (Scene.init isMobile r)) in
        h == 0 \/ 0.001 <= h)
  /\ (forall (isMobile : bool) (r : Anim.AppRenderer)
             (es : list LegacyScene.Event),
        let h :=
          LegacyScene.heatUp (LegacyScene.run es (LegacyScene.init isMobile r))
        in h == 0 \/ 0.001 <= h)
  /\ (forall (isMobile : bool) (r : Anim.AppRenderer)
             (es : list Scene.Event) (dt rnd : Q),
        let st := Scene.run es (Scene.init isMobile r) in
        Scene_hold st = false ->
        let d := Constants.heatDecay (Scene.getParameters st) in
        let h := Scene.heatUp st in
        let h' := Scene.heatUp (Scene.update dt rnd st) in
        (0.001 <= d * h -> h' == d * h) /\ (d * h < 0.001 -> h' == 0))
  /\ (forall (isMobile : bool) (r : Anim.AppRenderer)
             (es : list LegacyScene.Event) (dt rnd : Q),
        let st := LegacyScene.run es (LegacyScene.init isMobile r) in
        LegacyScene.hold st = false ->
        let d := Constants.heatDecay (LegacyScene.parameters st) in
        let h := LegacyScene.heatUp st in
        let h' := LegacyScene.heatUp (LegacyScene.update dt rnd st) in
        (0.001 <= d * h -> h' == d * h) /\ (d * h < 0.001 -> h' == 0)).
Proof.
  repeat apply conj.
  - exact Scene_release_frame.
  - exact Legacy_release_frame.
  - intros dt rnd st T V h'. subst h'.
    rewrite (proj2 (Scene_update_heat dt rnd st T V)). apply cleanup_no_tail.
  - intros dt rnd st T h'. subst h'.
    rewrite (proj2 (Legacy_update_heat dt rnd st T)). apply cleanup_no_tail.
  - exact Scene_frames_stay_zero.
  - exact Legacy_frames_stay_zero.
  - intros isMobile r es. apply Scene_run_no_tail. left. reflexivity.
  - intros isMobile r es. apply Legacy_run_no_tail. left. reflexivity.
  - exact Scene_release_frame_reached.
  - exact Legacy_release_frame_reached.
Qed.

Definition released_scene : Scene.t :=
  Scene.run [Scene.Update (1 / 60) 0.5; Scene.PointerUp] sample_scene.

Definition released_legacy_scene : LegacyScene.t :=
  LegacyScene.run [LegacyScene.Update (1 / 60) 0.5] sample_legacy_scene.

Lemma heat_decay_and_cleanup_witness :
  Scene.heatUp (Scene.update (1 / 60) 0.5 released_scene)
    == Constants.heatDecay (Scene.getParameters released_scene)
       * Scene.heatUp released_scene
  /\ LegacyScene.heatUp (LegacyScene.update (1 / 60) 0.5 released_legacy_scene)
     == Constants.heatDecay (LegacyScene.parameters released_legacy_scene)
        * LegacyScene.heatUp released_legacy_scene.
Proof.
  split.
  - apply (proj1 heat_decay_and_cleanup (1 / 60) 0.5 released_scene);
      try reflexivity.
    vm_compute. discriminate.
  - apply (proj1 (proj2 heat_decay_and_cleanup) (1 / 60) 0.5
             released_legacy_scene); try reflexivity.
    vm_compute. discriminate.
Defined.

(** ** The end of a frame of the monolithic scene *)

Lemma Legacy_update_resets (dt rnd : Q) (st : LegacyScene.t) :
  LegacyScene.textureReady st = true ->
  LegacyScene.hold (LegacyScene.update dt rnd st) = false
  /\ DrawRenderer.uDirection
       (DrawRenderer.uniforms
          (LegacyScene.drawRenderer (LegacyScene.update dt rnd st)))
     = Three.mkVector4 0 0 0 100.
Proof.
  intros T. unfold LegacyScene.update. rewrite T. simpl.
  split; reflexivity.
Qed.

Lemma Legacy_step_textureReady (st : LegacyScene.t) (e : LegacyScene.Event) :
  LegacyScene.textureReady st = true ->
  LegacyScene.textureReady (LegacyScene.step st e) = true.
Proof.
  intros T. destruct e; cbn [LegacyScene.step]; try exact T.
  - rewrite (proj1 (Legacy_update_keeps dt rnd st)). exact T.
  - pose proof (proj1 (Legacy_update_keeps (1 / 60) rnd st)) as K.
    unfold LegacyScene.loop. destruct (DrawRenderer.render _ _).
    simpl. rewrite K. exact T.
  - unfold LegacyScene.onVideoReady.
    destruct (LegacyScene.videoReady st); [exact T | reflexivity].
  - unfold LegacyScene.onToggle. destruct (Anim.paused _); exact T.
Qed.

(** An event that is not one of the hold-raising pointer events
    leaves a lowered hold flag lowered. *)
Lemma Legacy_step_hold_stays_false (st : LegacyScene.t)
  (e : LegacyScene.Event) :
  LegacyScene.raises_hold e = false -> LegacyScene.hold st = false ->
  LegacyScene.hold (LegacyScene.step st e) = false.
Proof.
  intros R H. destruct e; cbn [LegacyScene.step]; try discriminate R;
    try exact H; try reflexivity.
  - unfold LegacyScene.update.
    destruct (LegacyScene.textureReady st); [reflexivity | exact H].
  - assert (K : LegacyScene.hold (LegacyScene.update (1 / 60) rnd st) = false).
    { unfold LegacyScene.update.
      destruct (LegacyScene.textureReady st); [reflexivity | exact H]. }
    unfold LegacyScene.loop. destruct (DrawRenderer.render _ _). exact K.
  - unfold LegacyScene.onVideoReady.
    destruct (LegacyScene.videoReady st); exact H.
  - unfold LegacyScene.onToggle. destruct (Anim.paused _); exact H.
Qed.

Lemma Legacy_run_quiet (es : list LegacyScene.Event) (st : LegacyScene.t) :
  forallb (fun e => negb (LegacyScene.raises_hold e)) es = true ->
  LegacyScene.textureReady st = true -> LegacyScene.hold st = false ->
  LegacyScene.textureReady (LegacyScene.run es st) = true
  /\ LegacyScene.hold (LegacyScene.run es st) = false.
Proof.
  revert st. induction es as [|e es IH]; intros st Hq T H; simpl.
  - split; assumption.
  - simpl in Hq. apply andb_true_iff in Hq. destruct Hq as [Qe Qs].
    apply negb_true_iff in Qe.
    apply IH; [exact Qs | apply Legacy_step_textureReady; exact T
              | apply Legacy_step_hold_stays_false; assumption].
Qed.

(** C10.  In the monolithic scene, after every update call that finds
    the texture-ready flag set, the hold flag is false and the
    accumulator's direction uniform is (0, 0, 0, 100).  Hence, if
    between that call and a later update call none of the events is a
    pointer event that raises the hold flag (whatever else happens,
    further frames included), the later call finds the flag lowered
    and accumulates nothing: it pushes the stored heat as it is to
    the accumulator and stores the stored heat times [heatDecay],
    replaced by 0 when below 0.001. *)
Theorem legacy_frame_end_resets_hold_and_direction :
  forall (dt rnd : Q) (st : LegacyScene.t),
    LegacyScene.textureReady st = true ->
    let st1 := LegacyScene.update dt rnd st in
    LegacyScene.hold st1 = false
    /\ DrawRenderer.uDirection
         (DrawRenderer.uniforms (LegacyScene.drawRenderer st1))
       = Three.mkVector4 0 0 0 100
    /\ (forall (es : list LegacyScene.Event) (dt' rnd' : Q),
          forallb (fun e => negb (LegacyScene.raises_hold e)) es = true ->
          let st2 := LegacyScene.run es st1 in
          let st3 := LegacyScene.update dt' rnd' st2 in
          LegacyScene.hold st2 = false
          /\ (LegacyScene.videoReady st2 = true ->
              Legacy_observed st3 = LegacyScene.heatUp st2)
          /\ LegacyScene.heatUp st3
             = (let x := LegacyScene.heatUp st2
                         * Constants.heatDecay (LegacyScene.parameters st2) in
                if JS.lt x 0.001 then 0 else x)).
Proof.
  intros dt rnd st T st1.
  destruct (Legacy_update_resets dt rnd st T) as [H D].
  split; [exact H|]. split; [exact D|].
  intros es dt' rnd' Hq st2 st3.
  assert (T1 : LegacyScene.textureReady st1 = true).
  { subst st1. rewrite (proj1 (Legacy_update_keeps dt rnd st)). exact T. }
  destruct (Legacy_run_quiet es st1 Hq T1 H) as [T2 H2].
  fold st2 in T2, H2.
  split; [exact H2|].
  destruct (Legacy_update_heat dt' rnd' st2 T2) as [O K].
  fold st3 in O, K. rewrite H2 in O, K.
  split.
  - intros V. rewrite (O V), V. reflexivity.
  - rewrite K. destruct (LegacyScene.videoReady st2); reflexivity.
Qed.

Lemma legacy_frame_end_resets_hold_and_direction_witness :
  let st1 := LegacyScene.update (1 / 60) 0.5 sample_legacy_scene in
  LegacyScene.hold sample_legacy_scene = true
  /\ LegacyScene.hold st1 = false
  /\ DrawRenderer.uDirection
       (DrawRenderer.uniforms (LegacyScene.drawRenderer st1))
     = Three.mkVector4 0 0 0 100.
Proof.
  intros st1. split; [reflexivity|].
  destruct (legacy_frame_end_resets_hold_and_direction (1 / 60) 0.5
              sample_legacy_scene eq_refl) as [H [D _]].
  split; [exact H | exact D].
Defined.

(** ** Heat while holding *)

(** [o] is [h + inc] capped at 1.3, and [k] is what the cool-down and
    the cleanup keep of [o]. *)
Definition capped_sum (o h inc : Q) : Prop :=
  (h + inc <= 1.3 /\ o == h + inc) \/ (1.3 <= h + inc /\ o == 1.3).

Definition kept (k o d : Q) : Prop :=
  (o * d < 0.001 /\ k == 0) \/ (0.001 <= o * d /\ k == o * d).

Lemma min_capped_sum (h inc s : Q) :
  inc == s ->
  capped_sum (JS.Math_min (h + inc) Constants.HEAT_MAX_VALUE) h s.
Proof.
  intros E. unfold capped_sum, Constants.HEAT_MAX_VALUE.
  minmax; [left | right]; split; lra.
Qed.

Lemma if_capped_sum (h inc s : Q) :
  inc == s ->
  capped_sum (let x := h + inc in if JS.gt x 1.3 then 1.3 else x) h s.
Proof.
  intros E. unfold capped_sum. simpl.
  js_case; [right | left]; split; lra.
Qed.

Lemma cleanup_kept (o d : Q) :
  kept (if JS.lt (o * d) 0.001 then 0 else o * d) o d.
Proof.
  unfold kept. js_case; [left | right]; split; try reflexivity; lra.
Qed.

Lemma kept_nonneg (k o d : Q) : kept k o d -> 0 <= k.
Proof. intros [[_ E] | [L E]]; lra. Qed.

(** Two consecutive holding frames: the arithmetic. *)
Lemma accumulate_two_frames (s d h o1 k o2 : Q) :
  0 <= h -> 0 < s -> 0 <= d -> 0.001 <= d * s -> 1.3 <= 1.3 * d + s ->
  capped_sum o1 h s -> kept k o1 d -> capped_sum o2 k s ->
  o1 <= 1.3 /\ (o1 < 1.3 -> o1 < o2) /\ (o1 == 1.3 -> o2 == 1.3).
Proof.
  intros Hh Hs Hd Hds Hfix C1 K C2.
  assert (B1 : o1 <= 1.3) by (destruct C1 as [[? ?]|[? ?]]; lra).
  split; [exact B1|]. split.
  - intros L.
    assert (E1 : o1 == h + s) by (destruct C1 as [[? ?]|[? ?]]; lra).
    assert (P : d * s <= o1 * d) by nra.
    assert (Ek : k == o1 * d) by (destruct K as [[? ?]|[? ?]]; lra).
    assert (G : o1 < o1 * d + s) by nra.
    destruct C2 as [[? ?]|[? ?]]; lra.
  - intros E.
    destruct K as [[Ls Ek]|[Ls Ek]].
    + assert (1.3 <= s) by nra.
      destruct C2 as [[? ?]|[? ?]]; lra.
    + assert (1.3 <= k + s) by nra.
      destruct C2 as [[? ?]|[? ?]]; lra.
Qed.

(** The conditions on the two parameters under which holding drives
    the heat up to the ceiling and keeps it there: the cool-down of
    one frame never triggers the cleanup, and at the ceiling one
    frame's gain makes up for one frame's loss. *)
Definition reaches_ceiling (s d : Q) : Prop :=
  0 < s /\ 0 <= d /\ 0.001 <= d * s /\ 1.3 <= 1.3 * d + s.

(** A component scene that is ready, is being held, has the two
    parameters [s] and [d], and stores no negative heat. *)
Definition Scene_held (s d : Q) (st : Scene.t) : Prop :=
  Scene.textureReady st = true /\ Scene.videoReady st = true
  /\ Scene_hold st = true
  /\ Constants.heatSensitivity (Scene.getParameters st) = s
  /\ Constants.heatDecay (Scene.getParameters st) = d
  /\ 0 <= Scene.heatUp st.

Lemma Scene_held_frame (s d rnd : Q) (st : Scene.t) :
  Scene_held s d st ->
  let st' := Scene.update (1 / 60) rnd st in
  Scene_held s d st'
  /\ capped_sum (Scene_observed st') (Scene.heatUp st) s
  /\ kept (Scene.heatUp st') (Scene_observed st') d.
Proof.
  intros [T [V [H [Es [Ed Hh]]]]] st'.
  destruct (Scene_update_keeps (1 / 60) rnd st) as [T' [V' [H' P']]].
  destruct (Scene_update_heat (1 / 60) rnd st T V) as [O K].
  fold st' in T', V', H', P', O, K.
  rewrite H, Es in O. rewrite H, Es, Ed in K.
  assert (C : capped_sum (Scene_observed st') (Scene.heatUp st) s).
  { rewrite O. apply min_capped_sum. unfold Constants.TARGET_FPS. field. }
  assert (Kp : kept (Scene.heatUp st') (Scene_observed st') d).
  { rewrite K, O. apply cleanup_kept. }
  split; [|split; assumption].
  unfold Scene_held. rewrite T', V', H', P'.
  repeat split; try assumption. exact (kept_nonneg _ _ _ Kp).
Qed.

(** Holding frames of the component scene, one per value of
    [Math.random()], at the fixed [deltaTime] of 1/60. *)
Definition Scene_holding_frames (rnds : list Q) (st : Scene.t) : Scene.t :=
  fold_left (fun st rnd => Scene.update (1 / 60) rnd st) rnds st.

Lemma Scene_held_frames (s d : Q) (rnds : list Q) (st : Scene.t) :
  Scene_held s d st -> Scene_held s d (Scene_holding_frames rnds st).
Proof.
  revert st. induction rnds as [|r rnds IH]; intros st H; simpl.
  - exact H.
  - apply IH. apply (Scene_held_frame s d r st H).
Qed.

(** A monolithic scene that is ready, has the two parameters [s] and
    [d], and stores no negative heat.  Its hold flag is lowered by
    every frame, so a holding frame is a hold-raising pointer event
    followed by an update. *)
Definition Legacy_ready (s d : Q) (st : LegacyScene.t) : Prop :=
  LegacyScene.textureReady st = true /\ LegacyScene.videoReady st = true
  /\ Constants.heatSensitivity (LegacyScene.parameters st) = s
  /\ Constants.heatDecay (LegacyScene.parameters st) = d
  /\ 0 <= LegacyScene.heatUp st.

Lemma Legacy_raise (s d : Q) (e : LegacyScene.Event) (st : LegacyScene.t) :
  LegacyScene.raises_hold e = true -> Legacy_ready s d st ->
  Legacy_ready s d (LegacyScene.step st e)
  /\ LegacyScene.hold (LegacyScene.step st e) = true
  /\ LegacyScene.heatUp (LegacyScene.step st e) = LegacyScene.heatUp st.
Proof.
  intros R H. destruct e; try discriminate R; cbn [LegacyScene.step];
    (split; [exact H | split; reflexivity]).
Qed.

Lemma Legacy_held_frame (s d rnd : Q) (st : LegacyScene.t) :
  Legacy_ready s d st -> LegacyScene.hold st = true ->
  let st' := LegacyScene.update (1 / 60) rnd st in
  Legacy_ready s d st'
  /\ capped_sum (Legacy_observed st') (LegacyScene.heatUp st) s
  /\ kept (LegacyScene.heatUp st') (Legacy_observed st') d.
Proof.
  intros [T [V [Es [Ed Hh]]]] H st'.
  destruct (Legacy_update_keeps (1 / 60) rnd st) as [T' [V' P']].
  destruct (Legacy_update_heat (1 / 60) rnd st T) as [O K].
  fold st' in T', V', P', O, K.
  specialize (O V). rewrite V, H, Es in O. rewrite V, H, Es, Ed in K.
  assert (C : capped_sum (Legacy_observed st') (LegacyScene.heatUp st) s).
  { rewrite O. apply if_capped_sum. field. }
  assert (Kp : kept (LegacyScene.heatUp st') (Legacy_observed st') d).
  { rewrite K, O. apply cleanup_kept. }
  split; [|split; assumption].
  unfold Legacy_ready. rewrite T', V', P'.
  repeat split; try assumption. exact (kept_nonneg _ _ _ Kp).
Qed.

(** Holding frames of the monolithic scene: each is a hold-raising
    event and the value of [Math.random()] of the update after it. *)
Definition Legacy_holding_frame (st : LegacyScene.t)
  (f : LegacyScene.Event * Q) : LegacyScene.t :=
  LegacyScene.update (1 / 60) (snd f) (LegacyScene.step st (fst f)).

Definition Legacy_holding_frames (fs : list (LegacyScene.Event * Q))
  (st : LegacyScene.t) : LegacyScene.t :=
  fold_left Legacy_holding_frame fs st.

Definition all_raise (fs : list (LegacyScene.Event * Q)) : bool :=
  forallb (fun f => LegacyScene.raises_hold (fst f)) fs.

Lemma Legacy_one_holding_frame (s d : Q) (f : LegacyScene.Event * Q)
  (st : LegacyScene.t) :
  LegacyScene.raises_hold (fst f) = true -> Legacy_ready s d st ->
  let st' := Legacy_holding_frame st f in
  Legacy_ready s d st'
  /\ capped_sum (Legacy_observed st') (LegacyScene.heatUp st) s
  /\ kept (LegacyScene.heatUp st') (Legacy_observed st') d.
Proof.
  intros R H st'.
  destruct (Legacy_raise s d (fst f) st R H) as [H1 [Hh Eh]].
  pose proof (Legacy_held_frame s d (snd f) _ H1 Hh) as K.
  rewrite Eh in K. exact K.
Qed.

Lemma Legacy_ready_frames (s d : Q) (fs : list (LegacyScene.Event * Q))
  (st : LegacyScene.t) :
  all_raise fs = true -> Legacy_ready s d st ->
  Legacy_ready s d (Legacy_holding_frames fs st).
Proof.
  revert st. induction fs as [|f fs IH]; intros st A H; simpl.
  - exact H.
  - simpl in A. apply andb_true_iff in A. destruct A as [Af As].
    apply IH; [exact As|].
    apply (Legacy_one_holding_frame s d f st Af H).
Qed.

Lemma defaults_reach_ceiling :
  reaches_ceiling (Constants.heatSensitivity Constants.DEFAULT_PARAMETERS)
    (Constants.heatDecay Constants.DEFAULT_PARAMETERS).
Proof. unfold reaches_ceiling. simpl. repeat split; lra. Qed.

(** Inside the declared ranges of the two parameters the cleanup is
    never triggered while holding, and the one condition left is that
    [s] is at least [1.3 * (1 - d)]. *)
Lemma declared_ranges_reach_ceiling (s d : Q) :
  0.1 <= s <= 2 -> 0.8 <= d <= 0.99 -> 1.3 * (1 - d) <= s ->
  reaches_ceiling s d.
Proof. intros Hs Hd H. unfold reaches_ceiling. repeat split; nra. Qed.

(** A component scene that is held, stores heat 1.287 (left by a
    frame at sensitivity 2 and decay 0.99) and whose controller has
    since been set to sensitivity 0.1 and decay 0.8, both inside their
    declared ranges. *)
Definition overheated_scene : Scene.t :=
  Scene.run
    [Scene.SetParameter Constants.HeatDecay 0.99;
     Scene.SetParameter Constants.HeatSensitivity 2;
     Scene.Update (1 / 60) 0.5;
     Scene.SetParameter Constants.HeatDecay 0.8;
     Scene.SetParameter Constants.HeatSensitivity 0.1]
    sample_scene.

(** The claim C2 as stated fails: with sensitivity 0.1 > 0 and decay
    0.8, two holding frames at [deltaTime] 1/60 from stored heat
    1.287 (in [0, 1.3]) push 1.3 and then 1.14, so the pushed value
    leaves the ceiling it had reached. *)
Lemma holding_heat_leaves_ceiling :
  let st := overheated_scene in
  let st1 := Scene.update (1 / 60) 0.5 st in
  let st2 := Scene.update (1 / 60) 0.5 st1 in
  Scene.textureReady st = true /\ Scene.videoReady st = true
  /\ Scene_hold st = true /\ Scene_hold st1 = true
  /\ Constants.heatSensitivity (Scene.getParameters st) == 0.1
  /\ Constants.heatDecay (Scene.getParameters st) == 0.8
  /\ Scene.heatUp st == 1.287
  /\ Scene_observed st1 == 1.3
  /\ Scene_observed st2 == 1.14
  /\ Scene_observed st2 < Scene_observed st1
  /\ ~ Scene_observed st2 == 1.3.
Proof.
  vm_compute. repeat split; discriminate.
Qed.

(** C2, amended.  Let the heat sensitivity [s] and the heat decay [d]
    satisfy [0 < s], [0 <= d], [0.001 <= d * s] and
    [1.3 <= 1.3 * d + s] (as the defaults 0.5 and 0.95 do), let the
    scene be ready and store a heat of at least 0, and let holding be
    true for consecutive frames at [deltaTime = 1/60].  Then the heat
    pushed to the accumulator after the accumulation step of a frame
    never exceeds 1.3; while it is below 1.3 the next frame pushes a
    strictly larger value; and once it is 1.3 the next frame pushes
    1.3 again.  In the monolithic scene a holding frame is an update
    preceded by a pointer event that raises the hold flag. *)
Theorem holding_heat_climbs_to_ceiling :
  forall s d : Q,
    reaches_ceiling s d ->
    (forall (st : Scene.t) (rnds : list Q) (r1 r2 : Q),
       Scene_held s d st ->
       let st0 := Scene_holding_frames rnds st in
       let st1 := Scene.update (1 / 60) r1 st0 in
       let st2 := Scene.update (1 / 60) r2 st1 in
       Scene_observed st1 <= 1.3
       /\ (Scene_observed st1 < 1.3 -> Scene_observed st1 < Scene_observed st2)
       /\ (Scene_observed st1 == 1.3 -> Scene_observed st2 == 1.3))
    /\ (forall (st : LegacyScene.t) (fs : list (LegacyScene.Event * Q))
               (f1 f2 : LegacyScene.Event * Q),
          Legacy_ready s d st -> all_raise (fs ++ [f1; f2]) = true ->
          let st0 := Legacy_holding_frames fs st in
          let st1 := Legacy_holding_frame st0 f1 in
          let st2 := Legacy_holding_frame st1 f2 in
          Legacy_observed st1 <= 1.3
          /\ (Legacy_observed st1 < 1.3 ->
              Legacy_observed st1 < Legacy_observed st2)
          /\ (Legacy_observed st1 == 1.3 -> Legacy_observed st2 == 1.3)).
Proof.
  intros s d [Hs [Hd [Hds Hfix]]]. split.
  - intros st rnds r1 r2 H st0 st1 st2.
    pose proof (Scene_held_frames s d rnds st H) as H0. fold st0 in H0.
    destruct (Scene_held_frame s d r1 st0 H0) as [H1 [C1 K1]].
    fold st1 in H1, C1, K1.
    destruct (Scene_held_frame s d r2 st1 H1) as [_ [C2 _]].
    fold st2 in C2.
    apply (accumulate_two_frames s d (Scene.heatUp st0) _
             (Scene.heatUp st1) _); try assumption.
    apply H0.
  - intros st fs f1 f2 H A st0 st1 st2.
    unfold all_raise in A. rewrite forallb_app in A.
    apply andb_true_iff in A. destruct A as [A0 A12].
    simpl in A12. apply andb_true_iff in A12. destruct A12 as [A1 A2].
    apply andb_true_iff in A2. destruct A2 as [A2 _].
    pose proof (Legacy_ready_frames s d fs st A0 H) as H0. fold st0 in H0.
    destruct (Legacy_one_holding_frame s d f1 st0 A1 H0) as [H1 [C1 K1]].
    fold st1 in H1, C1, K1.
    destruct (Legacy_one_holding_frame s d f2 st1 A2 H1) as [_ [C2 _]].
    fold st2 in C2.
    apply (accumulate_two_frames s d (LegacyScene.heatUp st0) _
             (LegacyScene.heatUp st1) _); try assumption.
    apply H0.
Qed.

Lemma sample_scene_held : Scene_held 0.5 0.95 sample_scene.
Proof.
  unfold Scene_held. repeat split; try reflexivity.
  vm_compute. discriminate.
Defined.

Lemma holding_heat_climbs_to_ceiling_witness :
  let st1 := Scene.update (1 / 60) 0.5 sample_scene in
  let st2 := Scene.update (1 / 60) 0.5 st1 in
  reaches_ceiling 0.5 0.95 /\ Scene_held 0.5 0.95 sample_scene
  /\ Scene_observed st1 < Scene_observed st2.
Proof.
  intros st1 st2.
  split; [exact defaults_reach_ceiling|].
  split; [exact sample_scene_held|].
  destruct (proj1 (holding_heat_climbs_to_ceiling 0.5 0.95
                     defaults_reach_ceiling)
              sample_scene [] 0.5 0.5 sample_scene_held) as [_ [H _]].
  apply H. vm_compute. reflexivity.
Defined.

(* ================================================================= *)
(** * Part III: further properties of the code *)
(* ================================================================= *)

(** ** Interpolation helpers *)

(** X1.  [lerpSpeed] is [base * deltaTime * 60] saturated to [0,1], for
    every base and every [deltaTime], negative ones included. *)
Theorem lerpSpeed_is_saturated_fraction :
  forall base deltaTime : Q,
    0 <= MathUtils.lerpSpeed base deltaTime <= 1
    /\ MathUtils.lerpSpeed base deltaTime
       == Qmin (Qmax (base * deltaTime * 60) 0) 1.
Proof.
  intros base deltaTime. unfold MathUtils.lerpSpeed.
  set (n := base * deltaTime * 60). clearbody n.
  repeat js_case; minmax; lra.
Qed.

Lemma lerpSpeed_range (base deltaTime : Q) :
  0 <= MathUtils.lerpSpeed base deltaTime <= 1.
Proof.
  unfold MathUtils.lerpSpeed.
  set (n := base * deltaTime * 60). clearbody n.
  repeat js_case; lra.
Qed.

Lemma lerp_between (a b t : Q) :
  0 <= t <= 1 ->
  Qmin a b <= MathUtils.lerp a b t <= Qmax a b.
Proof.
  intros Ht. unfold MathUtils.lerp. minmax; nra.
Qed.

(** X2.  A smoothing step never overshoots: whatever the speed and the
    frame time, [lerp(a, b, lerpSpeed(base, dt))] lies between [a] and
    [b]; and [lerp] returns its end points at 0 and 1. *)
Theorem smoothing_step_stays_between :
  forall a b base deltaTime : Q,
    let v := MathUtils.lerp a b (MathUtils.lerpSpeed base deltaTime) in
    Qmin a b <= v <= Qmax a b
    /\ MathUtils.lerp a b 0 == a
    /\ MathUtils.lerp a b 1 == b.
Proof.
  intros a b base deltaTime v. split; [|split].
  - apply lerp_between. apply lerpSpeed_range.
  - unfold MathUtils.lerp. ring.
  - unfold MathUtils.lerp. ring.
Qed.

(** X3.  [clamp] is idempotent and never exceeds its upper bound; inside
    the interval it is the identity, and when the bounds are given in
    the wrong order it returns the upper one. *)
Theorem clamp_idempotent_and_bounded :
  forall v lo hi : Q,
    MathUtils.clamp (MathUtils.clamp v lo hi) lo hi == MathUtils.clamp v lo hi
    /\ MathUtils.clamp v lo hi <= hi
    /\ (lo <= v <= hi -> MathUtils.clamp v lo hi == v)
    /\ (hi < lo -> MathUtils.clamp v lo hi == hi).
Proof.
  intros v lo hi. repeat split; intros; minmax; lra.
Qed.

Lemma clamp_idempotent_and_bounded_witness :
  MathUtils.clamp 0.9 0.8 1.0 == 0.9 /\ MathUtils.clamp 5 3 2 == 2.
Proof.
  split.
  - apply (clamp_idempotent_and_bounded 0.9 0.8 1.0). split; lra.
  - apply (clamp_idempotent_and_bounded 5 3 2). lra.
Defined.

(** ** Screen coordinates, continued *)

Lemma normalise_degenerate (c o side : Q) :
  side <= 0 ->
  (if JS.gt side 0 then (c - o) / side else 0.5) = 0.5.
Proof.
  intros H. apply gt_false in H. rewrite H. reflexivity.
Qed.

(** X4.  A rectangle without extent (width and height not positive) sends
    every pointer to the centre (0, 0), and the movement delta is
    then measured from the normalised centre 0.5. *)
Theorem degenerate_rectangle_maps_to_centre :
  forall (b : MathUtils.DOMRect) (x y lastX lastY : Q),
    MathUtils.width b <= 0 -> MathUtils.height b <= 0 ->
    same_point (MathUtils.screenToNDC x y b) 0 0
    /\ same_point (MathUtils.calculateMovementDelta x y lastX lastY b)
         (0.5 - lastX) (0.5 - lastY).
Proof.
  intros b x y lastX lastY Hw Hh.
  unfold same_point, MathUtils.screenToNDC, MathUtils.calculateMovementDelta.
  simpl. rewrite !(normalise_degenerate _ _ _ Hw),
    !(normalise_degenerate _ _ _ Hh).
  repeat split; lra.
Qed.

Lemma degenerate_rectangle_maps_to_centre_witness :
  same_point
    (MathUtils.screenToNDC 37 (-4) (MathUtils.mkDOMRect 10 20 0 0)) 0 0.
Proof.
  apply (degenerate_rectangle_maps_to_centre
           (MathUtils.mkDOMRect 10 20 0 0) 37 (-4) 0 0); simpl; lra.
Defined.

(** X5.  For a rectangle with extent, the movement delta measured from the
    normalised position of a previous pointer is half the difference
    of the two NDC positions, with the sign of the second coordinate
    reversed: the delta is in 0..1 units with Y pointing down. *)
Theorem movement_delta_is_half_ndc_difference :
  forall (b : MathUtils.DOMRect) (x y px py : Q),
    0 < MathUtils.width b -> 0 < MathUtils.height b ->
    let lastX := (px - MathUtils.left b) / MathUtils.width b in
    let lastY := (py - MathUtils.top b) / MathUtils.height b in
    let d := MathUtils.calculateMovementDelta x y lastX lastY b in
    let p := MathUtils.screenToNDC x y b in
    let q := MathUtils.screenToNDC px py b in
    Three.x2 d == (Three.x2 p - Three.x2 q) / 2
    /\ Three.y2 d == - (Three.y2 p - Three.y2 q) / 2.
Proof.
  intros b x y px py Hw Hh. simpl.
  rewrite !(normalise_positive _ _ _ Hw), !(normalise_positive _ _ _ Hh).
  split; field; lra.
Qed.

Lemma movement_delta_is_half_ndc_difference_witness :
  let b := MathUtils.mkDOMRect 10 20 800 600 in
  Three.x2 (MathUtils.calculateMovementDelta 410 320 ((10 - 10) / 800)
              ((20 - 20) / 600) b)
  == (Three.x2 (MathUtils.screenToNDC 410 320 b)
      - Three.x2 (MathUtils.screenToNDC 10 20 b)) / 2.
Proof.
  intros b.
  apply (movement_delta_is_half_ndc_difference b 410 320 10 20);
    simpl; lra.
Defined.

(** X6.  Pushing the NDC position of a pointer to the accumulator with
    [normalized = true] recovers the pointer's normalised position in
    the rectangle, with the second coordinate measured from the
    bottom; inside the rectangle both lie in [0,1]. *)
Theorem accumulator_position_of_pointer :
  forall (b : MathUtils.DOMRect) (x y : Q) (dr : DrawRenderer.t),
    0 < MathUtils.width b -> 0 < MathUtils.height b ->
    let p := MathUtils.screenToNDC x y b in
    let u := DrawRenderer.uPosition
               (DrawRenderer.uniforms
                  (DrawRenderer.updatePosition (Three.x2 p) (Three.y2 p)
                     true dr)) in
    let nx := (x - MathUtils.left b) / MathUtils.width b in
    let ny := (y - MathUtils.top b) / MathUtils.height b in
    Three.x2 u == nx /\ Three.y2 u == 1 - ny
    /\ (MathUtils.left b <= x <= MathUtils.left b + MathUtils.width b ->
        0 <= Three.x2 u <= 1)
    /\ (MathUtils.top b <= y <= MathUtils.top b + MathUtils.height b ->
        0 <= Three.y2 u <= 1).
Proof.
  intros b x y dr Hw Hh. simpl.
  rewrite !(normalise_positive _ _ _ Hw), !(normalise_positive _ _ _ Hh).
  set (nx := (x - MathUtils.left b) / MathUtils.width b).
  set (ny := (y - MathUtils.top b) / MathUtils.height b).
  split; [lra|]. split; [lra|]. split; intros H.
  - assert (0 <= nx) by (apply Qle_shift_div_l; lra).
    assert (nx <= 1) by (apply Qle_shift_div_r; lra). lra.
  - assert (0 <= ny) by (apply Qle_shift_div_l; lra).
    assert (ny <= 1) by (apply Qle_shift_div_r; lra). lra.
Qed.

Lemma accumulator_position_of_pointer_witness :
  let b := MathUtils.mkDOMRect 10 20 800 600 in
  let p := MathUtils.screenToNDC 10 20 b in
  let dr := fst (DrawRenderer.new 256 (DrawRenderer.mkOptions None None)
                   0%nat) in
  Three.y2
    (DrawRenderer.uPosition
       (DrawRenderer.uniforms
          (DrawRenderer.updatePosition (Three.x2 p) (Three.y2 p) true dr)))
  == 1 - (20 - 20) / 600.
Proof.
  intros b p dr.
  apply (accumulator_position_of_pointer b 10 20 dr); simpl; lra.
Defined.

(** ** The accumulator, continued *)

(** Number of [render] calls in a call history. *)
Definition count_renders (cs : list DrawRenderer.Call) : nat :=
  length
    (filter (fun c => match c with
                      | DrawRenderer.CRender => true
                      | _ => false
                      end)
       cs).

(** The accumulator after a history with an even number of renders
    ([swapped = false]) or an odd one ([swapped = true]), built with
    side [size] when [next] textures existed. *)
Definition targets_are (size : Q) (next : Three.TextureId) (swapped : bool)
  (dr : DrawRenderer.t) : Prop :=
  DrawRenderer.rt_size (DrawRenderer.renderTargetA dr) = size
  /\ DrawRenderer.rt_size (DrawRenderer.renderTargetB dr) = size
  /\ DrawRenderer.texture (DrawRenderer.renderTargetA dr)
     = (if swapped then S next else next)
  /\ DrawRenderer.texture (DrawRenderer.renderTargetB dr)
     = (if swapped then next else S next).

Lemma call_targets (size : Q) (next : Three.TextureId) (swapped : bool)
  (c : DrawRenderer.Call) (s : DrawRenderer.t * DrawRenderer.WebGLRenderer) :
  targets_are size next swapped (fst s) ->
  targets_are size next
    (match c with DrawRenderer.CRender => negb swapped | _ => swapped end)
    (fst (DrawRenderer.call c s)).
Proof.
  destruct s as [dr r]. unfold targets_are.
  destruct c; simpl; intros H; try exact H.
  destruct H as [H1 [H2 [H3 H4]]].
  destruct swapped; simpl; auto.
Qed.

Lemma calls_targets (size : Q) (next : Three.TextureId)
  (cs : list DrawRenderer.Call) (swapped : bool)
  (s : DrawRenderer.t * DrawRenderer.WebGLRenderer) :
  targets_are size next swapped (fst s) ->
  targets_are size next
    (if Nat.even (count_renders cs) then swapped else negb swapped)
    (fst (DrawRenderer.calls cs s)).
Proof.
  revert swapped s. induction cs as [|c cs IH]; intros swapped s H.
  - simpl. exact H.
  - pose proof (call_targets size next swapped c s H) as K.
    specialize (IH _ _ K). simpl DrawRenderer.calls.
    unfold DrawRenderer.calls in IH.
    destruct c; try exact IH.
    unfold count_renders in *. simpl filter. simpl length.
    rewrite Nat.even_succ, <- Nat.negb_even.
    destruct (Nat.even _); simpl in *; rewrite ?negb_involutive in IH;
      exact IH.
Qed.

(** X7.  Whatever methods are called, the two render targets keep the side
    given to the constructor and the two textures allocated by it
    ([resize] reallocates nothing), and which of the two [getTexture]
    returns is decided by the parity of the number of renders alone:
    the second texture after an even number, the first after an odd
    one. *)
Theorem accumulator_targets_fixed_and_parity :
  forall (size : Q) (opts : DrawRenderer.DrawRendererOptions)
         (next : Three.TextureId) (r0 : DrawRenderer.WebGLRenderer)
         (history : list DrawRenderer.Call),
    let dr := fst (DrawRenderer.calls history
                     (fst (DrawRenderer.new size opts next), r0)) in
    DrawRenderer.rt_size (DrawRenderer.renderTargetA dr) = size
    /\ DrawRenderer.rt_size (DrawRenderer.renderTargetB dr) = size
    /\ DrawRenderer.getTexture dr
       = (if Nat.even (count_renders history) then S next else next)
    /\ DrawRenderer.options dr = opts.
Proof.
  intros size opts next r0 history dr.
  assert (T : targets_are size next false
                (fst (fst (DrawRenderer.new size opts next), r0))).
  { unfold targets_are. simpl. auto. }
  pose proof (calls_targets size next history false _ T) as K.
  fold dr in K. destruct K as [K1 [K2 [K3 K4]]].
  split; [exact K1|]. split; [exact K2|]. split.
  - unfold DrawRenderer.getTexture. rewrite K4.
    destruct (Nat.even _); reflexivity.
  - subst dr. clear.
    assert (G : forall cs s,
               DrawRenderer.options (fst (DrawRenderer.calls cs s))
               = DrawRenderer.options (fst s)).
    { induction cs as [|c cs IH]; intros s; [reflexivity|].
      simpl. unfold DrawRenderer.calls in IH. rewrite IH.
      destruct s as [d r]. destruct c; reflexivity. }
    rewrite G. reflexivity.
Qed.

(** X8.  One [render] on an accumulator in any reachable state: the pass
    is drawn into the target that [getTexture] did not return, with
    [uTexture] bound to the texture that [getTexture] did return, so
    it never samples the surface it writes; afterwards [getTexture]
    returns the surface just written.  The target is cleared first
    exactly when the renderer's [autoClear] is on, and the renderer's
    current render target and [autoClear] are left as found. *)
Theorem render_reads_previous_output_writes_other :
  forall (size : Q) (opts : DrawRenderer.DrawRendererOptions)
         (next : Three.TextureId) (r0 : DrawRenderer.WebGLRenderer)
         (history : list DrawRenderer.Call),
    let s := DrawRenderer.calls history
               (fst (DrawRenderer.new size opts next), r0) in
    let s1 := DrawRenderer.render (fst s) (snd s) in
    exists (written : Three.TextureId) (u : DrawRenderer.DrawRendererUniforms),
      DrawRenderer.commands (snd s1)
      = DrawRenderer.commands (snd s)
        ++ (if DrawRenderer.autoClear (snd s)
            then [DrawRenderer.Clear (Some written)] else [])
        ++ [DrawRenderer.DrawPass (Some written) u]
      /\ DrawRenderer.uTexture u = Some (DrawRenderer.getTexture (fst s))
      /\ written <> DrawRenderer.getTexture (fst s)
      /\ DrawRenderer.getTexture (fst s1) = written
      /\ DrawRenderer.currentRenderTarget (snd s1)
         = DrawRenderer.currentRenderTarget (snd s)
      /\ DrawRenderer.autoClear (snd s1) = DrawRenderer.autoClear (snd s).
Proof.
  intros size opts next r0 history s s1.
  assert (D : distinct_targets (fst s)).
  { apply calls_distinct_targets. apply new_distinct_targets. }
  destruct s as [dr r]. simpl in *.
  exists (DrawRenderer.texture (DrawRenderer.renderTargetA dr)).
  eexists. subst s1. unfold DrawRenderer.render. simpl.
  split.
  - destruct (DrawRenderer.autoClear r); simpl.
    + rewrite <- app_assoc. reflexivity.
    + reflexivity.
  - repeat split. exact D.
Qed.

(** ** The parameter controller, continued *)

Section ControllerProperties.

Import Constants.

Lemma get_set_other (n m : ParamName) (v : Q) (p : EffectParameters) :
  m <> n -> get m (set n v p) = get m p.
Proof. destruct p, n, m; intros; try reflexivity; congruence. Qed.

(** Every parameter lies in its declared range. *)
Definition in_declared_ranges (p : EffectParameters) : Prop :=
  forall name r, PARAMETER_RANGES name = Some r ->
                 min r <= get name p <= max r.

Lemma defaults_in_declared_ranges : in_declared_ranges DEFAULT_PARAMETERS.
Proof.
  intros name r H. destruct name; inversion H; subst; simpl; lra.
Qed.

Context {Host : Type}.
Variable onParameterChange :
  ParameterController.t -> ParamName -> Q -> Host -> Host.
Variable onReset : ParameterController.t -> Host -> Host.

Lemma setParameter_keeps_ranges (name : ParamName) (v : Q)
  (s : ParameterController.t * Host) :
  in_declared_ranges (ParameterController.parameters (fst s)) ->
  in_declared_ranges
    (ParameterController.parameters
       (fst (ParameterController.setParameter onParameterChange name v s))).
Proof.
  destruct s as [pc h]. intros H m r Hm.
  destruct (ParamName_eq_dec m name) as [E | N].
  - subst m.
    pose proof (setParameter_stores onParameterChange name v pc h r Hm) as K.
    unfold ParameterController.getParameter in K. rewrite K.
    assert (Hle : min r <= max r).
    { destruct (ranges_declared name) as [r' [Hr' L]]. congruence. }
    rewrite (max_min_is_clamp v _ _ Hle). apply clamp_in_range. exact Hle.
  - unfold ParameterController.setParameter. simpl.
    destruct (PARAMETER_RANGES name); simpl;
      rewrite (get_set_other name m _ _ N); apply H; exact Hm.
Qed.

Lemma setParameters_keeps_ranges (entries : list (ParamName * Q))
  (s : ParameterController.t * Host) :
  in_declared_ranges (ParameterController.parameters (fst s)) ->
  in_declared_ranges
    (ParameterController.parameters
       (fst (ParameterController.setParameters onParameterChange entries s))).
Proof.
  unfold ParameterController.setParameters.
  revert s. induction entries as [|[name v] entries IH]; intros s H.
  - exact H.
  - simpl. apply IH.
    pose proof (setParameter_keeps_ranges name v s H) as K.
    destruct (ParameterController.setParameter _ _ _ _) as [pc h].
    destruct (existsb _ _); exact K.
Qed.

(** The methods of the controller, to speak of call sequences. *)
Inductive ControllerCall :=
| CSetParameter (name : ParamName) (value : Q)
| CSetParameters (entries : list (ParamName * Q))
| CResetToDefaults
| CResetButton
| CDispose.

Definition controller_call (s : ParameterController.t * Host)
  (c : ControllerCall) : ParameterController.t * Host :=
  match c with
  | CSetParameter name v =>
      ParameterController.setParameter onParameterChange name v s
  | CSetParameters entries =>
      ParameterController.setParameters onParameterChange entries s
  | CResetToDefaults =>
      ParameterController.resetToDefaults onParameterChange s
  | CResetButton =>
      ParameterController.resetButton onParameterChange onReset s
  | CDispose => (ParameterController.dispose (fst s), snd s)
  end.

Lemma controller_call_keeps_ranges (s : ParameterController.t * Host)
  (c : ControllerCall) :
  in_declared_ranges (ParameterController.parameters (fst s)) ->
  in_declared_ranges
    (ParameterController.parameters (fst (controller_call s c))).
Proof.
  intros H. destruct c; simpl.
  - apply setParameter_keeps_ranges. exact H.
  - apply setParameters_keeps_ranges. exact H.
  - pose proof (resetToDefaults_parameters onParameterChange s) as K.
    unfold ParameterController.getAllParameters in K. rewrite K.
    exact defaults_in_declared_ranges.
  - unfold ParameterController.resetButton.
    pose proof (resetToDefaults_parameters onParameterChange s) as K.
    unfold ParameterController.getAllParameters in K.
    destruct (ParameterController.resetToDefaults _ _) as [pc h].
    simpl in *. rewrite K. exact defaults_in_declared_ranges.
  - exact H.
Qed.

Lemma controller_calls_keep_ranges (cs : list ControllerCall)
  (s : ParameterController.t * Host) :
  in_declared_ranges (ParameterController.parameters (fst s)) ->
  in_declared_ranges
    (ParameterController.parameters (fst (fold_left controller_call cs s))).
Proof.
  revert s. induction cs as [|c cs IH]; intros s H; simpl.
  - exact H.
  - apply IH. apply controller_call_keeps_ranges. exact H.
Qed.

End ControllerProperties.

(** X9.  From its construction on, through any sequence of
    [setParameter], [setParameters], [resetToDefaults], reset button
    and [dispose] calls, with any callbacks, the controller holds
    every one of its nine parameters inside the declared range. *)
Theorem controller_parameters_always_in_range :
  forall (Host : Type)
         (cb : ParameterController.t -> Constants.ParamName -> Q ->
               Host -> Host)
         (onReset : ParameterController.t -> Host -> Host)
         (cs : list (ControllerCall)) (h : Host)
         (name : Constants.ParamName),
  exists r : Constants.Range,
    Constants.PARAMETER_RANGES name = Some r
    /\ Constants.min r
       <= ParameterController.getParameter name
            (fst (fold_left (controller_call cb onReset) cs
                    (ParameterController.new, h)))
       <= Constants.max r.
Proof.
  intros Host cb onReset cs h name.
  destruct (ranges_declared name) as [r [Hr _]].
  exists r. split; [exact Hr|].
  apply (controller_calls_keep_ranges cb onReset cs
           (ParameterController.new, h)); [|exact Hr].
  exact defaults_in_declared_ranges.
Qed.

(** X10.  [setParameter(name, v)] changes the parameter [name] and nothing
    else of the controller, hands the callback the stored (clamped)
    value, stores an in-range [v] as it is, and writing back the
    value just read changes nothing. *)
Theorem setParameter_touches_one_parameter :
  forall (Host : Type)
         (cb : ParameterController.t -> Constants.ParamName -> Q ->
               Host -> Host)
         (name : Constants.ParamName) (v : Q)
         (pc : ParameterController.t) (h : Host),
    let s' := ParameterController.setParameter cb name v (pc, h) in
    let stored := ParameterController.getParameter name (fst s') in
    (forall m, m <> name ->
       ParameterController.getParameter m (fst s')
       = ParameterController.getParameter m pc)
    /\ ParameterController.parameterControls (fst s')
       = ParameterController.parameterControls pc
    /\ ParameterController.sliders (fst s') = ParameterController.sliders pc
    /\ snd s' = cb (fst s') name stored h
    /\ (forall r, Constants.PARAMETER_RANGES name = Some r ->
          Constants.min r <= v <= Constants.max r -> stored == v)
    /\ ParameterController.getParameter name
         (fst (ParameterController.setParameter cb name stored s'))
       == stored.
Proof.
  intros Host cb name v pc h s' stored.
  destruct (ranges_declared name) as [r [Hr Hle]].
  assert (St : stored = JS.Math_max (Constants.min r)
                          (JS.Math_min (Constants.max r) v)).
  { apply setParameter_stores. exact Hr. }
  repeat split.
  - intros m N. unfold ParameterController.getParameter.
    subst s'. unfold ParameterController.setParameter. simpl.
    apply get_set_other. exact N.
  - subst stored s'. unfold ParameterController.setParameter,
      ParameterController.getParameter. simpl. rewrite get_set_same.
    reflexivity.
  - intros r' Hr' Hv. assert (r' = r) by congruence. subst r'.
    rewrite St. minmax; lra.
  - destruct s' as [pc' h'] eqn:E.
    rewrite (setParameter_stores cb name stored pc' h' r Hr).
    rewrite St. minmax; lra.
Qed.

Lemma setParameter_touches_one_parameter_witness :
  ParameterController.getParameter Constants.HeatDecay
    (fst (ParameterController.setParameter
            (fun _ _ _ (h : unit) => h) Constants.HeatDecay 0.9
            (ParameterController.new, tt)))
  == 0.9.
Proof.
  destruct (setParameter_touches_one_parameter unit
              (fun _ _ _ (h : unit) => h) Constants.HeatDecay 0.9
              ParameterController.new tt) as [_ [_ [_ [_ [H _]]]]].
  apply (H (Constants.mkRange 0.8 0.99 0.01)); [reflexivity|].
  simpl. lra.
Defined.

(** X11.  The callback of [resetToDefaults] is called once per control, in
    the order of the controls, each time with the parameter's default
    value and with the controller already holding all nine defaults;
    after [dispose] there are no controls left, so a reset still
    restores the parameters but notifies nobody. *)
Theorem resetToDefaults_notifies_each_control_once :
  forall (pc : ParameterController.t)
         (log : list (Constants.ParamName * Q * Constants.EffectParameters)),
    let record :=
      fun (c : ParameterController.t) (n : Constants.ParamName) (v : Q)
          (l : list (Constants.ParamName * Q * Constants.EffectParameters)) =>
        l ++ [(n, v, ParameterController.getAllParameters c)] in
    snd (ParameterController.resetToDefaults record (pc, log))
    = log ++ map (fun n => (n, Constants.get n Constants.DEFAULT_PARAMETERS,
                            Constants.DEFAULT_PARAMETERS))
               (ParameterController.parameterControls pc)
    /\ snd (ParameterController.resetToDefaults record
              (ParameterController.dispose pc, log)) = log
    /\ ParameterController.getAllParameters
         (fst (ParameterController.resetToDefaults record
                 (ParameterController.dispose pc, log)))
       = Constants.DEFAULT_PARAMETERS.
Proof.
  intros pc log record. split; [|split; reflexivity].
  unfold ParameterController.resetToDefaults.
  set (f := fun (s : ParameterController.t * _) param => _).
  assert (G : forall names c l,
             ParameterController.parameters c = Constants.DEFAULT_PARAMETERS ->
             snd (fold_left f names (c, l))
             = l ++ map (fun n =>
                           (n, Constants.get n Constants.DEFAULT_PARAMETERS,
                            Constants.DEFAULT_PARAMETERS)) names).
  { induction names as [|n names IH]; intros c l Hc; simpl.
    - rewrite app_nil_r. reflexivity.
    - rewrite IH by exact Hc. unfold record.
      unfold ParameterController.getAllParameters. simpl. rewrite Hc.
      rewrite <- app_assoc. reflexivity. }
  apply G. reflexivity.
Qed.

(** ** The interaction manager, continued *)

(** The handlers of the manager, to speak of event sequences. *)
Inductive PointerCall :=
| PMove (clientX clientY : Q) (bounds : MathUtils.DOMRect)
| PDown (clientX clientY : Q) (bounds : MathUtils.DOMRect)
| PEnter (clientX clientY : Q) (bounds : MathUtils.DOMRect)
| PUp
| PLeave
| PGlobalMove (clientX clientY : Q) (bounds : MathUtils.DOMRect).

Definition pointer_call {Host : Type}
  (onPositionUpdate : Three.Vector3 -> Three.Vector2 -> Host -> Host)
  (onInteractionChange : bool -> Host -> Host)
  (s : InteractionManager.t * Host) (c : PointerCall)
  : InteractionManager.t * Host :=
  match c with
  | PMove x y b =>
      InteractionManager.handlePointerMove onPositionUpdate
        onInteractionChange x y b s
  | PDown x y b =>
      InteractionManager.handlePointerDown onPositionUpdate
        onInteractionChange x y b s
  | PEnter x y b =>
      InteractionManager.handlePointerEnter onPositionUpdate x y b s
  | PUp => InteractionManager.handlePointerUp onInteractionChange s
  | PLeave => InteractionManager.handlePointerLeave onInteractionChange s
  | PGlobalMove x y b =>
      InteractionManager.handleGlobalPointerMove onPositionUpdate
        onInteractionChange x y b s
  end.

(** A list of flags in which each differs from the one before it,
    [prev] being the one before the first. *)
Fixpoint alternates (prev : bool) (l : list bool) : bool :=
  match l with
  | [] => true
  | b :: l' => negb (Bool.eqb prev b) && alternates b l'
  end.

Lemma last_cons_default (a d d' : bool) (l : list bool) :
  last (a :: l) d = last (a :: l) d'.
Proof.
  revert a. induction l as [|c l IH]; intros a; [reflexivity|].
  change (last (c :: l) d = last (c :: l) d'). apply IH.
Qed.

Lemma alternates_snoc (prev b : bool) (l : list bool) :
  alternates prev (l ++ [b])
  = alternates prev l && negb (Bool.eqb (last l prev) b).
Proof.
  revert prev. induction l as [|a l IH]; intros prev.
  - simpl. rewrite andb_true_r. reflexivity.
  - cbn [app alternates]. rewrite IH, andb_assoc.
    destruct l as [|c l]; [reflexivity|].
    change (last (a :: c :: l) prev) with (last (c :: l) prev).
    rewrite (last_cons_default c prev a l). reflexivity.
Qed.

Lemma last_snoc (b d : bool) (l : list bool) : last (l ++ [b]) d = b.
Proof. apply last_last. Qed.

Definition hold_of (im : InteractionManager.t) : bool :=
  InteractionManager.hold (InteractionManager.interactionState im).

(** The state of the manager agrees with the log of the changes it
    has announced. *)
Definition announced (s : InteractionManager.t * list bool) : Prop :=
  alternates false (snd s) = true /\ last (snd s) false = hold_of (fst s).

Definition log_change (b : bool) (l : list bool) : list bool := l ++ [b].
Definition ignore_position (_ : Three.Vector3) (_ : Three.Vector2)
  (l : list bool) : list bool := l.

Lemma setInteracting_announced (b : bool)
  (s : InteractionManager.t * list bool) :
  announced s ->
  announced (InteractionManager.setInteracting log_change b s).
Proof.
  destruct s as [im l]. unfold announced, hold_of. simpl. intros [A L].
  unfold InteractionManager.setInteracting.
  destruct (negb (Bool.eqb _ b)) eqn:E; simpl; [|split; assumption].
  unfold log_change. rewrite alternates_snoc, last_snoc, A, L, E.
  split; reflexivity.
Qed.

Lemma updatePosition_announced (x y : Q) (bd : MathUtils.DOMRect)
  (s : InteractionManager.t * list bool) :
  announced s ->
  announced (InteractionManager.updatePosition ignore_position x y bd s).
Proof. destruct s as [im l]. intros H. exact H. Qed.

Lemma pointer_call_announced (s : InteractionManager.t * list bool)
  (c : PointerCall) :
  announced s -> announced (pointer_call ignore_position log_change s c).
Proof.
  intros H. destruct c; simpl;
    unfold InteractionManager.handlePointerMove,
      InteractionManager.handlePointerDown,
      InteractionManager.handlePointerEnter,
      InteractionManager.handlePointerUp,
      InteractionManager.handlePointerLeave,
      InteractionManager.handleGlobalPointerMove,
      InteractionManager.updateGlobalPosition;
    repeat first [apply setInteracting_announced
                 | apply updatePosition_announced]; exact H.
Qed.

(** X12.  The change callback is edge triggered.  Over any sequence of
    pointer events on a new manager, the flags handed to
    [onInteractionChange] alternate, starting with [true]; the last
    one is the current [hold]; and there are never more
    announcements than events.  A pointer-enter never changes
    [hold]. *)
Theorem interaction_changes_are_edge_triggered :
  forall (events : list PointerCall),
    let s := fold_left (pointer_call ignore_position log_change) events
               (InteractionManager.new, []) in
    alternates false (snd s) = true
    /\ last (snd s) false = hold_of (fst s)
    /\ (length (snd s) <= length events)%nat
    /\ (forall x y b,
          hold_of (fst (pointer_call ignore_position log_change s
                          (PEnter x y b)))
          = hold_of (fst s)).
Proof.
  intros events s.
  assert (G : forall es s0, announced s0 ->
                announced (fold_left
                             (pointer_call ignore_position log_change) es s0)).
  { induction es as [|e es IH]; intros s0 H0; simpl; [exact H0|].
    apply IH. apply pointer_call_announced. exact H0. }
  assert (N : forall es s0,
                (length (snd (fold_left
                     (pointer_call ignore_position log_change) es s0))
                 <= length (snd s0) + length es)%nat).
  { induction es as [|e es IH]; intros s0; simpl; [lia|].
    specialize (IH (pointer_call ignore_position log_change s0 e)).
    assert (S1 : (length (snd (pointer_call ignore_position log_change s0 e))
                  <= S (length (snd s0)))%nat).
    { destruct s0 as [im l]. destruct e; simpl;
        unfold InteractionManager.handlePointerMove,
          InteractionManager.handlePointerDown,
          InteractionManager.handlePointerEnter,
          InteractionManager.handlePointerUp,
          InteractionManager.handlePointerLeave,
          InteractionManager.handleGlobalPointerMove,
          InteractionManager.updateGlobalPosition,
          InteractionManager.setInteracting,
          InteractionManager.updatePosition, ignore_position, log_change;
        simpl; try destruct (negb _); simpl;
        rewrite ?length_app; simpl; lia. }
    lia. }
  destruct (G events (InteractionManager.new, [])) as [A L].
  { split; reflexivity. }
  fold s in A, L.
  split; [exact A|]. split; [exact L|]. split.
  - specialize (N events (InteractionManager.new, [])). simpl in N.
    exact N.
  - intros x y b. destruct s as [im l]. reflexivity.
Qed.

(** X13.  The second of two pointer updates at the same client position,
    measured against the same rectangle, reports no movement:
    the callback receives the direction (0, 0), whatever the
    rectangle; and the position it receives is the NDC position of
    the pointer. *)
Theorem repeated_position_reports_no_movement :
  forall (im : InteractionManager.t) (x y : Q) (b : MathUtils.DOMRect)
         (log : list (Three.Vector3 * Three.Vector2)),
    let record :=
      fun (p : Three.Vector3) (d : Three.Vector2)
          (l : list (Three.Vector3 * Three.Vector2)) => l ++ [(p, d)] in
    let s1 := InteractionManager.updatePosition record x y b (im, log) in
    let s2 := InteractionManager.updatePosition record x y b s1 in
    exists (p : Three.Vector3) (d : Three.Vector2),
      snd s2 = snd s1 ++ [(p, d)]
      /\ Three.x2 d == 0 /\ Three.y2 d == 0
      /\ Three.x3 p = Three.x2 (MathUtils.screenToNDC x y b)
      /\ Three.y3 p = Three.y2 (MathUtils.screenToNDC x y b)
      /\ InteractionManager.target (InteractionManager.mouseState (fst s2))
         = p.
Proof.
  intros im x y b log record s1 s2.
  subst s2 s1. unfold InteractionManager.updatePosition. simpl.
  eexists. eexists. split; [reflexivity|].
  simpl. repeat split; ring.
Qed.

(** ** The two scenes, continued *)

(** X14.  The video clock after a frame that does its work: a time at or
    past the end of the loop window is set back to its start, any
    other time is left alone, so the clock a frame leaves is always
    before the end of the window; the frame never pauses or resumes
    the video.  Both scenes. *)
Theorem frame_wraps_video_clock :
  (forall (dt rnd : Q) (st : Scene.t),
     Scene.textureReady st = true -> Scene.videoReady st = true ->
     let t := Anim.currentTime (Scene.video st) in
     let v' := Scene.video (Scene.update dt rnd st) in
     (11.95 <= t -> Anim.currentTime v' = 2.95)
     /\ (t < 11.95 -> Anim.currentTime v' = t)
     /\ Anim.currentTime v' < 11.95
     /\ Anim.paused v' = Anim.paused (Scene.video st))
  /\ (forall (dt rnd : Q) (st : LegacyScene.t),
        LegacyScene.textureReady st = true ->
        LegacyScene.videoReady st = true ->
        let t := Anim.currentTime (LegacyScene.video st) in
        let v' := LegacyScene.video (LegacyScene.update dt rnd st) in
        (11.95 <= t -> Anim.currentTime v' = 2.95)
        /\ (t < 11.95 -> Anim.currentTime v' = t)
        /\ Anim.currentTime v' < 11.95
        /\ Anim.paused v' = Anim.paused (LegacyScene.video st)).
Proof.
  split.
  - intros dt rnd st T V t v'. subst v'.
    unfold Scene.update. rewrite T. simpl.
    unfold Scene.updateHeatInteraction, Scene.updateVideoLoop. simpl.
    rewrite V. simpl. fold t. unfold Constants.LOOP_END_TIME.
    destruct (JS.ge t 11.95) eqn:E; simpl; rewrite V; simpl.
    + apply ge_true in E. repeat split; try reflexivity; intros; lra.
    + assert (L : t < 11.95).
      { apply Qnot_le_lt. intro C. apply ge_true in C. congruence. }
      fold t. repeat split; try reflexivity; intros; lra.
  - intros dt rnd st T V t v'. subst v'.
    unfold LegacyScene.update. rewrite T. simpl. rewrite V. fold t.
    destruct (JS.ge t 11.95) eqn:E; simpl.
    + apply ge_true in E. repeat split; try reflexivity; intros; lra.
    + assert (L : t < 11.95).
      { apply Qnot_le_lt. intro C. apply ge_true in C. congruence. }
      fold t. repeat split; try reflexivity; intros; lra.
Qed.

(** A legacy scene whose video clock has run past the loop window. *)
Definition late_legacy_scene : LegacyScene.t :=
  LegacyScene.step sample_legacy_scene (LegacyScene.VideoClock 12).

Lemma frame_wraps_video_clock_witness :
  Anim.currentTime
    (Scene.video
       (Scene.update (1 / 60) 0.5
          (Scene.step sample_scene (Scene.VideoClock 12)))) = 2.95
  /\ Anim.currentTime
       (LegacyScene.video (LegacyScene.update (1 / 60) 0.5 late_legacy_scene))
     = 2.95.
Proof.
  split.
  - apply (proj1 frame_wraps_video_clock (1 / 60) 0.5
             (Scene.step sample_scene (Scene.VideoClock 12)));
      try reflexivity.
    simpl. lra.
  - apply (proj2 frame_wraps_video_clock (1 / 60) 0.5 late_legacy_scene);
      try reflexivity.
    simpl. lra.
Defined.

(** X15.  The ready handler acts once.  Its first run raises both flags,
    creates the video texture, aims the effect amount at 1 and sets
    the video blend value to 1; any later run returns the scene as it
    is, whatever the platform answers to [play()].  Both scenes. *)
Theorem video_ready_handler_runs_once :
  (forall (a b : bool) (st : Scene.t),
     let st1 := Scene.handleVideoReady a st in
     Scene.handleVideoReady b st1 = st1
     /\ (Scene.videoReady st = false ->
         Scene.videoReady st1 = true /\ Scene.textureReady st1 = true
         /\ Scene.videoTexture st1 = Some (Scene.textures_made st)
         /\ Anim.target (Anim.amount (Scene.animationValues st1)) = 1
         /\ Anim.value (Anim.blendVideo (Scene.animationValues st1)) = 1))
  /\ (forall (a b : bool) (st : LegacyScene.t),
        let st1 := LegacyScene.onVideoReady a st in
        LegacyScene.onVideoReady b st1 = st1
        /\ (LegacyScene.videoReady st = false ->
            LegacyScene.videoReady st1 = true
            /\ LegacyScene.textureReady st1 = true
            /\ LegacyScene.videoTexture st1
               = Some (LegacyScene.textures_made st)
            /\ Anim.target (Anim.amount (LegacyScene.animationValues st1)) = 1
            /\ Anim.value
                 (Anim.blendVideo (LegacyScene.animationValues st1)) = 1)).
Proof.
  split; intros a b st st1; subst st1.
  - unfold Scene.handleVideoReady.
    destruct (Scene.videoReady st) eqn:V.
    + rewrite V. split; [reflexivity | discriminate].
    + simpl. split; [reflexivity | intros _; repeat split].
  - unfold LegacyScene.onVideoReady.
    destruct (LegacyScene.videoReady st) eqn:V.
    + rewrite V. split; [reflexivity | discriminate].
    + simpl. split; [reflexivity | intros _; repeat split].
Qed.

Lemma video_ready_handler_runs_once_witness :
  Scene.videoReady
    (Scene.handleVideoReady true (Scene.init false sample_renderer))
  = true
  /\ LegacyScene.videoReady
       (LegacyScene.onVideoReady false
          (LegacyScene.init false sample_renderer)) = true.
Proof.
  split.
  - apply (proj1 video_ready_handler_runs_once true true
             (Scene.init false sample_renderer)). reflexivity.
  - apply (proj2 video_ready_handler_runs_once false true
             (LegacyScene.init false sample_renderer)). reflexivity.
Defined.

(** The six uniforms that carry HUD parameters hold the parameters'
    values. *)
Definition material_shows (p : Constants.EffectParameters)
  (u : ThermalMaterial.ThermalShaderUniforms) : Prop :=
  ThermalMaterial.effectIntensity u = Constants.effectIntensity p
  /\ ThermalMaterial.colorSaturation u = Constants.colorSaturation p
  /\ ThermalMaterial.gradientShift u = Constants.gradientShift p
  /\ ThermalMaterial.interactionSize u = Constants.interactionRadius p
  /\ ThermalMaterial.power u = Constants.contrastPower p
  /\ ThermalMaterial.blendVideo u = Constants.videoBlendAmount p.

(** X16.  In the monolithic scene a parameter write does not reach the
    shader by itself: [setParameter] and [resetParameters] leave the
    uniforms as they are, and it is the next frame that does its work
    which copies all parameters into the uniforms.  The [power]
    uniform so written is the [contrastPower] parameter; the animated
    power value is not sent to the shader. *)
Theorem legacy_parameters_reach_shader_at_next_frame :
  forall (st : LegacyScene.t),
    (forall name v,
       LegacyScene.heat_uniforms (LegacyScene.setParameter name v st)
       = LegacyScene.heat_uniforms st)
    /\ LegacyScene.heat_uniforms (LegacyScene.resetParameters st)
       = LegacyScene.heat_uniforms st
    /\ (forall dt rnd,
          LegacyScene.textureReady st = true ->
          material_shows (LegacyScene.parameters st)
            (LegacyScene.heat_uniforms (LegacyScene.update dt rnd st))
          /\ ThermalMaterial.rnd
               (LegacyScene.heat_uniforms (LegacyScene.update dt rnd st))
             = rnd).
Proof.
  intros st. split; [reflexivity|]. split; [reflexivity|].
  intros dt rnd T. unfold LegacyScene.update. rewrite T. simpl.
  unfold material_shows.
  destruct (LegacyScene.videoTexture st); simpl; repeat split.
Qed.

Lemma legacy_parameters_reach_shader_at_next_frame_witness :
  let st := LegacyScene.setParameter Constants.GradientShift 0.25
              sample_legacy_scene in
  ThermalMaterial.gradientShift (LegacyScene.heat_uniforms st) = 0.0
  /\ ThermalMaterial.gradientShift
       (LegacyScene.heat_uniforms (LegacyScene.update (1 / 60) 0.5 st))
     = 0.25.
Proof.
  intros st. split; [reflexivity|].
  destruct (legacy_parameters_reach_shader_at_next_frame st)
    as [_ [_ H]].
  destruct (H (1 / 60) 0.5 eq_refl) as [[_ [_ [G _]]] _].
  exact G.
Defined.

(** *** The material and the controller of the component scene *)

(** What the component scene keeps true of its controller and its
    material: the controls are all there, the parameters are inside
    their ranges, five parameter uniforms show the parameters, and
    the texture uniforms are the ones given at creation. *)
Definition Scene_material_inv (st : Scene.t) : Prop :=
  let p := Scene.getParameters st in
  let u := Scene.thermalMaterial st in
  ParameterController.parameterControls (Scene.parameterController st)
  = Constants.all_names
  /\ in_declared_ranges p
  /\ ThermalMaterial.effectIntensity u = Constants.effectIntensity p
  /\ ThermalMaterial.colorSaturation u = Constants.colorSaturation p
  /\ ThermalMaterial.gradientShift u = Constants.gradientShift p
  /\ ThermalMaterial.interactionSize u = Constants.interactionRadius p
  /\ ThermalMaterial.power u = Constants.contrastPower p
  /\ ThermalMaterial.drawMap u = 1%nat
  /\ ThermalMaterial.maskMap u = 2%nat.

Lemma Scene_init_material_inv (isMobile : bool) (r : Anim.AppRenderer) :
  Scene_material_inv (Scene.init isMobile r).
Proof.
  unfold Scene_material_inv. simpl.
  split; [reflexivity|]. split; [exact defaults_in_declared_ranges|].
  repeat split.
Qed.

Lemma Scene_update_material (dt rnd : Q) (st : Scene.t) :
  Scene.textureReady st = true ->
  Scene.parameterController (Scene.update dt rnd st)
  = Scene.parameterController st
  /\ Scene.thermalMaterial (Scene.update dt rnd st)
     = Scene.thermalMaterial
         (Scene.updateThermalMaterial rnd (Scene.updateAnimationValues dt st)).
Proof.
  intros T. unfold Scene.update. rewrite T. simpl.
  unfold Scene.updateHeatInteraction, Scene.updateVideoLoop. simpl.
  destruct (Scene.videoReady st) eqn:V; simpl.
  - destruct (JS.ge _ _); simpl; rewrite ?V; simpl; auto.
  - rewrite ?V. simpl. auto.
Qed.

Lemma Scene_update_material_inv (dt rnd : Q) (st : Scene.t) :
  Scene_material_inv st -> Scene_material_inv (Scene.update dt rnd st).
Proof.
  intros H. destruct (Scene.textureReady st) eqn:T.
  - destruct (Scene_update_material dt rnd st T) as [P M].
    unfold Scene_material_inv, Scene.getParameters in *.
    rewrite P, M. simpl.
    destruct H as [H1 [H2 [H3 [H4 [H5 [H6 [H7 [H8 H9]]]]]]]].
    split; [exact H1|]. split; [exact H2|]. repeat split; assumption.
  - rewrite (Scene_update_not_ready dt rnd st T). exact H.
Qed.

(** The loop of [resetToDefaults] over a non-empty list of controls
    leaves the material showing the defaults. *)
Lemma Scene_reset_loop_material (names : list Constants.ParamName)
  (pc : ParameterController.t) (st : Scene.t) :
  ParameterController.parameters pc = Constants.DEFAULT_PARAMETERS ->
  let s' :=
    fold_left
      (fun (s : ParameterController.t * Scene.t) param =>
         let (pc, host) := s in
         let defaultValue :=
           Constants.get param Constants.DEFAULT_PARAMETERS in
         let pc := ParameterController.setValue param defaultValue pc in
         (pc, Scene.onParameterChange pc param defaultValue host))
      names (pc, st) in
  ParameterController.parameters (fst s') = Constants.DEFAULT_PARAMETERS
  /\ ParameterController.parameterControls (fst s')
     = ParameterController.parameterControls pc
  /\ ThermalMaterial.drawMap (Scene.thermalMaterial (snd s'))
     = ThermalMaterial.drawMap (Scene.thermalMaterial st)
  /\ ThermalMaterial.maskMap (Scene.thermalMaterial (snd s'))
     = ThermalMaterial.maskMap (Scene.thermalMaterial st)
  /\ (names <> [] ->
      material_shows Constants.DEFAULT_PARAMETERS
        (Scene.thermalMaterial (snd s'))).
Proof.
  revert pc st. induction names as [|n names IH]; intros pc st Hp; simpl.
  - split; [exact Hp|]. do 3 (split; [reflexivity|]). intros C. congruence.
  - match goal with
    | |- context [fold_left ?f names (?c, ?h)] =>
        specialize (IH c h Hp); simpl in IH;
        destruct IH as [A [B [C [D E]]]]
    end.
    split; [exact A|]. split; [exact B|]. split; [exact C|].
    split; [exact D|]. intros _.
    destruct names as [|m names].
    + simpl. unfold material_shows, Scene.onParameterChange,
        ParameterController.getAllParameters. simpl. rewrite Hp.
      repeat split.
    + apply E. discriminate.
Qed.

Lemma Scene_resetToDefaults_material (pc : ParameterController.t)
  (st : Scene.t) :
  let s' := ParameterController.resetToDefaults Scene.onParameterChange
              (pc, st) in
  ParameterController.parameters (fst s') = Constants.DEFAULT_PARAMETERS
  /\ ParameterController.parameterControls (fst s')
     = ParameterController.parameterControls pc
  /\ ThermalMaterial.drawMap (Scene.thermalMaterial (snd s'))
     = ThermalMaterial.drawMap (Scene.thermalMaterial st)
  /\ ThermalMaterial.maskMap (Scene.thermalMaterial (snd s'))
     = ThermalMaterial.maskMap (Scene.thermalMaterial st)
  /\ (ParameterController.parameterControls pc <> [] ->
      material_shows Constants.DEFAULT_PARAMETERS
        (Scene.thermalMaterial (snd s'))).
Proof.
  unfold ParameterController.resetToDefaults.
  apply (Scene_reset_loop_material
           (ParameterController.parameterControls pc)
           (ParameterController.mk Constants.DEFAULT_PARAMETERS
              (ParameterController.parameterControls pc)
              (ParameterController.sliders pc)) st eq_refl).
Qed.

Lemma Scene_step_material_inv (st : Scene.t) (e : Scene.Event) :
  Scene_material_inv st -> Scene_material_inv (Scene.step st e).
Proof.
  intros H. destruct e; cbn [Scene.step].
  - apply Scene_update_material_inv. exact H.
  - pose proof (Scene_update_material_inv (1 / 60) rnd st H) as K.
    unfold Scene.loop. destruct (DrawRenderer.render _ _). exact K.
  - unfold Scene.handleVideoReady. destruct (Scene.videoReady st); exact H.
  - exact H.
  - unfold Scene.handleToggleVideo. destruct (Anim.paused _); exact H.
  - scene_handlers. simpl. destruct (negb _); exact H.
  - scene_handlers. simpl. destruct (negb _); exact H.
  - exact H.
  - scene_handlers. simpl. destruct (negb _); exact H.
  - scene_handlers. simpl. destruct (negb _); exact H.
  - scene_handlers. simpl. destruct (negb _); exact H.
  - destruct H as [H1 [H2 [H3 [H4 [H5 [H6 [H7 [H8 H9]]]]]]]].
    pose proof (setParameter_keeps_ranges Scene.onParameterChange name value
                  (Scene.parameterController st, st) H2) as R.
    unfold Scene_material_inv, Scene.getParameters, Scene.setParameter,
      Scene.with_controller, ParameterController.setParameter in *.
    simpl in *. destruct (Constants.PARAMETER_RANGES name); simpl in *;
      (split; [exact H1|]; split; [exact R|]; repeat split; assumption).
  - destruct H as [H1 [H2 [H3 [H4 [H5 [H6 [H7 [H8 H9]]]]]]]].
    unfold Scene_material_inv, Scene.getParameters, Scene.resetParameters,
      Scene.with_controller.
    pose proof (Scene_resetToDefaults_material (Scene.parameterController st)
                  st) as K.
    destruct (ParameterController.resetToDefaults _ _) as [pc' st'].
    simpl in *. destruct K as [A [B [C [D E]]]].
    rewrite H1 in E. specialize (E ltac:(discriminate)).
    destruct E as [E1 [E2 [E3 [E4 [E5 E6]]]]].
    unfold ParameterController.getAllParameters. rewrite A, B, C, D.
    split; [exact H1|]. split; [exact defaults_in_declared_ranges|].
    repeat split; assumption.
  - destruct H as [H1 [H2 [H3 [H4 [H5 [H6 [H7 [H8 H9]]]]]]]].
    unfold Scene_material_inv, Scene.getParameters, Scene.resetButton,
      Scene.with_controller, ParameterController.resetButton.
    pose proof (Scene_resetToDefaults_material (Scene.parameterController st)
                  st) as K.
    destruct (ParameterController.resetToDefaults _ _) as [pc' st'].
    simpl in *. destruct K as [A [B [C [D E]]]].
    unfold ParameterController.getAllParameters. rewrite A, B.
    unfold Scene.onReset, ParameterController.getAllParameters. simpl.
    rewrite C, D.
    split; [exact H1|]. split; [exact defaults_in_declared_ranges|].
    repeat split; assumption.
Qed.

Lemma Scene_run_material_inv (es : list Scene.Event) (st : Scene.t) :
  Scene_material_inv st -> Scene_material_inv (Scene.run es st).
Proof.
  revert st. induction es as [|e es IH]; intros st H; simpl.
  - exact H.
  - apply IH. apply Scene_step_material_inv. exact H.
Qed.

(** X17.  In the component scene the shader never shows stale parameters:
    after any sequence of events from the initial scene the
    [effectIntensity], [colorSaturation], [gradientShift],
    [interactionSize] and [power] uniforms equal the controller's
    [effectIntensity], [colorSaturation], [gradientShift],
    [interactionRadius] and [contrastPower], every parameter is
    inside its declared range, and a frame that does its work also
    makes [blendVideo] equal [videoBlendAmount].  The [power] uniform
    is the HUD parameter: the animated power value is never sent to
    the shader. *)
Theorem component_material_tracks_parameters :
  forall (isMobile : bool) (r : Anim.AppRenderer) (es : list Scene.Event),
    let st := Scene.run es (Scene.init isMobile r) in
    let p := Scene.getParameters st in
    let u := Scene.thermalMaterial st in
    ThermalMaterial.effectIntensity u = Constants.effectIntensity p
    /\ ThermalMaterial.colorSaturation u = Constants.colorSaturation p
    /\ ThermalMaterial.gradientShift u = Constants.gradientShift p
    /\ ThermalMaterial.interactionSize u = Constants.interactionRadius p
    /\ ThermalMaterial.power u = Constants.contrastPower p
    /\ in_declared_ranges p
    /\ (forall dt rnd,
          Scene.textureReady st = true ->
          material_shows p (Scene.thermalMaterial (Scene.update dt rnd st))).
Proof.
  intros isMobile r es st p u.
  pose proof (Scene_run_material_inv es _ (Scene_init_material_inv isMobile r))
    as H.
  fold st in H.
  destruct H as [H1 [H2 [H3 [H4 [H5 [H6 [H7 [H8 H9]]]]]]]].
  fold p u in H2, H3, H4, H5, H6, H7.
  do 5 (split; [assumption|]). split; [exact H2|].
  intros dt rnd T.
  destruct (Scene_update_material dt rnd st T) as [_ M]. rewrite M. simpl.
  unfold material_shows. simpl. repeat split; assumption.
Qed.

(** *** Which accumulator surface the compositor samples *)

Definition Scene_is_loop (e : Scene.Event) : bool :=
  match e with Scene.Loop _ => true | _ => false end.

Definition Legacy_is_loop (e : LegacyScene.Event) : bool :=
  match e with LegacyScene.Loop _ => true | _ => false end.

Lemma Scene_update_targets (dt rnd : Q) (st : Scene.t) :
  DrawRenderer.renderTargetA (Scene.drawRenderer (Scene.update dt rnd st))
  = DrawRenderer.renderTargetA (Scene.drawRenderer st)
  /\ DrawRenderer.renderTargetB (Scene.drawRenderer (Scene.update dt rnd st))
     = DrawRenderer.renderTargetB (Scene.drawRenderer st).
Proof.
  unfold Scene.update. destruct (Scene.textureReady st); simpl; [|auto].
  unfold Scene.updateHeatInteraction, Scene.updateVideoLoop. simpl.
  destruct (Scene.videoReady st) eqn:V; simpl.
  - destruct (JS.ge _ _); simpl; rewrite ?V; simpl; auto.
  - rewrite ?V. simpl. auto.
Qed.

Lemma Legacy_update_targets (dt rnd : Q) (st : LegacyScene.t) :
  DrawRenderer.renderTargetA
    (LegacyScene.drawRenderer (LegacyScene.update dt rnd st))
  = DrawRenderer.renderTargetA (LegacyScene.drawRenderer st)
  /\ DrawRenderer.renderTargetB
       (LegacyScene.drawRenderer (LegacyScene.update dt rnd st))
     = DrawRenderer.renderTargetB (LegacyScene.drawRenderer st).
Proof.
  unfold LegacyScene.update.
  destruct (LegacyScene.textureReady st); simpl; [|auto].
  destruct (LegacyScene.videoReady st); simpl; auto.
Qed.

Lemma Scene_outside_drawRenderer (st st' : Scene.t) :
  Scene_outside_parameters st = Scene_outside_parameters st' ->
  Scene.drawRenderer st = Scene.drawRenderer st'.
Proof. unfold Scene_outside_parameters. intros H. inversion H. reflexivity. Qed.

Lemma targets_are_flip (size : Q) (next : Three.TextureId) (sw : bool)
  (a b : DrawRenderer.WebGLRenderTarget)
  (u u' : DrawRenderer.DrawRendererUniforms)
  (o o' : DrawRenderer.DrawRendererOptions) :
  targets_are size next sw (DrawRenderer.mk a b u o) ->
  targets_are size next (negb sw) (DrawRenderer.mk b a u' o').
Proof.
  unfold targets_are. simpl. intros [H1 [H2 [H3 H4]]].
  destruct sw; simpl; auto.
Qed.

Lemma targets_are_same (size : Q) (next : Three.TextureId) (sw : bool)
  (d d' : DrawRenderer.t) :
  DrawRenderer.renderTargetA d' = DrawRenderer.renderTargetA d ->
  DrawRenderer.renderTargetB d' = DrawRenderer.renderTargetB d ->
  targets_are size next sw d -> targets_are size next sw d'.
Proof. unfold targets_are. intros -> ->. auto. Qed.

Lemma Scene_step_targets (size : Q) (next : Three.TextureId) (sw : bool)
  (st : Scene.t) (e : Scene.Event) :
  targets_are size next sw (Scene.drawRenderer st) ->
  targets_are size next (if Scene_is_loop e then negb sw else sw)
    (Scene.drawRenderer (Scene.step st e)).
Proof.
  intros H.
  destruct e; cbn [Scene.step Scene_is_loop].
  - destruct (Scene_update_targets deltaTime rnd st) as [A B].
    exact (targets_are_same _ _ _ _ _ A B H).
  - destruct (Scene_update_targets (1 / 60) rnd st) as [A B].
    pose proof (targets_are_same _ _ _ _ _ A B H) as K.
    unfold Scene.loop, DrawRenderer.render. simpl.
    destruct (Scene.drawRenderer (Scene.update (1 / 60) rnd st))
      as [a b u o].
    exact (targets_are_flip _ _ _ _ _ _ _ _ _ K).
  - unfold Scene.handleVideoReady. destruct (Scene.videoReady st); exact H.
  - exact H.
  - unfold Scene.handleToggleVideo. destruct (Anim.paused _); exact H.
  - scene_handlers. simpl. destruct (negb _); exact H.
  - scene_handlers. simpl. destruct (negb _); exact H.
  - exact H.
  - scene_handlers. simpl. destruct (negb _); exact H.
  - scene_handlers. simpl. destruct (negb _); exact H.
  - scene_handlers. simpl. destruct (negb _); exact H.
  - exact H.
  - rewrite (Scene_outside_drawRenderer _ _
               (Scene_resetParameters_outside st)). exact H.
  - rewrite (Scene_outside_drawRenderer _ _ (Scene_resetButton_outside st)).
    exact H.
Qed.

Lemma Legacy_step_targets (size : Q) (next : Three.TextureId) (sw : bool)
  (st : LegacyScene.t) (e : LegacyScene.Event) :
  targets_are size next sw (LegacyScene.drawRenderer st) ->
  targets_are size next (if Legacy_is_loop e then negb sw else sw)
    (LegacyScene.drawRenderer (LegacyScene.step st e)).
Proof.
  intros H. destruct e; cbn [LegacyScene.step Legacy_is_loop];
    try exact H.
  - destruct (Legacy_update_targets dt rnd st) as [A B].
    exact (targets_are_same _ _ _ _ _ A B H).
  - destruct (Legacy_update_targets (1 / 60) rnd st) as [A B].
    pose proof (targets_are_same _ _ _ _ _ A B H) as K.
    unfold LegacyScene.loop, DrawRenderer.render. simpl.
    destruct (LegacyScene.drawRenderer (LegacyScene.update (1 / 60) rnd st))
      as [a b u o].
    exact (targets_are_flip _ _ _ _ _ _ _ _ _ K).
  - unfold LegacyScene.onVideoReady.
    destruct (LegacyScene.videoReady st); exact H.
  - unfold LegacyScene.onToggle. destruct (Anim.paused _); exact H.
Qed.

Lemma Scene_run_targets (size : Q) (next : Three.TextureId)
  (es : list Scene.Event) (sw : bool) (st : Scene.t) :
  targets_are size next sw (Scene.drawRenderer st) ->
  targets_are size next
    (if Nat.even (length (filter Scene_is_loop es)) then sw else negb sw)
    (Scene.drawRenderer (Scene.run es st)).
Proof.
  revert sw st. induction es as [|e es IH]; intros sw st H.
  - exact H.
  - specialize (IH _ _ (Scene_step_targets size next sw st e H)).
    simpl Scene.run. unfold Scene.run in IH. simpl filter.
    destruct (Scene_is_loop e); [|exact IH].
    simpl length. rewrite Nat.even_succ, <- Nat.negb_even.
    destruct (Nat.even _); simpl in *; rewrite ?negb_involutive in IH;
      exact IH.
Qed.

Lemma Legacy_run_targets (size : Q) (next : Three.TextureId)
  (es : list LegacyScene.Event) (sw : bool) (st : LegacyScene.t) :
  targets_are size next sw (LegacyScene.drawRenderer st) ->
  targets_are size next
    (if Nat.even (length (filter Legacy_is_loop es)) then sw else negb sw)
    (LegacyScene.drawRenderer (LegacyScene.run es st)).
Proof.
  revert sw st. induction es as [|e es IH]; intros sw st H.
  - exact H.
  - specialize (IH _ _ (Legacy_step_targets size next sw st e H)).
    simpl LegacyScene.run. unfold LegacyScene.run in IH. simpl filter.
    destruct (Legacy_is_loop e); [|exact IH].
    simpl length. rewrite Nat.even_succ, <- Nat.negb_even.
    destruct (Nat.even _); simpl in *; rewrite ?negb_involutive in IH;
      exact IH.
Qed.

Lemma Legacy_step_drawMap (st : LegacyScene.t) (e : LegacyScene.Event) :
  ThermalMaterial.drawMap (LegacyScene.heat_uniforms (LegacyScene.step st e))
  = ThermalMaterial.drawMap (LegacyScene.heat_uniforms st).
Proof.
  assert (U : forall dt rnd,
             ThermalMaterial.drawMap
               (LegacyScene.heat_uniforms (LegacyScene.update dt rnd st))
             = ThermalMaterial.drawMap (LegacyScene.heat_uniforms st)).
  { intros dt rnd. unfold LegacyScene.update.
    destruct (LegacyScene.textureReady st); simpl; [|reflexivity].
    destruct (LegacyScene.videoTexture st); reflexivity. }
  destruct e; cbn [LegacyScene.step]; try reflexivity.
  - apply U.
  - unfold LegacyScene.loop. destruct (DrawRenderer.render _ _). simpl.
    apply U.
  - unfold LegacyScene.onVideoReady.
    destruct (LegacyScene.videoReady st); reflexivity.
  - unfold LegacyScene.onToggle. destruct (Anim.paused _); reflexivity.
Qed.

Lemma Legacy_run_drawMap (es : list LegacyScene.Event) (st : LegacyScene.t) :
  ThermalMaterial.drawMap (LegacyScene.heat_uniforms (LegacyScene.run es st))
  = ThermalMaterial.drawMap (LegacyScene.heat_uniforms st).
Proof.
  revert st. induction es as [|e es IH]; intros st; simpl.
  - reflexivity.
  - unfold LegacyScene.run in IH. rewrite IH. apply Legacy_step_drawMap.
Qed.

(** X18.  The compositor's [drawMap] uniform is bound once, to the texture
    [getTexture()] returned when the material was created, and no
    event rebinds it, while every display frame swaps the
    accumulator's surfaces.  So after any sequence of events the
    uniform is the accumulator's current output exactly when the
    number of display frames so far is even; after an odd number the
    compositor samples the other surface, the one the latest pass
    read from.  Both scenes. *)
Theorem compositor_samples_current_output_on_even_frames :
  forall (isMobile : bool) (r : Anim.AppRenderer),
    (forall es : list Scene.Event,
       let st0 := Scene.init isMobile r in
       let st := Scene.run es st0 in
       let frames := length (filter Scene_is_loop es) in
       ThermalMaterial.drawMap (Scene.thermalMaterial st)
       = DrawRenderer.getTexture (Scene.drawRenderer st0)
       /\ (Nat.even frames = true ->
           DrawRenderer.getTexture (Scene.drawRenderer st)
           = ThermalMaterial.drawMap (Scene.thermalMaterial st))
       /\ (Nat.even frames = false ->
           DrawRenderer.getTexture (Scene.drawRenderer st)
           <> ThermalMaterial.drawMap (Scene.thermalMaterial st)))
    /\ (forall es : list LegacyScene.Event,
          let st0 := LegacyScene.init isMobile r in
          let st := LegacyScene.run es st0 in
          let frames := length (filter Legacy_is_loop es) in
          ThermalMaterial.drawMap (LegacyScene.heat_uniforms st)
          = DrawRenderer.getTexture (LegacyScene.drawRenderer st0)
          /\ (Nat.even frames = true ->
              DrawRenderer.getTexture (LegacyScene.drawRenderer st)
              = ThermalMaterial.drawMap (LegacyScene.heat_uniforms st))
          /\ (Nat.even frames = false ->
              DrawRenderer.getTexture (LegacyScene.drawRenderer st)
              <> ThermalMaterial.drawMap (LegacyScene.heat_uniforms st))).
Proof.
  intros isMobile r. split.
  - intros es st0 st frames.
    pose proof (Scene_run_material_inv es _
                  (Scene_init_material_inv isMobile r)) as M.
    fold st0 st in M.
    destruct M as [_ [_ [_ [_ [_ [_ [_ [M _]]]]]]]].
    assert (T0 : targets_are 256 0%nat false (Scene.drawRenderer st0)).
    { unfold targets_are. simpl. auto. }
    pose proof (Scene_run_targets 256 0%nat es false st0 T0) as T.
    fold st frames in T. destruct T as [_ [_ [_ T]]].
    unfold DrawRenderer.getTexture. rewrite M, T.
    split; [reflexivity|].
    split; intros E; rewrite E; simpl; [reflexivity | discriminate].
  - intros es st0 st frames.
    pose proof (Legacy_run_drawMap es st0) as M. fold st in M.
    assert (T0 : targets_are 256 0%nat false (LegacyScene.drawRenderer st0)).
    { unfold targets_are. simpl. auto. }
    pose proof (Legacy_run_targets 256 0%nat es false st0 T0) as T.
    fold st frames in T. destruct T as [_ [_ [_ T]]].
    unfold DrawRenderer.getTexture. rewrite M, T.
    split; [reflexivity|].
    split; intros E; rewrite E; simpl; [reflexivity | discriminate].
Qed.

Lemma compositor_samples_current_output_on_even_frames_witness :
  let st := Scene.run [Scene.Loop 0.5] (Scene.init false sample_renderer) in
  DrawRenderer.getTexture (Scene.drawRenderer st)
  <> ThermalMaterial.drawMap (Scene.thermalMaterial st).
Proof.
  intros st.
  destruct (proj1 (compositor_samples_current_output_on_even_frames false
                     sample_renderer) [Scene.Loop 0.5]) as [_ [_ H]].
  apply H. reflexivity.
Defined.

(** *** Animation values of the component scene *)

Lemma lerp_in_interval (lo hi a b t : Q) :
  lo <= a <= hi -> lo <= b <= hi -> 0 <= t <= 1 ->
  lo <= MathUtils.lerp a b t <= hi.
Proof. intros Ha Hb Ht. unfold MathUtils.lerp. nra. Qed.

(** What the component scene keeps true of its animation values: the
    two hold-driven targets follow the hold flag, the movement and
    opacity values stay in [0.95, 1], and scale never leaves 1 (the
    scene has no scroll handling). *)
Definition Scene_anim_inv (st : Scene.t) : Prop :=
  let av := Scene.animationValues st in
  let sa := Anim.scrollAnimation av in
  Anim.target (Anim.move av) == (if Scene_hold st then 0.95 else 1.0)
  /\ Anim.target (Anim.power sa) == (if Scene_hold st then 1.0 else 0.8)
  /\ 0.95 <= Anim.value (Anim.move av) <= 1
  /\ Anim.target (Anim.opacity sa) == 1
  /\ 0.95 <= Anim.value (Anim.opacity sa) <= 1
  /\ Anim.target (Anim.scale sa) == 1
  /\ Anim.value (Anim.scale sa) == 1
  /\ Three.x3 (Scene.heatMesh_scale st) == 1
  /\ Three.y3 (Scene.heatMesh_scale st) == 1
  /\ Three.z3 (Scene.heatMesh_scale st) == 1.

Lemma Scene_update_mesh (dt rnd : Q) (st : Scene.t) :
  Scene.textureReady st = true ->
  let s := Anim.value
             (Anim.scale
                (Anim.scrollAnimation
                   (Scene.animationValues (Scene.updateAnimationValues dt st))))
  in Scene.heatMesh_scale (Scene.update dt rnd st) = Three.mkVector3 s s s.
Proof.
  intros T. unfold Scene.update. rewrite T. simpl.
  unfold Scene.updateHeatInteraction, Scene.updateVideoLoop. simpl.
  destruct (Scene.videoReady st) eqn:V; simpl.
  - destruct (JS.ge _ _); simpl; rewrite ?V; simpl; auto.
  - rewrite ?V. simpl. auto.
Qed.

Lemma Scene_update_anim_inv (dt rnd : Q) (st : Scene.t) :
  Scene_anim_inv st -> Scene_anim_inv (Scene.update dt rnd st).
Proof.
  intros H. destruct (Scene.textureReady st) eqn:T.
  - destruct (Scene_update_keeps dt rnd st) as [_ [_ [Hh _]]].
    pose proof (Scene_update_animationValues dt rnd st T) as A.
    pose proof (Scene_update_mesh dt rnd st T) as M. simpl in M.
    unfold Scene_anim_inv. rewrite Hh, A, M.
    destruct H as [H1 [H2 [H3 [H4 [H5 [H6 [H7 _]]]]]]].
    unfold Scene.updateAnimationValues. simpl.
    set (av := Scene.animationValues st) in *.
    set (sa := Anim.scrollAnimation av) in *.
    pose proof (lerpSpeed_range Constants.MOVEMENT_INTERPOLATION_SPEED dt)
      as L1.
    pose proof (lerpSpeed_range Constants.SCROLL_INTERPOLATION_SPEED dt)
      as L2.
    assert (Tm : 0.95 <= Anim.target (Anim.move av) <= 1).
    { destruct (Scene_hold st); lra. }
    pose proof (lerp_in_interval 0.95 1 _ _ _ H3 Tm L1) as Mv.
    set (mv := MathUtils.lerp (Anim.value (Anim.move av)) _ _) in *.
    assert (To : 0.95 <= Anim.target (Anim.opacity sa) * mv <= 1) by nra.
    pose proof (lerp_in_interval 0.95 1 _ _ _ H5 To L2) as Ov.
    assert (Sv : 1 <= MathUtils.lerp (Anim.value (Anim.scale sa))
                        (Anim.target (Anim.scale sa))
                        (MathUtils.lerpSpeed
                           Constants.SCROLL_INTERPOLATION_SPEED dt) <= 1).
    { apply lerp_in_interval; [lra | lra | exact L2]. }
    split; [exact H1|]. split; [exact H2|]. split; [exact Mv|].
    split; [exact H4|]. split; [exact Ov|]. split; [exact H6|].
    repeat split; lra.
  - rewrite (Scene_update_not_ready dt rnd st T). exact H.
Qed.

Lemma Scene_init_anim_inv (isMobile : bool) (r : Anim.AppRenderer) :
  Scene_anim_inv (Scene.init isMobile r).
Proof.
  unfold Scene_anim_inv, Scene_hold. simpl. repeat split; lra.
Qed.

Definition Scene_is_pointer (e : Scene.Event) : bool :=
  match e with
  | Scene.PointerMove _ _ _ | Scene.PointerDown _ _ _
  | Scene.PointerEnter _ _ _ | Scene.PointerUp | Scene.PointerLeave
  | Scene.GlobalPointerMove _ _ _ => true
  | _ => false
  end.

Lemma Scene_pointer_anim_inv (st : Scene.t) (e : Scene.Event) :
  Scene_is_pointer e = true ->
  Scene_anim_inv st -> Scene_anim_inv (Scene.step st e).
Proof.
  intros P H. unfold Scene_anim_inv, Scene_hold in *.
  destruct (InteractionManager.hold
              (InteractionManager.interactionState
                 (Scene.interactionManager st))) eqn:Eh;
    destruct e; try discriminate P; cbn [Scene.step]; scene_handlers;
    simpl; rewrite ?Eh; simpl;
    unfold Scene.onInteractionChange; simpl; rewrite ?Eh;
    destruct H as [H1 [H2 H]];
    (split; [first [exact H1 | reflexivity]|]);
    (split; [first [exact H2 | reflexivity]|]); exact H.
Qed.

Lemma Scene_outside_anim_inv (st st' : Scene.t) :
  Scene_outside_parameters st = Scene_outside_parameters st' ->
  Scene_anim_inv st' -> Scene_anim_inv st.
Proof.
  unfold Scene_outside_parameters. intros O H.
  assert (A : Scene.animationValues st = Scene.animationValues st')
    by (inversion O; reflexivity).
  assert (B : Scene.interactionManager st = Scene.interactionManager st')
    by (inversion O; reflexivity).
  assert (C : Scene.heatMesh_scale st = Scene.heatMesh_scale st')
    by (inversion O; reflexivity).
  unfold Scene_anim_inv, Scene_hold in *. rewrite A, B, C. exact H.
Qed.

Lemma Scene_step_anim_inv (st : Scene.t) (e : Scene.Event) :
  Scene_anim_inv st -> Scene_anim_inv (Scene.step st e).
Proof.
  intros H.
  destruct e;
    try (apply Scene_pointer_anim_inv; [reflexivity | exact H]);
    cbn [Scene.step].
  - apply Scene_update_anim_inv. exact H.
  - pose proof (Scene_update_anim_inv (1 / 60) rnd st H) as K.
    unfold Scene.loop. destruct (DrawRenderer.render _ _). exact K.
  - unfold Scene.handleVideoReady. destruct (Scene.videoReady st); exact H.
  - exact H.
  - unfold Scene.handleToggleVideo. destruct (Anim.paused _); exact H.
  - exact H.
  - apply (Scene_outside_anim_inv _ st);
      [apply Scene_resetParameters_outside | exact H].
  - apply (Scene_outside_anim_inv _ (Scene.set_heatUp 0 st));
      [apply Scene_resetButton_outside | exact H].
Qed.

Lemma Scene_run_anim_inv (es : list Scene.Event) (st : Scene.t) :
  Scene_anim_inv st -> Scene_anim_inv (Scene.run es st).
Proof.
  unfold Scene.run. revert st.
  induction es as [|e es IH]; intros st H; simpl.
  - exact H.
  - apply IH. apply Scene_step_anim_inv. exact H.
Qed.

(** X19.  Component scene, after any sequence of events from
    construction: the movement target is 0.95 while the pointer is held
    and 1 otherwise, the power target is 1 while held and 0.8
    otherwise; the movement value and the opacity value stay within
    [0.95, 1]; and, the scene having no scroll handling, the scale value
    and the three components of the mesh scale are always 1. *)
Theorem component_animation_values_follow_hold_and_stay_bounded
  (isMobile : bool) (r : Anim.AppRenderer) (es : list Scene.Event) :
  let st := Scene.run es (Scene.init isMobile r) in
  let av := Scene.animationValues st in
  let sa := Anim.scrollAnimation av in
  Anim.target (Anim.move av) == (if Scene_hold st then 0.95 else 1.0)
  /\ Anim.target (Anim.power sa) == (if Scene_hold st then 1.0 else 0.8)
  /\ 0.95 <= Anim.value (Anim.move av) <= 1
  /\ 0.95 <= Anim.value (Anim.opacity sa) <= 1
  /\ Anim.value (Anim.scale sa) == 1
  /\ Three.x3 (Scene.heatMesh_scale st) == 1
  /\ Three.y3 (Scene.heatMesh_scale st) == 1
  /\ Three.z3 (Scene.heatMesh_scale st) == 1.
Proof.
  pose proof (Scene_run_anim_inv es _ (Scene_init_anim_inv isMobile r)) as H.
  unfold Scene_anim_inv in H. cbv zeta in *.
  destruct H as [H1 [H2 [H3 [_ [H5 [_ H7]]]]]].
  split; [exact H1|]. split; [exact H2|]. split; [exact H3|].
  split; [exact H5|]. exact H7.
Qed.

(** *** Bounds of the heat in the component scene *)

(** A frame time that is not negative; the other events carry none. *)
Definition Scene_frame_time_ok (e : Scene.Event) : Prop :=
  match e with
  | Scene.Update deltaTime _ => 0 <= deltaTime
  | _ => True
  end.

(** The two flags move together, the stored heat lies in
    [0, 1.3 * 0.99] and the heat pushed to the accumulator is at most
    1.3. *)
Definition Scene_heat_inv (st : Scene.t) : Prop :=
  Scene.textureReady st = Scene.videoReady st
  /\ 0 <= Scene.heatUp st <= 1.287
  /\ Scene_observed st <= 1.3.

Lemma Scene_init_heat_inv (isMobile : bool) (r : Anim.AppRenderer) :
  Scene_heat_inv (Scene.init isMobile r).
Proof.
  unfold Scene_heat_inv, Scene_observed. simpl. repeat split; lra.
Qed.

(** One frame: the bounds are kept whatever the frame time, and the
    pushed heat is not negative when the frame time is not. *)
Lemma Scene_update_heat_inv (dt rnd : Q) (st : Scene.t) :
  in_declared_ranges (Scene.getParameters st) ->
  Scene_heat_inv st ->
  Scene_heat_inv (Scene.update dt rnd st)
  /\ (0 <= dt -> 0 <= Scene_observed st ->
      0 <= Scene_observed (Scene.update dt rnd st)).
Proof.
  intros R [F [Hh Ho]]. destruct (Scene.textureReady st) eqn:T.
  - symmetry in F.
    destruct (Scene_update_keeps dt rnd st) as [T' [V' _]].
    destruct (Scene_update_heat dt rnd st T F) as [O H]. cbv zeta in O, H.
    pose proof (R Constants.HeatSensitivity _ eq_refl) as Rs.
    pose proof (R Constants.HeatDecay _ eq_refl) as Rd.
    simpl in Rs, Rd.
    set (s := Constants.heatSensitivity (Scene.getParameters st)) in *.
    set (d := Constants.heatDecay (Scene.getParameters st)) in *.
    unfold Scene_heat_inv. rewrite T', V', O, H.
    unfold Constants.HEAT_MAX_VALUE, Constants.TARGET_FPS,
      Constants.HEAT_CLEANUP_THRESHOLD.
    assert (P : (if Scene_hold st
                 then JS.Math_min (Scene.heatUp st + s * dt * 60) 1.3
                 else Scene.heatUp st) <= 1.3).
    { destruct (Scene_hold st); [|lra]. minmax; lra. }
    assert (N : 0 <= dt ->
                0 <= (if Scene_hold st
                      then JS.Math_min (Scene.heatUp st + s * dt * 60) 1.3
                      else Scene.heatUp st)).
    { intros Hdt. destruct (Scene_hold st); [|lra].
      assert (0 <= s * dt) by nra. minmax; lra. }
    set (pushed := if Scene_hold st then _ else _) in *.
    split; [|intros Hdt _; exact (N Hdt)].
    split; [congruence|]. split; [|exact P].
    js_case; [lra|].
    assert (0 <= pushed) by nra. nra.
  - rewrite (Scene_update_not_ready dt rnd st T).
    split; [|intros _ K; exact K].
    split; [congruence|]. split; [exact Hh | exact Ho].
Qed.

Lemma Scene_outside_heat_inv (st st' : Scene.t) :
  Scene_outside_parameters st = Scene_outside_parameters st' ->
  (Scene_heat_inv st' -> Scene_heat_inv st)
  /\ Scene_observed st = Scene_observed st'.
Proof.
  intros O. destruct (Scene_outside_flags _ _ O) as [A B].
  pose proof (Scene_outside_heatUp _ _ O) as C.
  pose proof (Scene_outside_drawRenderer _ _ O) as D.
  unfold Scene_heat_inv, Scene_observed in *. rewrite A, B, C, D.
  split; [intros H; exact H | reflexivity].
Qed.

Lemma Scene_step_heat_inv (st : Scene.t) (e : Scene.Event) :
  in_declared_ranges (Scene.getParameters st) ->
  Scene_heat_inv st ->
  Scene_heat_inv (Scene.step st e)
  /\ (Scene_frame_time_ok e -> 0 <= Scene_observed st ->
      0 <= Scene_observed (Scene.step st e)).
Proof.
  intros R H. destruct e; cbn [Scene.step].
  - apply Scene_update_heat_inv; assumption.
  - assert (Hf : 0 <= 1 / 60) by (vm_compute; discriminate).
    destruct (Scene_update_heat_inv (1 / 60) rnd st R H) as [K1 K2].
    unfold Scene.loop. destruct (DrawRenderer.render _ _) eqn:E.
    unfold DrawRenderer.render in E. inversion E. subst.
    split; [exact K1 | intros _; exact (K2 Hf)].
  - unfold Scene.handleVideoReady.
    destruct (Scene.videoReady st) eqn:V; [split; [exact H | auto]|].
    destruct H as [F [Hh Ho]].
    split; [|intros _ K; exact K].
    split; [reflexivity|]. split; [exact Hh | exact Ho].
  - split; [exact H | auto].
  - unfold Scene.handleToggleVideo.
    destruct (Anim.paused _); (split; [exact H | auto]).
  - scene_handlers. simpl. destruct (negb _); (split; [exact H | auto]).
  - scene_handlers. simpl. destruct (negb _); (split; [exact H | auto]).
  - split; [exact H | auto].
  - scene_handlers. simpl. destruct (negb _); (split; [exact H | auto]).
  - scene_handlers. simpl. destruct (negb _); (split; [exact H | auto]).
  - scene_handlers. simpl. destruct (negb _); (split; [exact H | auto]).
  - scene_handlers. simpl.
    destruct (Constants.PARAMETER_RANGES name); (split; [exact H | auto]).
  - destruct (Scene_outside_heat_inv _ st (Scene_resetParameters_outside st))
      as [A B].
    rewrite B. split; [exact (A H) | auto].
  - destruct (Scene_outside_heat_inv _ (Scene.set_heatUp 0 st)
                (Scene_resetButton_outside st)) as [A B].
    rewrite B. split; [|auto]. apply A.
    destruct H as [F [Hh Ho]]. split; [exact F|].
    split; [simpl; lra | exact Ho].
Qed.

Lemma Scene_run_heat_inv (es : list Scene.Event) (st : Scene.t) :
  Scene_material_inv st -> Scene_heat_inv st ->
  Scene_heat_inv (Scene.run es st)
  /\ (Forall Scene_frame_time_ok es -> 0 <= Scene_observed st ->
      0 <= Scene_observed (Scene.run es st)).
Proof.
  unfold Scene.run. revert st.
  induction es as [|e es IH]; intros st M H; simpl.
  - split; [exact H | auto].
  - assert (R : in_declared_ranges (Scene.getParameters st)) by apply M.
    destruct (Scene_step_heat_inv st e R H) as [K1 K2].
    destruct (IH _ (Scene_step_material_inv st e M) K1) as [L1 L2].
    split; [exact L1|]. intros F O.
    inversion F as [|e' es' Fe Fes]; subst.
    apply L2; [exact Fes | apply K2; assumption].
Qed.

(** X20.  Component scene, after any sequence of events from
    construction: the stored heat lies between 0 and 1.287 (the ceiling
    1.3 times the largest admissible decay 0.99) and the heat last
    pushed to the accumulator is at most 1.3, whatever the frame times;
    if no frame was given a negative frame time, the pushed heat is not
    negative either.  The controller's clamping of [heatSensitivity]
    and [heatDecay] is what carries the bounds through parameter
    changes. *)
Theorem component_heat_stays_bounded
  (isMobile : bool) (r : Anim.AppRenderer) (es : list Scene.Event) :
  let st := Scene.run es (Scene.init isMobile r) in
  0 <= Scene.heatUp st <= 1.287
  /\ Scene_observed st <= 1.3
  /\ (Forall Scene_frame_time_ok es -> 0 <= Scene_observed st).
Proof.
  intros st. subst st.
  destruct (Scene_run_heat_inv es _ (Scene_init_material_inv isMobile r)
              (Scene_init_heat_inv isMobile r)) as [[_ [A B]] C].
  split; [exact A|]. split; [exact B|].
  intros F. apply C; [exact F|].
  unfold Scene_observed. simpl. lra.
Qed.

Lemma component_heat_stays_bounded_witness :
  let es := [Scene.VideoReady true;
             Scene.SetParameter Constants.HeatDecay 5;
             Scene.SetParameter Constants.HeatSensitivity 100;
             Scene.PointerDown 400 300 (MathUtils.mkDOMRect 0 0 800 600);
             Scene.Update 1 0.5; Scene.Loop 0.5] in
  let st := Scene.run es (Scene.init false sample_renderer) in
  Forall Scene_frame_time_ok es /\ 0 <= Scene_observed st.
Proof.
  intros es st.
  assert (F : Forall Scene_frame_time_ok es).
  { repeat constructor. simpl. lra. }
  split; [exact F|].
  exact (proj2 (proj2 (component_heat_stays_bounded false sample_renderer es))
           F).
Defined.

(** *** The trail dies out *)

(** [n] times the largest admissible decay. *)
Fixpoint shrink (n : nat) (h : Q) : Q :=
  match n with
  | O => h
  | S n => shrink n (0.99 * h)
  end.

Lemma shrink_monotone (n : nat) (h h' : Q) :
  h <= h' -> shrink n h <= shrink n h'.
Proof.
  revert h h'. induction n as [|n IH]; intros h h' L; simpl.
  - exact L.
  - apply IH. lra.
Qed.

Lemma Scene_frames_not_ready (fs : list (Q * Q)) (st : Scene.t) :
  Scene.textureReady st = false -> Scene_frames fs st = st.
Proof.
  intros T. unfold Scene_frames.
  induction fs as [|f fs IH]; simpl; [reflexivity|].
  rewrite (Scene_update_not_ready (fst f) (snd f) st T). exact IH.
Qed.

Lemma Scene_frames_app (fs gs : list (Q * Q)) (st : Scene.t) :
  Scene_frames (fs ++ gs) st = Scene_frames gs (Scene_frames fs st).
Proof. unfold Scene_frames. apply fold_left_app. Qed.

Lemma Scene_frames_keep (fs : list (Q * Q)) (st : Scene.t) :
  Scene.textureReady (Scene_frames fs st) = Scene.textureReady st
  /\ Scene.videoReady (Scene_frames fs st) = Scene.videoReady st
  /\ Scene_hold (Scene_frames fs st) = Scene_hold st.
Proof.
  unfold Scene_frames. revert st.
  induction fs as [|f fs IH]; intros st; simpl; [auto|].
  destruct (Scene_update_keeps (fst f) (snd f) st) as [T [V [H _]]].
  destruct (IH (Scene.update (fst f) (snd f) st)) as [T' [V' H']].
  rewrite T', V', H'. auto.
Qed.

Lemma Scene_frames_no_tail (fs : list (Q * Q)) (st : Scene.t) :
  no_tail (Scene.heatUp st) -> no_tail (Scene.heatUp (Scene_frames fs st)).
Proof.
  unfold Scene_frames. revert st.
  induction fs as [|f fs IH]; intros st H; simpl.
  - exact H.
  - apply IH. apply Scene_update_no_tail. exact H.
Qed.

(** Released frames shrink the heat by 0.99 each, at least. *)
Lemma Scene_frames_shrink (fs : list (Q * Q)) (st : Scene.t) :
  Scene.textureReady st = true -> Scene.videoReady st = true ->
  Scene_hold st = false ->
  in_declared_ranges (Scene.getParameters st) ->
  0 <= Scene.heatUp st ->
  0 <= Scene.heatUp (Scene_frames fs st)
    <= shrink (length fs) (Scene.heatUp st).
Proof.
  unfold Scene_frames. revert st.
  induction fs as [|f fs IH]; intros st T V Hh R P; simpl.
  - lra.
  - destruct (Scene_update_keeps (fst f) (snd f) st) as [T' [V' [H' G']]].
    pose proof (R Constants.HeatDecay _ eq_refl) as Rd. simpl in Rd.
    destruct (Scene_release_frame (fst f) (snd f) st T V Hh) as [A B].
    cbv zeta in A, B.
    set (d := Constants.heatDecay (Scene.getParameters st)) in *.
    set (h := Scene.heatUp st) in *.
    set (st' := Scene.update (fst f) (snd f) st) in *.
    assert (K : 0 <= Scene.heatUp st' <= 0.99 * h).
    { destruct (Qlt_le_dec (d * h) 0.001) as [L | L].
      - rewrite (B L). nra.
      - rewrite (A L). nra. }
    assert (R' : in_declared_ranges (Scene.getParameters st'))
      by (rewrite G'; exact R).
    destruct (IH st' ltac:(congruence) ltac:(congruence) ltac:(congruence)
                R' (proj1 K)) as [I1 I2].
    split; [exact I1|].
    apply (Qle_trans _ _ _ I2). apply shrink_monotone. apply K.
Qed.

(** X21.  Component scene, in any state reached from construction
    with the pointer not held: 713 frames in a row, of whatever frame
    times, bring the stored heat to exactly 0, and further frames keep
    it there.  (The decay is applied once per frame, not per unit of
    time; 713 is the least number of frames for which
    1.287 * 0.99^n < 0.001.) *)
Theorem released_heat_dies_out
  (isMobile : bool) (r : Anim.AppRenderer) (es : list Scene.Event)
  (fs : list (Q * Q)) :
  let st := Scene.run es (Scene.init isMobile r) in
  Scene_hold st = false -> (713 <= length fs)%nat ->
  Scene.heatUp (Scene_frames fs st) == 0.
Proof.
  intros st Hh L.
  assert (Bo : Scene_booting st).
  { apply Scene_run_booting. split; [reflexivity | intros _; reflexivity]. }
  destruct Bo as [F Z].
  destruct (Scene.textureReady st) eqn:T.
  - symmetry in F.
    destruct (Scene_run_heat_inv es _ (Scene_init_material_inv isMobile r)
                (Scene_init_heat_inv isMobile r)) as [[_ [[A B] _]] _].
    pose proof (Scene_run_material_inv es _
                  (Scene_init_material_inv isMobile r)) as M.
    assert (R : in_declared_ranges (Scene.getParameters st)) by apply M.
    fold st in A, B.
    rewrite <- (firstn_skipn 713 fs), Scene_frames_app.
    set (gs := firstn 713 fs).
    assert (Lg : length gs = 713%nat) by (apply firstn_length_le; exact L).
    destruct (Scene_frames_keep gs st) as [T' [V' H']].
    apply Scene_frames_stay_zero; try congruence.
    destruct (Scene_frames_shrink gs st T F Hh R A) as [S1 S2].
    rewrite Lg in S2.
    assert (S3 : shrink 713 (Scene.heatUp st) <= shrink 713 1.287)
      by (apply shrink_monotone; exact B).
    assert (S4 : shrink 713 1.287 < 0.001) by (vm_compute; reflexivity).
    assert (N : no_tail (Scene.heatUp (Scene_frames gs st))).
    { apply Scene_frames_no_tail. apply Scene_run_no_tail.
      left. reflexivity. }
    destruct N as [N | N]; [exact N | lra].
  - rewrite (Scene_frames_not_ready fs st T). apply Z. reflexivity.
Qed.

Lemma released_heat_dies_out_witness :
  let es := [Scene.VideoReady true;
             Scene.PointerMove 400 300 (MathUtils.mkDOMRect 0 0 800 600);
             Scene.Update (1 / 60) 0.5; Scene.PointerUp] in
  let st := Scene.run es (Scene.init false sample_renderer) in
  let fs := repeat (1 / 60, 0.5) 713 in
  Scene_hold st = false /\ (713 <= length fs)%nat
  /\ Scene.heatUp (Scene_frames fs st) == 0.
Proof.
  intros es st fs.
  assert (H : Scene_hold st = false) by reflexivity.
  assert (L : (713 <= length fs)%nat)
    by (unfold fs; rewrite repeat_length; apply Nat.le_refl).
  split; [exact H|]. split; [exact L|].
  exact (released_heat_dies_out false sample_renderer es fs H L).
Defined.

(** *** What the accumulator passes are drawn with *)




(** The direction uniform as [updateDirection({ x: 0, y: 0 })] leaves
    it. *)
Definition no_direction (u : DrawRenderer.DrawRendererUniforms) : Prop :=
  DrawRenderer.uDirection u
  = Three.mkVector4 0 0 0 Constants.DIRECTION_MULTIPLIER.
















(* ================================================================= *)
(** ** The accumulator's fragment shader ([shaders/draw.frag])

    One invocation of [main()], for one pixel.  [sqrt] stands for the
    GLSL square root that [distance] takes, and [texture] for what
    sampling [uTexture] at a coordinate returns; both are inputs of
    the model.  The locals of [main()] that the properties below
    speak of have definitions of their own. *)

Module DrawShader.

Import Three.

Section Main.

Variable sqrt : Q -> Q.
Variable texture : Vector2 -> Vector4.

(** [distance(p, q)] *)
Definition distance (p q : Vector2) : Q :=
  sqrt ((x2 p - x2 q) * (x2 p - x2 q) + (y2 p - y2 q) * (y2 p - y2 q)).

(** [distance(pos, uv) / (uRadius.z / uResolution.x)], with both
    points divided by the aspect in [y]. *)
Definition reach (u : DrawRenderer.DrawRendererUniforms) (vUv : Vector2)
  : Q :=
  let aspect :=
    x3 (DrawRenderer.uResolution u) / y3 (DrawRenderer.uResolution u) in
  let pos := mkVector2 (x2 (DrawRenderer.uPosition u))
               (y2 (DrawRenderer.uPosition u) / aspect) in
  let uv := mkVector2 (x2 vUv) (y2 vUv / aspect) in
  distance pos uv
  / (z3 (DrawRenderer.uRadius u) / x3 (DrawRenderer.uResolution u)).

(** [dist = smoothstep(uRadius.x, uRadius.y, dist)] *)
Definition falloff (u : DrawRenderer.DrawRendererUniforms) (vUv : Vector2)
  : Q :=
  Glsl.smoothstep (x3 (DrawRenderer.uRadius u)) (y3 (DrawRenderer.uRadius u))
    (reach u vUv).

(** [offset] *)
Definition offset (u : DrawRenderer.DrawRendererUniforms) (vUv : Vector2)
  : Vector2 :=
  let dist := falloff u vUv in
  let d := DrawRenderer.uDirection u in
  let dir := mkVector3 (x4 d * w4 d) (y4 d * w4 d) (z4 d * w4 d) in
  mkVector2 (- x3 dir * (1 - dist)) (y3 dir * (1 - dist)).

(** [vUv + (offset * 0.01)] *)
Definition sample_point (u : DrawRenderer.DrawRendererUniforms)
  (vUv : Vector2) : Vector2 :=
  let o := offset u vUv in
  mkVector2 (x2 vUv + x2 o * 0.01) (y2 vUv + y2 o * 0.01).

(** [main()]: the value written to [gl_FragColor]. *)
Definition main (u : DrawRenderer.DrawRendererUniforms) (vUv : Vector2)
  : Vector4 :=
  let dist := falloff u vUv in
  let o := offset u vUv in
  let color := texture (sample_point u vUv) in
  let f := DrawRenderer.uFadeDamping u in
  let color :=
    mkVector4 (x4 color * f) (y4 color * f) (z4 color * f) (w4 color * f) in
  let r := x4 color + x2 o in
  let g := y4 color + y2 o in
  let r := Glsl.clamp r (-1) 1 in
  let g := Glsl.clamp g (-1) 1 in
  let b := z4 color + DrawRenderer.uDraw u * (1 - dist) in
  mkVector4 r g b 1.

End Main.

(** The uniforms for which every division and the [smoothstep] of
    [main()] are defined: a resolution and a radius that are positive
    and brush edges in order. *)
Definition well_formed (u : DrawRenderer.DrawRendererUniforms) : Prop :=
  0 < x3 (DrawRenderer.uResolution u)
  /\ 0 < y3 (DrawRenderer.uResolution u)
  /\ 0 < z3 (DrawRenderer.uRadius u)
  /\ x3 (DrawRenderer.uRadius u) < y3 (DrawRenderer.uRadius u).

End DrawShader.

(** A square root on the rationals, rounded down to three decimals,
    for running the shader on concrete pixels. *)
Definition sqrt_milli (x : Q) : Q :=
  inject_Z (Z.sqrt (Qfloor (x * 1000000))) / 1000.

(** A texture that holds the same texel everywhere. *)
Definition flat_texture (c : Three.Vector4) (_ : Three.Vector2)
  : Three.Vector4 := c.

(** The uniforms of the pass that the first display frame of the
    sample scene issues. *)
Definition sample_pass : DrawRenderer.DrawRendererUniforms :=
  DrawRenderer.uniforms (Scene.drawRenderer (Scene.loop 0.5 sample_scene)).

Lemma smoothstep_range (e0 e1 x : Q) :
  0 <= Glsl.smoothstep e0 e1 x <= 1.
Proof.
  unfold Glsl.smoothstep.
  set (t := Glsl.clamp _ 0 1).
  assert (Ht : 0 <= t <= 1) by (subst t; minmax; lra).
  clearbody t.
  assert (A : 0 <= (t * t) * (3 - 2 * t))
    by (apply Qmult_le_0_compat; nra).
  assert (B : 0 <= ((1 - t) * (1 - t)) * (1 + 2 * t))
    by (apply Qmult_le_0_compat; nra).
  split; nra.
Qed.

Lemma sample_pass_well_formed : DrawShader.well_formed sample_pass.
Proof. vm_compute. repeat split. Qed.

(** X23.  One pixel of an accumulator pass, for uniforms with positive
    resolution and radius and ordered brush edges, whatever the
    previous texture holds: the alpha written is 1, the two direction
    channels written lie in [-1, 1], and, when [uDraw] is not
    negative, the heat channel written is at least the faded sample
    and exceeds it by at most [uDraw]. *)
Theorem draw_pixel_ranges
  (sqrt : Q -> Q) (texture : Three.Vector2 -> Three.Vector4)
  (u : DrawRenderer.DrawRendererUniforms) (vUv : Three.Vector2) :
  DrawShader.well_formed u ->
  let out := DrawShader.main sqrt texture u vUv in
  let faded :=
    Three.z4 (texture (DrawShader.sample_point sqrt u vUv))
    * DrawRenderer.uFadeDamping u in
  Three.w4 out = 1
  /\ -1 <= Three.x4 out <= 1
  /\ -1 <= Three.y4 out <= 1
  /\ (0 <= DrawRenderer.uDraw u ->
      faded <= Three.z4 out <= faded + DrawRenderer.uDraw u).
Proof.
  intros _ out faded. subst out faded. unfold DrawShader.main. simpl.
  pose proof (smoothstep_range (Three.x3 (DrawRenderer.uRadius u))
                (Three.y3 (DrawRenderer.uRadius u))
                (DrawShader.reach sqrt u vUv)) as R.
  fold (DrawShader.falloff sqrt u vUv) in R.
  set (d := DrawShader.falloff sqrt u vUv) in *. clearbody d.
  split; [reflexivity|].
  split; [minmax; lra|]. split; [minmax; lra|].
  intros D. nra.
Qed.

Lemma draw_pixel_ranges_witness :
  let out := DrawShader.main sqrt_milli
               (flat_texture (Three.mkVector4 0.5 (-0.25) 1 1))
               sample_pass (Three.mkVector2 0.5 0.5) in
  DrawShader.well_formed sample_pass
  /\ Three.w4 out = 1
  /\ -1 <= Three.x4 out <= 1
  /\ -1 <= Three.y4 out <= 1.
Proof.
  intros out.
  destruct (draw_pixel_ranges sqrt_milli
              (flat_texture (Three.mkVector4 0.5 (-0.25) 1 1))
              sample_pass (Three.mkVector2 0.5 0.5) sample_pass_well_formed)
    as [A [B [C _]]].
  split; [exact sample_pass_well_formed|].
  split; [exact A|]. split; [exact B | exact C].
Defined.

(** X24.  One pixel of a pass drawn with the direction uniform
    (0, 0, 0, 100), as every pass of a ready scene is: the previous
    texture is sampled at the pixel's own coordinate, and the two
    direction channels written are the sampled ones times the fade
    damping, clamped to [-1, 1].  Nothing is displaced and nothing is
    added to these channels. *)
Theorem draw_pixel_without_direction
  (sqrt : Q -> Q) (texture : Three.Vector2 -> Three.Vector4)
  (u : DrawRenderer.DrawRendererUniforms) (vUv : Three.Vector2) :
  DrawShader.well_formed u -> no_direction u ->
  let out := DrawShader.main sqrt texture u vUv in
  let at_ := DrawShader.sample_point sqrt u vUv in
  let f := DrawRenderer.uFadeDamping u in
  Three.x2 at_ == Three.x2 vUv
  /\ Three.y2 at_ == Three.y2 vUv
  /\ Three.x4 out == Glsl.clamp (Three.x4 (texture at_) * f) (-1) 1
  /\ Three.y4 out == Glsl.clamp (Three.y4 (texture at_) * f) (-1) 1.
Proof.
  intros _ D out at_ f. subst out at_ f.
  unfold DrawShader.main, DrawShader.sample_point, DrawShader.offset.
  unfold no_direction in D. rewrite D. simpl.
  set (d := DrawShader.falloff sqrt u vUv). clearbody d.
  set (c := texture _). clearbody c.
  unfold Constants.DIRECTION_MULTIPLIER.
  split; [lra|]. split; [lra|].
  split; minmax; lra.
Qed.

Lemma draw_pixel_without_direction_witness :
  let texture := flat_texture (Three.mkVector4 0.5 (-0.25) 1 1) in
  let out := DrawShader.main sqrt_milli texture sample_pass
               (Three.mkVector2 0.5 0.5) in
  DrawShader.well_formed sample_pass /\ no_direction sample_pass
  /\ Three.x4 out == 0.49 /\ Three.y4 out == -0.245.
Proof.
  intros texture out.
  assert (D : no_direction sample_pass) by reflexivity.
  destruct (draw_pixel_without_direction sqrt_milli texture sample_pass
              (Three.mkVector2 0.5 0.5) sample_pass_well_formed D)
    as [_ [_ [A B]]].
  split; [exact sample_pass_well_formed|]. split; [exact D|].
  split; [apply (Qeq_trans _ _ _ A) | apply (Qeq_trans _ _ _ B)];
    vm_compute; reflexivity.
Defined.

(** *** The brush *)

Lemma smoothstep_poly_monotone (t : Q) :
  (80 # 89) <= t <= 1 -> (684800 # 704969) <= t * t * (3 - 2 * t).
Proof.
  intros H.
  assert (A : 0 <= (t - (80 # 89)) * (1 - t))
    by (apply Qmult_le_0_compat; lra).
  assert (G : 0 <= 3 * (t + (80 # 89))
                   - 2 * (t * t + t * (80 # 89) + (80 # 89) * (80 # 89)))
    by nra.
  assert (P : 0 <= (t - (80 # 89))
                   * (3 * (t + (80 # 89))
                      - 2 * (t * t + t * (80 # 89)
                             + (80 # 89) * (80 # 89))))
    by (apply Qmult_le_0_compat; lra).
  nra.
Qed.

(** The falloff of the brush with the edges of [RADIUS_VECTOR]. *)
Lemma brush_falloff (rho : Q) :
  (0 <= rho -> (684800 # 704969) <= Glsl.smoothstep (-8) 0.9 rho)
  /\ (0.9 <= rho -> Glsl.smoothstep (-8) 0.9 rho == 1).
Proof.
  unfold Glsl.smoothstep.
  assert (C : 0 < 0.9 - -8) by lra.
  split; intros H.
  - assert (K : (80 # 89) <= (rho - -8) / (0.9 - -8)).
    { apply Qle_shift_div_l; [exact C | lra]. }
    set (q := (rho - -8) / (0.9 - -8)) in *. clearbody q.
    apply smoothstep_poly_monotone. minmax; lra.
  - assert (K : 1 <= (rho - -8) / (0.9 - -8)).
    { apply Qle_shift_div_l; [exact C | lra]. }
    set (q := (rho - -8) / (0.9 - -8)) in *. clearbody q.
    assert (E : Glsl.clamp q 0 1 == 1) by (minmax; lra).
    rewrite E. reflexivity.
Qed.

Lemma reach_nonneg (sqrt : Q -> Q) (u : DrawRenderer.DrawRendererUniforms)
  (vUv : Three.Vector2) :
  (forall x, 0 <= sqrt x) -> DrawShader.well_formed u ->
  0 <= DrawShader.reach sqrt u vUv.
Proof.
  intros S [Rx [Ry [Rz _]]]. unfold DrawShader.reach, DrawShader.distance.
  cbv zeta.
  assert (C : 0 < Three.z3 (DrawRenderer.uRadius u)
                  / Three.x3 (DrawRenderer.uResolution u)).
  { apply Qlt_shift_div_l; [exact Rx | lra]. }
  apply Qle_shift_div_l; [exact C|].
  rewrite Qmult_0_l. apply S.
Qed.

(** X25.  The brush of the accumulator, for well-formed uniforms whose
    two brush edges are those of [RADIUS_VECTOR] (-8 and 0.9) and a
    square root that is never negative.  What a pass adds to the heat
    channel of a pixel is [uDraw] times one minus the falloff; it is
    zero where the scaled distance from the pointer is 0.9 or more,
    and for [uDraw >= 0] it lies between 0 and [uDraw] times
    20169/704969 (about 2.9 percent).  Hence with the fade damping
    0.98 and [uDraw <= 1.3], a pixel sampled at heat 1.86 or less is
    written with heat 1.86 or less. *)
Theorem draw_pixel_brush
  (sqrt : Q -> Q) (texture : Three.Vector2 -> Three.Vector4)
  (u : DrawRenderer.DrawRendererUniforms) (vUv : Three.Vector2) :
  (forall x, 0 <= sqrt x) ->
  DrawShader.well_formed u ->
  Three.x3 (DrawRenderer.uRadius u) = Three.x3 Constants.RADIUS_VECTOR ->
  Three.y3 (DrawRenderer.uRadius u) = Three.y3 Constants.RADIUS_VECTOR ->
  let out := DrawShader.main sqrt texture u vUv in
  let sampled := Three.z4 (texture (DrawShader.sample_point sqrt u vUv)) in
  let added := Three.z4 out - sampled * DrawRenderer.uFadeDamping u in
  added == DrawRenderer.uDraw u * (1 - DrawShader.falloff sqrt u vUv)
  /\ (0.9 <= DrawShader.reach sqrt u vUv -> added == 0)
  /\ (0 <= DrawRenderer.uDraw u ->
      0 <= added <= DrawRenderer.uDraw u * (20169 # 704969))
  /\ (0 <= DrawRenderer.uDraw u <= 1.3 ->
      DrawRenderer.uFadeDamping u == 0.98 ->
      sampled <= 1.86 -> Three.z4 out <= 1.86).
Proof.
  intros S W Ex Ey out sampled added. subst out sampled added.
  pose proof (reach_nonneg sqrt u vUv S W) as Rn.
  destruct (brush_falloff (DrawShader.reach sqrt u vUv)) as [F1 F2].
  specialize (F1 Rn).
  pose proof (smoothstep_range (-8) 0.9 (DrawShader.reach sqrt u vUv)) as F3.
  unfold DrawShader.main. simpl.
  unfold DrawShader.falloff in *. rewrite Ex, Ey. simpl.
  set (d := Glsl.smoothstep (-8) 0.9 (DrawShader.reach sqrt u vUv)) in *.
  set (c := Three.z4 (texture _)).
  clearbody d c.
  split; [lra|].
  split; [intros H; rewrite (F2 H); lra|].
  split; [intros H; nra|].
  intros [H1 H2] Hf Hc. rewrite Hf. nra.
Qed.

Lemma draw_pixel_brush_witness :
  let texture := flat_texture (Three.mkVector4 0.5 (-0.25) 1 1) in
  let out := DrawShader.main sqrt_milli texture sample_pass
               (Three.mkVector2 0.5 0.5) in
  (forall x, 0 <= sqrt_milli x)
  /\ DrawShader.well_formed sample_pass
  /\ Three.z4 out <= 1.86.
Proof.
  intros texture out.
  assert (S : forall x, 0 <= sqrt_milli x).
  { intros x. unfold sqrt_milli.
    apply Qle_shift_div_l; [reflexivity|]. rewrite Qmult_0_l.
    unfold Qle. simpl. rewrite Z.mul_1_r. apply Z.sqrt_nonneg. }
  destruct (draw_pixel_brush sqrt_milli texture sample_pass
              (Three.mkVector2 0.5 0.5) S sample_pass_well_formed
              eq_refl eq_refl) as [_ [_ [_ B]]].
  split; [exact S|]. split; [exact sample_pass_well_formed|].
  apply B.
  - vm_compute. split; discriminate.
  - reflexivity.
  - vm_compute. discriminate.
Defined.

(** *** The passes of the component scene meet the shader's
    preconditions *)


















(* ================================================================= *)
(** ** The orthographic camera of the scenes ([onResize]) *)

Module Camera.

(** The fields of [THREE.OrthographicCamera] that the scenes write. *)
Record t := mk
  { left : Q; right : Q; top : Q; bottom : Q; near : Q; far : Q }.

(** [new THREE.OrthographicCamera(...)] from [CAMERA_CONFIG] *)
Definition new : t := mk (-0.5) 0.5 0.5 (-0.5) (-1) 1.

(** [onResize(width, height)] of the component scene *)
Definition onResize (width height : Q) (camera : t) : t :=
  let aspectRatio := width / height in
  let cameraWidth := if JS.ge aspectRatio 1 then aspectRatio else 1 in
  let cameraHeight := if JS.ge aspectRatio 1 then 1 else 1 / aspectRatio in
  mk (- cameraWidth / 2) (cameraWidth / 2) (cameraHeight / 2)
    (- cameraHeight / 2) (near camera) (far camera).

(** [onResize(width, height)] of the monolithic scene *)
Definition legacy_onResize (width height : Q) (camera : t) : t :=
  let r := width / height in
  let a := if JS.ge r 1 then 1 * r else 1 in
  let s := if JS.ge r 1 then 1 else 1 / r in
  mk (- a / 2) (a / 2) (s / 2) (- s / 2) (-1) 1.

End Camera.

Lemma half (x : Q) : x / 2 == x * 0.5.
Proof. field. Qed.

(** X27.  [onResize] on a canvas of positive width and height, in both
    scenes: the frustum is centred ([left = -right],
    [bottom = -top]), it has the aspect of the canvas, its shorter side
    is exactly 1 and its longer side at least 1, so the unit square
    that carries the effect is always inside it.  The two scenes
    compute the same four bounds. *)
Theorem onResize_keeps_unit_square_in_view
  (width height : Q) (camera : Camera.t) :
  0 < width -> 0 < height ->
  let c := Camera.onResize width height camera in
  let l := Camera.legacy_onResize width height camera in
  let w := Camera.right c - Camera.left c in
  let h := Camera.top c - Camera.bottom c in
  Camera.left c == - Camera.right c
  /\ Camera.bottom c == - Camera.top c
  /\ w * height == h * width
  /\ 1 <= w /\ 1 <= h /\ (w == 1 \/ h == 1)
  /\ Camera.left l == Camera.left c /\ Camera.right l == Camera.right c
  /\ Camera.top l == Camera.top c /\ Camera.bottom l == Camera.bottom c.
Proof.
  intros Hw Hh c l w h. subst c l w h.
  unfold Camera.onResize, Camera.legacy_onResize, JS.ge. simpl.
  assert (A : (width / height) * height == width) by (field; lra).
  assert (P : 0 < width / height) by (apply Qlt_shift_div_l; lra).
  set (a := width / height) in *.
  destruct (Qle_bool 1 a) eqn:E.
  - apply Qle_bool_iff in E. rewrite !half.
    repeat split; try lra; try nra.
  - assert (L : a < 1).
    { apply Qnot_le_lt. intros K. apply Qle_bool_iff in K. congruence. }
    assert (I : (1 / a) * a == 1) by (field; lra).
    assert (G : 1 < 1 / a) by (apply Qlt_shift_div_l; lra).
    rewrite !half. set (i := 1 / a) in *. clearbody i.
    repeat split; try lra; try nra.
Qed.

Lemma onResize_keeps_unit_square_in_view_witness :
  let c := Camera.onResize 800 600 Camera.new in
  let w := Camera.right c - Camera.left c in
  let h := Camera.top c - Camera.bottom c in
  0 < 800 /\ 0 < 600 /\ w * 600 == h * 800 /\ 1 <= w /\ 1 <= h.
Proof.
  intros c w h.
  assert (Hw : 0 < 800) by reflexivity.
  assert (Hh : 0 < 600) by reflexivity.
  destruct (onResize_keeps_unit_square_in_view 800 600 Camera.new Hw Hh)
    as [_ [_ [A [B [C _]]]]].
  split; [exact Hw|]. split; [exact Hh|].
  split; [exact A|]. split; [exact B | exact C].
Defined.

(* ================================================================= *)
(** ** [hexToRGB] ([utils/math.ts], and the private copy of the
    monolithic scene)

    A string is the list of its code units; the model covers the
    strings whose code units are below 256, one [ascii] each.  A
    number that may be [NaN] is an [option]. *)

From Stdlib Require Import Ascii.

Module HexColor.

Definition JsString := list ascii.

(** [hex.replace(/^#/, '')] *)
Definition strip_hash (hex : JsString) : JsString :=
  match hex with
  | c :: t => if Ascii.eqb c "#" then t else hex
  | [] => hex
  end.

(** [hex.split('').map(c => c + c).join('')] *)
Definition double (hex : JsString) : JsString :=
  flat_map (fun c => [c; c]) hex.

(** [hex.slice(a, b)] for [0 <= a <= b] *)
Definition slice (a b : nat) (hex : JsString) : JsString :=
  firstn (b - a) (skipn a hex).

(** White space and line terminators below 256: TAB, LF, VT, FF, CR,
    SP and NBSP. *)
Definition is_space (c : ascii) : bool :=
  match nat_of_ascii c with
  | 9 | 10 | 11 | 12 | 13 | 32 | 160 => true
  | _ => false
  end%nat.

Fixpoint trim_start (s : JsString) : JsString :=
  match s with
  | c :: t => if is_space c then trim_start t else s
  | [] => []
  end.

(** The value of a digit of radix 16. *)
Definition digit16 (c : ascii) : option Z :=
  let n := Z.of_nat (nat_of_ascii c) in
  if ((48 <=? n) && (n <=? 57))%Z then Some (n - 48)%Z
  else if ((97 <=? n) && (n <=? 102))%Z then Some (n - 87)%Z
  else if ((65 <=? n) && (n <=? 70))%Z then Some (n - 55)%Z
  else None.

(** The value of the longest prefix of digits; [acc] is the value of
    the digits read so far, [None] when there is none yet. *)
Fixpoint digits (s : JsString) (acc : option Z) : option Z :=
  match s with
  | c :: t =>
      match digit16 c with
      | Some d =>
          digits t (Some (16 * match acc with Some v => v | None => 0 end
                          + d))%Z
      | None => acc
      end
  | [] => acc
  end.

(** [parseInt(s, 16)]: leading white space, a sign, a [0x] or [0X]
    prefix, then digits up to the first code unit that is none;
    [NaN] when there is no digit. *)
Definition parseInt16 (s : JsString) : option Z :=
  let s := trim_start s in
  let sign :=
    match s with
    | c :: _ => if Ascii.eqb c "-" then (-1)%Z else 1%Z
    | [] => 1%Z
    end in
  let s :=
    match s with
    | c :: t => if Ascii.eqb c "-" || Ascii.eqb c "+" then t else s
    | [] => s
    end in
  let s :=
    match s with
    | a :: b :: t =>
        if Ascii.eqb a "0" && (Ascii.eqb b "x" || Ascii.eqb b "X")
        then t else s
    | _ => s
    end in
  option_map (Z.mul sign) (digits s None).

(** [hexToRGB(hex)] *)
Definition hexToRGB (hex : JsString) : option Q * option Q * option Q :=
  let hex := strip_hash hex in
  let hex := if Nat.eqb (length hex) 3 then double hex else hex in
  let channel (a b : nat) :=
    option_map (fun n => inject_Z n / 255) (parseInt16 (slice a b hex)) in
  (channel 0 2, channel 2 4, channel 4 6)%nat.

End HexColor.

(** A digit is no white space, no sign, no [#] and no [x], and its
    value is below 16. *)
Lemma digit16_plain (c : ascii) (d : Z) :
  HexColor.digit16 c = Some d ->
  HexColor.is_space c = false
  /\ Ascii.eqb c "#" = false /\ Ascii.eqb c "-" = false
  /\ Ascii.eqb c "+" = false /\ Ascii.eqb c "x" = false
  /\ Ascii.eqb c "X" = false
  /\ (0 <= d <= 15)%Z.
Proof.
  destruct c as [[] [] [] [] [] [] [] []]; vm_compute; intros H;
    try discriminate H; inversion H; subst;
    repeat split; discriminate.
Qed.

Lemma parseInt16_pair (a b : ascii) (x y : Z) :
  HexColor.digit16 a = Some x -> HexColor.digit16 b = Some y ->
  HexColor.parseInt16 [a; b] = Some (16 * x + y)%Z.
Proof.
  intros Ha Hb.
  destruct (digit16_plain a x Ha) as [S [_ [M [P _]]]].
  destruct (digit16_plain b y Hb) as [_ [_ [_ [_ [X1 [X2 _]]]]]].
  unfold HexColor.parseInt16. cbn [HexColor.trim_start]. rewrite S, M, P.
  cbn [orb]. rewrite X1, X2, Bool.andb_false_r. cbn [orb].
  cbn [HexColor.digits]. rewrite Ha, Hb. cbn [option_map].
  f_equal. lia.
Qed.

From Stdlib Require String.

(** A string literal as the list of its code units. *)
Definition js (s : String.string) : HexColor.JsString :=
  String.list_ascii_of_string s.

Module PaletteStrings.

Import String.

(** The seven strings of [THERMAL_PALETTE]. *)
Definition THERMAL_PALETTE_hex : list HexColor.JsString :=
  map js
    ["000000"; "073dff"; "53d5fd"; "fefcdd"; "ffec6a"; "f9d400";
     "a61904"]%string.

Definition sample_long : HexColor.JsString := js "#073dff"%string.
Definition sample_short : HexColor.JsString := js "#f80"%string.
Definition sample_doubled : HexColor.JsString := js "ff8800"%string.

End PaletteStrings.

Lemma channel_range (n : Z) :
  (0 <= n <= 255)%Z -> 0 <= inject_Z n / 255 <= 1.
Proof.
  intros [A B]. rewrite Zle_Qle in A. rewrite Zle_Qle in B.
  split.
  - apply Qle_shift_div_l; [reflexivity|]. rewrite Qmult_0_l. exact A.
  - apply Qle_shift_div_r; [reflexivity|]. rewrite Qmult_1_l. exact B.
Qed.

(** X28.  [hexToRGB] on six digits of radix 16, with or without a
    leading [#]: each channel is its pair of digits read in base 16
    over 255, so it lies between 0 and 1; and the colours the material
    is created with are [hexToRGB] of the seven strings of
    [THERMAL_PALETTE]. *)
Theorem hexToRGB_reads_six_digits
  (c1 c2 c3 c4 c5 c6 : ascii) (d1 d2 d3 d4 d5 d6 : Z) :
  HexColor.digit16 c1 = Some d1 -> HexColor.digit16 c2 = Some d2 ->
  HexColor.digit16 c3 = Some d3 -> HexColor.digit16 c4 = Some d4 ->
  HexColor.digit16 c5 = Some d5 -> HexColor.digit16 c6 = Some d6 ->
  let r := inject_Z (16 * d1 + d2) / 255 in
  let g := inject_Z (16 * d3 + d4) / 255 in
  let b := inject_Z (16 * d5 + d6) / 255 in
  HexColor.hexToRGB [c1; c2; c3; c4; c5; c6] = (Some r, Some g, Some b)
  /\ HexColor.hexToRGB ("#"%char :: [c1; c2; c3; c4; c5; c6])
     = (Some r, Some g, Some b)
  /\ 0 <= r <= 1 /\ 0 <= g <= 1 /\ 0 <= b <= 1
  /\ map HexColor.hexToRGB PaletteStrings.THERMAL_PALETTE_hex
     = map (fun c => (Some (Three.x3 c), Some (Three.y3 c),
                      Some (Three.z3 c)))
         ThermalMaterial.THERMAL_PALETTE.
Proof.
  intros H1 H2 H3 H4 H5 H6 r g b. subst r g b.
  destruct (digit16_plain c1 d1 H1) as [_ [N1 [_ [_ [_ [_ B1]]]]]].
  destruct (digit16_plain c2 d2 H2) as [_ [_ [_ [_ [_ [_ B2]]]]]].
  destruct (digit16_plain c3 d3 H3) as [_ [_ [_ [_ [_ [_ B3]]]]]].
  destruct (digit16_plain c4 d4 H4) as [_ [_ [_ [_ [_ [_ B4]]]]]].
  destruct (digit16_plain c5 d5 H5) as [_ [_ [_ [_ [_ [_ B5]]]]]].
  destruct (digit16_plain c6 d6 H6) as [_ [_ [_ [_ [_ [_ B6]]]]]].
  assert (E : HexColor.hexToRGB [c1; c2; c3; c4; c5; c6]
              = (Some (inject_Z (16 * d1 + d2) / 255),
                 Some (inject_Z (16 * d3 + d4) / 255),
                 Some (inject_Z (16 * d5 + d6) / 255))).
  { unfold HexColor.hexToRGB, HexColor.strip_hash. rewrite N1.
    cbn [length Nat.eqb HexColor.slice Nat.sub skipn firstn].
    rewrite (parseInt16_pair c1 c2 d1 d2 H1 H2),
      (parseInt16_pair c3 c4 d3 d4 H3 H4),
      (parseInt16_pair c5 c6 d5 d6 H5 H6).
    reflexivity. }
  split; [exact E|].
  split; [rewrite <- E; unfold HexColor.hexToRGB, HexColor.strip_hash;
          rewrite N1, Ascii.eqb_refl; reflexivity|].
  split; [apply channel_range; lia|].
  split; [apply channel_range; lia|].
  split; [apply channel_range; lia|].
  vm_compute. reflexivity.
Qed.

Lemma hexToRGB_reads_six_digits_witness :
  HexColor.hexToRGB PaletteStrings.sample_long
  = (Some (inject_Z 7 / 255), Some (inject_Z 61 / 255),
     Some (inject_Z 255 / 255)).
Proof.
  exact (proj1 (proj2 (hexToRGB_reads_six_digits
                         "0" "7" "3" "d" "f" "f" 0 7 3 13 15 15
                         eq_refl eq_refl eq_refl eq_refl eq_refl eq_refl))).
Defined.

(** X29.  [hexToRGB] on three digits of radix 16, with or without a
    leading [#]: the result is that of the six digits obtained by
    writing each digit twice, and each channel is its digit over 15. *)
Theorem hexToRGB_expands_three_digits
  (c1 c2 c3 : ascii) (d1 d2 d3 : Z) :
  HexColor.digit16 c1 = Some d1 -> HexColor.digit16 c2 = Some d2 ->
  HexColor.digit16 c3 = Some d3 ->
  HexColor.hexToRGB [c1; c2; c3]
  = HexColor.hexToRGB [c1; c1; c2; c2; c3; c3]
  /\ HexColor.hexToRGB ("#"%char :: [c1; c2; c3])
     = HexColor.hexToRGB [c1; c1; c2; c2; c3; c3]
  /\ exists r g b,
       HexColor.hexToRGB [c1; c2; c3] = (Some r, Some g, Some b)
       /\ r == inject_Z d1 / 15 /\ g == inject_Z d2 / 15
       /\ b == inject_Z d3 / 15.
Proof.
  intros H1 H2 H3.
  destruct (digit16_plain c1 d1 H1) as [_ [N1 _]].
  assert (E : HexColor.hexToRGB [c1; c2; c3]
              = HexColor.hexToRGB [c1; c1; c2; c2; c3; c3]).
  { unfold HexColor.hexToRGB, HexColor.strip_hash. rewrite N1.
    reflexivity. }
  split; [exact E|].
  split; [rewrite <- E; unfold HexColor.hexToRGB, HexColor.strip_hash;
          rewrite N1, Ascii.eqb_refl; reflexivity|].
  destruct (hexToRGB_reads_six_digits c1 c1 c2 c2 c3 c3 d1 d1 d2 d2 d3 d3
              H1 H1 H2 H2 H3 H3) as [K _].
  cbv zeta in K. rewrite E, K.
  do 3 eexists. split; [reflexivity|].
  assert (F : forall d : Z, inject_Z (16 * d + d) / 255 == inject_Z d / 15).
  { intros d. replace (16 * d + d)%Z with (17 * d)%Z by lia.
    rewrite inject_Z_mult. field. }
  split; [apply F|]. split; apply F.
Qed.

Lemma hexToRGB_expands_three_digits_witness :
  HexColor.hexToRGB PaletteStrings.sample_short
  = HexColor.hexToRGB PaletteStrings.sample_doubled.
Proof.
  exact (proj1 (proj2 (hexToRGB_expands_three_digits
                         "f" "8" "0" 15 8 0 eq_refl eq_refl eq_refl))).
Defined.

(** *** Any string *)

(** A channel that is [NaN] or between -1/17 and 1. *)
Definition channel_ok (c : option Q) : Prop :=
  match c with
  | None => True
  | Some v => - (1 # 17) <= v <= 1
  end.

Ltac hex_conditions :=
  repeat match goal with
    | |- context [HexColor.is_space ?c] =>
        let E := fresh "E" in destruct (HexColor.is_space c) eqn:E
    | |- context [Ascii.eqb ?c ?k] =>
        let E := fresh "E" in destruct (Ascii.eqb c k) eqn:E
    | |- context [HexColor.digit16 ?c] =>
        let D := fresh "D" in
        destruct (HexColor.digit16 c) eqn:D;
        [apply digit16_plain in D|]
    | _ => progress cbn [HexColor.trim_start HexColor.digits option_map
                           orb andb]
    end.

(** [parseInt] on at most two code units: [NaN] or an integer from -15
    to 255. *)
Lemma parseInt16_short (s : HexColor.JsString) :
  (length s <= 2)%nat ->
  match HexColor.parseInt16 s with
  | None => True
  | Some v => (-15 <= v <= 255)%Z
  end.
Proof.
  intros L. destruct s as [|a [|b [|c t]]]; [exact I | | |simpl in L; lia];
    unfold HexColor.parseInt16; hex_conditions; try exact I;
    repeat match goal with
      | H : _ /\ _ |- _ => destruct H
      end;
    try congruence; lia.
Qed.

Lemma channel_of_short (s : HexColor.JsString) :
  (length s <= 2)%nat ->
  channel_ok (option_map (fun n => inject_Z n / 255)
                (HexColor.parseInt16 s)).
Proof.
  intros L. pose proof (parseInt16_short s L) as P.
  destruct (HexColor.parseInt16 s) as [v|]; [|exact I].
  simpl. destruct P as [A B].
  rewrite Zle_Qle in A. rewrite Zle_Qle in B.
  split.
  - apply Qle_shift_div_l; [reflexivity|].
    apply (Qle_trans _ (inject_Z (-15))); [|exact A].
    vm_compute. discriminate.
  - apply Qle_shift_div_r; [reflexivity|]. rewrite Qmult_1_l. exact B.
Qed.

(** X30.  [hexToRGB] on any string: it never fails and never
    validates; each channel is [NaN] or a number from -1/17 (a sign
    and one digit, as in [-f]) to 1. *)
Theorem hexToRGB_channels_of_any_string (hex : HexColor.JsString) :
  channel_ok (fst (fst (HexColor.hexToRGB hex)))
  /\ channel_ok (snd (fst (HexColor.hexToRGB hex)))
  /\ channel_ok (snd (HexColor.hexToRGB hex)).
Proof.
  unfold HexColor.hexToRGB, HexColor.slice.
  cbn [fst snd Nat.sub].
  repeat split; apply channel_of_short; apply firstn_le_length.
Qed.
